(** * SmartCart: basket matrices, rule queries and the hybrid recommender

    A shallow embedding of [src/preprocessing.py], [src/mba_engine.py],
    [src/recommender.py], and of the table metrics of [src/utils.py] and
    [src/data_loader.py].

    Conventions of the embedding.
    - Quantities, order ids and customer ids are integers ([Z]); products
      are strings.  The sums pandas and numpy take of quantities are
      [int64] sums: they wrap around, which [wrap_int64] writes out; the
      sums without wrap-around ([sumZ]) are what the statements compare
      them with.
    - A pandas [DataFrame] is a record of its row labels, its column labels
      and its cells, row by row.
    - The float64 scores of the recommender and the supports, confidences
      and lifts of the rule table are exact rationals ([Q]); a masked score
      is the extra value [NegInf].  Cosine similarity needs square roots and
      is defined over the real numbers in module [Cosine]; so are the
      normalized cells of module [Normalize].
    - [np.argsort] and pandas' [sort_values] use an unstable sort: the
      order of ties is not determined by the source.  They are an interface
      ([ArgSort]); [stable_argsort] is the instance that numpy's insertion
      sort implements on short arrays.  Python's [sorted] is stable and is
      the function [sorted_by].
    - Counts such as [n] are natural numbers: negative slice bounds are not
      modelled. *)

From Stdlib Require Import String.
From Stdlib Require Import ZArith QArith List Bool Arith Lia.
From Stdlib Require Import Permutation Sorted.
From Stdlib Require Reals Lra.
Import ListNotations.

Open Scope string_scope.
Open Scope list_scope.
Open Scope nat_scope.

(* ================================================================= *)
(** ** Python and numpy primitives *)

Module Py.

(** Exceptions the modelled functions can raise. *)
Inductive exn := TypeError | ValueError.

Inductive result (A : Type) :=
| Ok (a : A)
| Raise (e : exn).
Arguments Ok {A} a.
Arguments Raise {A} e.

(** [np.where(xs == x)[0][0]], guarded by [x in xs]: the first position
    of [x]. *)
Fixpoint index_of {A} (eqb : A -> A -> bool) (x : A) (l : list A) : option nat :=
  match l with
  | [] => None
  | y :: t => if eqb x y then Some 0
              else match index_of eqb x t with
                   | Some i => Some (S i)
                   | None => None
                   end
  end.

(** [zip(range(len(l)), l)]. *)
Definition enumerate {A} (l : list A) : list (nat * A) :=
  combine (seq 0 (length l)) l.

(** Insertion of [x] in front of the first element it is below. *)
Fixpoint insert_by {B} (leb : B -> B -> bool) (x : B) (l : list B) : list B :=
  match l with
  | [] => [x]
  | y :: t => if leb x y then x :: y :: t else y :: insert_by leb x t
  end.

(** Stable insertion sort: equal elements keep their order. *)
Definition isort {B} (leb : B -> B -> bool) (l : list B) : list B :=
  fold_right (insert_by leb) [] l.

(** [sorted(l, key=key)] and [sorted(l, key=key, reverse=True)]: both are
    stable in Python. *)
Definition sorted_by {B K} (leb : K -> K -> bool) (key : B -> K)
  (reverse : bool) (l : list B) : list B :=
  if reverse then isort (fun x y => leb (key y) (key x)) l
  else isort (fun x y => leb (key x) (key y)) l.

Definition total_preorder {A} (leb : A -> A -> bool) : Prop :=
  (forall x y, leb x y = true \/ leb y x = true) /\
  (forall x y z, leb x y = true -> leb y z = true -> leb x z = true).

(** The contract of [np.argsort(l)]: a permutation of the positions of
    [l] along which the values ascend. *)
Class ArgSort : Type := {
  argsort : forall {A : Type}, (A -> A -> bool) -> list A -> list nat;
  argsort_perm : forall A (leb : A -> A -> bool) (l : list A),
      Permutation (argsort leb l) (seq 0 (length l));
  argsort_sorted : forall A (leb : A -> A -> bool) (l : list A) (d : A),
      total_preorder leb ->
      StronglySorted (fun x y => leb x y = true)
                     (map (fun i => nth i l d) (argsort leb l))
}.

Definition stable_argsort_fn {A} (leb : A -> A -> bool) (l : list A) : list nat :=
  map fst (isort (fun p q => leb (snd p) (snd q)) (enumerate l)).

(** Sorted labels without repetition: the keys of a [groupby]. *)
Definition sorted_unique {A} (eq_dec : forall x y : A, {x = y} + {x <> y})
  (leb : A -> A -> bool) (l : list A) : list A :=
  isort leb (nodup eq_dec l).

(** The sum of a list of integers, without wrap-around. *)
Definition sumZ (l : list Z) : Z := fold_right Z.add 0%Z l.

(** [int64]: the integers from [-2^63] to [2^63 - 1]; an [int64] result
    outside that range wraps around. *)
Definition two63 : Z := 9223372036854775808%Z.

Definition in_int64 (z : Z) : Prop := (- two63 <= z < two63)%Z.

Definition wrap_int64 (z : Z) : Z := ((z + two63) mod (2 * two63) - two63)%Z.

Definition add_int64 (a b : Z) : Z := wrap_int64 (a + b).

(** [series.sum()] on [int64] cells. *)
Definition sum_int64 (l : list Z) : Z := fold_left add_int64 l 0%Z.

(* ----------------------------------------------------------------- *)
(** *** Facts about the primitives *)

Lemma sumZ_cons x l : sumZ (x :: l) = (x + sumZ l)%Z.
Proof. reflexivity. Qed.

Lemma wrap_int64_range z : in_int64 (wrap_int64 z).
Proof.
  unfold in_int64, wrap_int64, two63.
  pose proof (Z.mod_pos_bound (z + 9223372036854775808)
                (2 * 9223372036854775808)) as H. lia.
Qed.

Lemma wrap_int64_id z : in_int64 z -> wrap_int64 z = z.
Proof.
  unfold in_int64, wrap_int64, two63. intros H.
  rewrite Z.mod_small by lia. lia.
Qed.

Lemma wrap_int64_add a b : wrap_int64 (wrap_int64 a + b) = wrap_int64 (a + b).
Proof.
  unfold wrap_int64. f_equal.
  replace ((a + two63) mod (2 * two63) - two63 + b + two63)%Z
    with ((a + two63) mod (2 * two63) + b)%Z by lia.
  rewrite Zplus_mod_idemp_l. f_equal. lia.
Qed.

Lemma sum_int64_wrap l : sum_int64 l = wrap_int64 (sumZ l).
Proof.
  unfold sum_int64.
  assert (G : forall a, fold_left add_int64 l (wrap_int64 a)
                        = wrap_int64 (a + sumZ l)).
  { induction l as [|x l IH]; intros a; simpl.
    - f_equal. lia.
    - unfold add_int64 at 2. rewrite wrap_int64_add, IH. f_equal. lia. }
  change 0%Z with (wrap_int64 0) at 1. apply G.
Qed.

Lemma sum_int64_exact l : in_int64 (sumZ l) -> sum_int64 l = sumZ l.
Proof. intros H. rewrite sum_int64_wrap. apply wrap_int64_id. exact H. Qed.

(** The sum of a part of a list is bounded by the sum of the absolute
    values of the list. *)
Lemma sumZ_filter_bound {A} (f : A -> Z) (P : A -> bool) l :
  (Z.abs (sumZ (map f (filter P l))) <= sumZ (map (fun x => Z.abs (f x)) l))%Z.
Proof.
  induction l as [|x l IH]; simpl; [lia|].
  destruct (P x); simpl; lia.
Qed.

Lemma index_of_Some_nth {A} (eqb : A -> A -> bool) x l i :
  (forall a b, eqb a b = true -> a = b) ->
  index_of eqb x l = Some i -> nth_error l i = Some x.
Proof.
  intros Heq. revert i. induction l as [|y t IH]; intros i H; simpl in H.
  - discriminate.
  - destruct (eqb x y) eqn:E.
    + inversion H; subst. apply Heq in E. subst. reflexivity.
    + destruct (index_of eqb x t) as [k|]; [|discriminate].
      inversion H; subst. simpl. apply IH. reflexivity.
Qed.

Lemma index_of_In {A} (eqb : A -> A -> bool) x l :
  (forall a, eqb a a = true) ->
  In x l -> exists i, index_of eqb x l = Some i.
Proof.
  intros Hrefl. induction l as [|y t IH]; intros Hin; simpl.
  - destruct Hin.
  - destruct (eqb x y) eqn:E; [eauto|].
    destruct Hin as [->|Hin]; [rewrite Hrefl in E; discriminate|].
    destruct (IH Hin) as [i ->]. eauto.
Qed.

Lemma index_of_None {A} (eqb : A -> A -> bool) x l :
  (forall a, eqb a a = true) ->
  index_of eqb x l = None -> ~ In x l.
Proof.
  intros Hrefl H Hin. destruct (index_of_In eqb x l Hrefl Hin) as [i Hi].
  congruence.
Qed.

Lemma index_of_lt {A} (eqb : A -> A -> bool) x l i :
  index_of eqb x l = Some i -> i < length l.
Proof.
  revert i. induction l as [|y t IH]; intros i H; simpl in *.
  - discriminate.
  - destruct (eqb x y); [inversion H; lia|].
    destruct (index_of eqb x t); [|discriminate].
    inversion H. specialize (IH _ eq_refl). lia.
Qed.

Lemma nth_map_in {A B} (f : A -> B) (l : list A) d d' j :
  j < length l -> nth j (map f l) d = f (nth j l d').
Proof.
  revert j. induction l as [|x t IH]; intros j H; simpl in *; [lia|].
  destruct j; [reflexivity|]. apply IH. lia.
Qed.

Lemma nth_map_rows {A B} (f : A -> B) (M : list (list A)) i :
  nth i (map (map f) M) [] = map f (nth i M []).
Proof. exact (map_nth (map f) M [] i). Qed.

Lemma nth_map_default {A B} (f : A -> B) (l : list A) d d' j :
  f d' = d -> nth j (map f l) d = f (nth j l d').
Proof. intros <-. apply map_nth. Qed.

Lemma insert_by_perm {B} (leb : B -> B -> bool) x l :
  Permutation (insert_by leb x l) (x :: l).
Proof.
  induction l as [|y t IH]; simpl.
  - apply Permutation_refl.
  - destruct (leb x y).
    + apply Permutation_refl.
    + eapply Permutation_trans; [apply perm_skip, IH | apply perm_swap].
Qed.

Lemma isort_perm {B} (leb : B -> B -> bool) l :
  Permutation (isort leb l) l.
Proof.
  induction l as [|x t IH]; simpl.
  - apply Permutation_refl.
  - eapply Permutation_trans; [apply insert_by_perm | apply perm_skip, IH].
Qed.

Lemma insert_by_sorted {B} (leb : B -> B -> bool) x l :
  total_preorder leb ->
  StronglySorted (fun a b => leb a b = true) l ->
  StronglySorted (fun a b => leb a b = true) (insert_by leb x l).
Proof.
  intros [Htot Htrans]. induction l as [|y t IH]; intros Hs; simpl.
  - constructor; [constructor | constructor].
  - apply StronglySorted_inv in Hs. destruct Hs as [Hst Hall].
    destruct (leb x y) eqn:E.
    + constructor.
      * constructor; assumption.
      * constructor; [assumption|].
        rewrite Forall_forall in *. intros z Hz. eapply Htrans; eauto.
    + constructor.
      * apply IH. assumption.
      * assert (Hyx : leb y x = true) by (destruct (Htot x y); congruence).
        rewrite Forall_forall in *. intros z Hz.
        apply (Permutation_in _ (insert_by_perm leb x t)) in Hz.
        destruct Hz as [<-|Hz]; auto.
Qed.

Lemma isort_sorted {B} (leb : B -> B -> bool) l :
  total_preorder leb ->
  StronglySorted (fun a b => leb a b = true) (isort leb l).
Proof.
  intros Hto. induction l as [|x t IH]; simpl.
  - constructor.
  - apply insert_by_sorted; assumption.
Qed.

Lemma map_fst_combine_same {A B} (l : list A) (l' : list B) :
  length l = length l' -> map fst (combine l l') = l.
Proof.
  revert l'. induction l as [|x t IH]; intros [|y t'] H; simpl in *;
    try discriminate; try reflexivity.
  f_equal. apply IH. lia.
Qed.

Lemma enumerate_fst {A} (l : list A) : map fst (enumerate l) = seq 0 (length l).
Proof.
  unfold enumerate. apply map_fst_combine_same. apply length_seq.
Qed.

Lemma combine_seq_nth_error {A} (l : list A) s i x :
  In (i, x) (combine (seq s (length l)) l) ->
  s <= i /\ nth_error l (i - s) = Some x.
Proof.
  revert s. induction l as [|y t IH]; intros s H; simpl in H.
  - destruct H.
  - destruct H as [H|H].
    + inversion H; subst. split; [lia|]. rewrite Nat.sub_diag. reflexivity.
    + apply IH in H. destruct H as [Hle Hn]. split; [lia|].
      replace (i - s) with (S (i - S s)) by lia. exact Hn.
Qed.

Lemma enumerate_nth {A} (l : list A) d p :
  In p (enumerate l) -> nth (fst p) l d = snd p.
Proof.
  destruct p as [i x]. intros H. apply combine_seq_nth_error in H.
  destruct H as [_ H]. rewrite Nat.sub_0_r in H. simpl.
  apply nth_error_nth. exact H.
Qed.

Lemma lift_total_preorder {A B} (leb : A -> A -> bool) (f : B -> A) :
  total_preorder leb -> total_preorder (fun p q => leb (f p) (f q)).
Proof.
  intros [Htot Htrans]. split.
  - intros x y. apply Htot.
  - intros x y z. apply Htrans.
Qed.

Lemma StronglySorted_map {A B} (R : A -> A -> Prop) (f : B -> A) l :
  StronglySorted (fun x y => R (f x) (f y)) l -> StronglySorted R (map f l).
Proof.
  induction 1 as [|x t Hs IH Hall]; simpl; constructor; auto.
  rewrite Forall_forall in *. intros y Hy. apply in_map_iff in Hy.
  destruct Hy as [z [<- Hz]]. auto.
Qed.

Lemma stable_argsort_perm {A} (leb : A -> A -> bool) (l : list A) :
  Permutation (stable_argsort_fn leb l) (seq 0 (length l)).
Proof.
  unfold stable_argsort_fn. rewrite <- enumerate_fst.
  apply Permutation_map, isort_perm.
Qed.

Lemma stable_argsort_sorted {A} (leb : A -> A -> bool) (l : list A) (d : A) :
  total_preorder leb ->
  StronglySorted (fun x y => leb x y = true)
                 (map (fun i => nth i l d) (stable_argsort_fn leb l)).
Proof.
  intros Hto. unfold stable_argsort_fn. rewrite map_map.
  rewrite map_ext_in with (g := snd).
  - apply StronglySorted_map with (R := fun x y => leb x y = true).
    apply isort_sorted. apply lift_total_preorder with (f := @snd nat A). exact Hto.
  - intros p Hp. apply enumerate_nth.
    apply (Permutation_in _ (isort_perm _ _)) in Hp. exact Hp.
Qed.

#[export] Instance stable_argsort : ArgSort := {
  argsort := @stable_argsort_fn;
  argsort_perm := @stable_argsort_perm;
  argsort_sorted := @stable_argsort_sorted
}.

End Py.

(* ================================================================= *)
(** ** [src/preprocessing.py]: the basket matrix and the quantity matrix *)

Module Preprocessing.
Import Py.

(** One row of the transaction table. *)
Record Transaction := {
  order_id : Z;
  product : string;
  quantity : Z;
  customer_id : Z
}.

(** A [DataFrame] with integer row labels, product columns and integer
    cells. *)
Record DataFrame := {
  index : list Z;
  columns : list string;
  values : list (list Z)
}.

(** One group of [df.groupby([key, 'product'])]. *)
Definition group (key : Transaction -> Z) (df : list Transaction)
  (k : Z) (p : string) : list Transaction :=
  filter (fun t => (key t =? k)%Z && (product t =? p)%string) df.

(** A cell of [...['quantity'].sum().unstack()]: the [int64] sum of the
    group, and NaN ([None]) where the pair [(k, p)] has no record. *)
Definition unstack_cell (key : Transaction -> Z) (df : list Transaction)
  (k : Z) (p : string) : option Z :=
  match group key df k p with
  | [] => None
  | g => Some (sum_int64 (map quantity g))
  end.

(** [groupby] sorts its keys: the row and column labels of the result. *)
Definition row_labels (key : Transaction -> Z) (df : list Transaction) : list Z :=
  sorted_unique Z.eq_dec Z.leb (map key df).

Definition column_labels (df : list Transaction) : list string :=
  sorted_unique string_dec String.leb (map product df).

Definition unstack (key : Transaction -> Z) (df : list Transaction)
  : list (list (option Z)) :=
  map (fun k => map (fun p => unstack_cell key df k p) (column_labels df))
      (row_labels key df).

Definition fillna (v : Z) (c : option Z) : Z :=
  match c with Some x => x | None => v end.

(** [prepare_basket_data]:
    [basket = df.groupby(['order_id','product'])['quantity'].sum().unstack().fillna(0)]
    then [(basket > 0).astype(int)]. *)
Definition prepare_basket_data (df : list Transaction) : DataFrame :=
  let basket := map (map (fillna 0%Z)) (unstack order_id df) in
  {| index := row_labels order_id df;
     columns := column_labels df;
     values := map (map (fun c => if (0 <? c)%Z then 1%Z else 0%Z)) basket |}.

(** [prepare_user_item_matrix]:
    [df.groupby(['customer_id','product'])['quantity'].sum().unstack(fill_value=0)]. *)
Definition prepare_user_item_matrix (df : list Transaction) : DataFrame :=
  {| index := row_labels customer_id df;
     columns := column_labels df;
     values := map (map (fillna 0%Z)) (unstack customer_id df) |}.

(** [frame.loc[k, p]]. *)
Definition loc (frame : DataFrame) (k : Z) (p : string) : option Z :=
  match index_of Z.eqb k (index frame), index_of String.eqb p (columns frame) with
  | Some i, Some j =>
      match nth_error (values frame) i with
      | Some row => nth_error row j
      | None => None
      end
  | _, _ => None
  end.

(** The product's summed quantity in an order: the sum of [quantity] over
    the records of order [o] and product [p], without wrap-around. *)
Definition order_quantity (df : list Transaction) (o : Z) (p : string) : Z :=
  sumZ (map quantity (group order_id df o p)).

(** The same for a customer. *)
Definition customer_quantity (df : list Transaction) (c : Z) (p : string) : Z :=
  sumZ (map quantity (group customer_id df c p)).

(** No group sum of the table leaves the [int64] range. *)
Definition no_overflow (key : Transaction -> Z) (df : list Transaction) : Prop :=
  forall k p, in_int64 (sumZ (map quantity (group key df k p))).

(** The absolute quantities of the table add up to less than [2^63]: no
    sum of a part of the table can wrap around. *)
Definition small_table (df : list Transaction) : bool :=
  (sumZ (map (fun t => Z.abs (quantity t)) df) <? two63)%Z.

(** A column of the basket matrix holds a 1 in some row. *)
Definition column_has_one (frame : DataFrame) (p : string) : Prop :=
  exists o, In o (index frame) /\ loc frame o p = Some 1%Z.

(** A single record of quantity 0. *)
Definition zero_quantity_df : list Transaction :=
  [ {| order_id := 1; product := "A"; quantity := 0; customer_id := 7 |} ].

(** Two orders: A twice and B in the first, A in the second. *)
Definition two_orders_df : list Transaction :=
  [ {| order_id := 1; product := "A"; quantity := 2; customer_id := 7 |};
    {| order_id := 1; product := "B"; quantity := 1; customer_id := 7 |};
    {| order_id := 1; product := "A"; quantity := 3; customer_id := 7 |};
    {| order_id := 2; product := "A"; quantity := 1; customer_id := 8 |} ].

(* ----------------------------------------------------------------- *)
(** *** Labels and cells *)

Lemma sorted_unique_In {A} eq_dec (leb : A -> A -> bool) l x :
  In x (sorted_unique eq_dec leb l) <-> In x l.
Proof.
  unfold sorted_unique. split; intros H.
  - apply (Permutation_in _ (isort_perm leb _)) in H.
    apply nodup_In in H. exact H.
  - apply (Permutation_in _ (Permutation_sym (isort_perm leb _))).
    apply nodup_In. exact H.
Qed.

Lemma sorted_unique_NoDup {A} eq_dec (leb : A -> A -> bool) l :
  NoDup (sorted_unique eq_dec leb l).
Proof.
  unfold sorted_unique.
  apply (Permutation_NoDup (Permutation_sym (isort_perm leb _))).
  apply NoDup_nodup.
Qed.

(** The columns of both matrices are distinct products. *)
Lemma column_labels_NoDup df : NoDup (column_labels df).
Proof. apply sorted_unique_NoDup. Qed.

Lemma row_labels_In key df k :
  In k (row_labels key df) <-> exists t, In t df /\ key t = k.
Proof.
  unfold row_labels. rewrite sorted_unique_In, in_map_iff.
  split; intros [t [H1 H2]]; exists t; auto.
Qed.

Lemma column_labels_In df p :
  In p (column_labels df) <-> exists t, In t df /\ product t = p.
Proof.
  unfold column_labels. rewrite sorted_unique_In, in_map_iff.
  split; intros [t [H1 H2]]; exists t; auto.
Qed.

Lemma group_In key df k p t :
  In t (group key df k p) <-> In t df /\ key t = k /\ product t = p.
Proof.
  unfold group. rewrite filter_In, andb_true_iff, Z.eqb_eq, String.eqb_eq.
  tauto.
Qed.

Lemma fillna_unstack_cell key df k p :
  fillna 0%Z (unstack_cell key df k p)
  = wrap_int64 (sumZ (map quantity (group key df k p))).
Proof.
  unfold unstack_cell. rewrite <- sum_int64_wrap.
  destruct (group key df k p); reflexivity.
Qed.

(** A part of a small table adds up within [int64]. *)
Lemma small_table_part df (P : Transaction -> bool) :
  small_table df = true -> in_int64 (sumZ (map quantity (filter P df))).
Proof.
  unfold small_table, in_int64. intros H. apply Z.ltb_lt in H.
  pose proof (sumZ_filter_bound quantity P df). lia.
Qed.

Lemma small_table_no_overflow key df : small_table df = true -> no_overflow key df.
Proof. intros H k p. apply small_table_part. exact H. Qed.

Lemma Z_eqb_true a b : (a =? b)%Z = true -> a = b.
Proof. apply Z.eqb_eq. Qed.

Lemma string_eqb_true a b : (a =? b)%string = true -> a = b.
Proof. apply String.eqb_eq. Qed.

(** Reading a cell of a table built row by row from its labels. *)
Lemma loc_table (rows : list Z) (cols : list string) (f : Z -> string -> Z) k p :
  In k rows -> In p cols ->
  loc {| index := rows; columns := cols;
         values := map (fun k => map (fun p => f k p) cols) rows |} k p
  = Some (f k p).
Proof.
  intros Hk Hp. unfold loc. simpl.
  destruct (index_of_In Z.eqb k rows Z.eqb_refl Hk) as [i Hi].
  destruct (index_of_In String.eqb p cols String.eqb_refl Hp) as [j Hj].
  rewrite Hi, Hj.
  apply (index_of_Some_nth _ _ _ _ Z_eqb_true) in Hi.
  apply (index_of_Some_nth _ _ _ _ string_eqb_true) in Hj.
  rewrite nth_error_map, Hi. simpl.
  rewrite nth_error_map, Hj. reflexivity.
Qed.

Lemma prepare_basket_data_table df :
  prepare_basket_data df =
  {| index := row_labels order_id df;
     columns := column_labels df;
     values := map (fun k => map (fun p =>
                  if (0 <? wrap_int64 (order_quantity df k p))%Z then 1%Z else 0%Z)
                  (column_labels df)) (row_labels order_id df) |}.
Proof.
  unfold prepare_basket_data, unstack. f_equal.
  rewrite !map_map. apply map_ext. intros k.
  rewrite !map_map. apply map_ext. intros p.
  rewrite fillna_unstack_cell. reflexivity.
Qed.

Lemma prepare_user_item_matrix_table df :
  prepare_user_item_matrix df =
  {| index := row_labels customer_id df;
     columns := column_labels df;
     values := map (fun k => map (fun p => wrap_int64 (customer_quantity df k p))
                  (column_labels df)) (row_labels customer_id df) |}.
Proof.
  unfold prepare_user_item_matrix, unstack. f_equal.
  rewrite !map_map. apply map_ext. intros k.
  rewrite !map_map. apply map_ext. intros p.
  apply fillna_unstack_cell.
Qed.

(** Without wrap-around the cells are the sums themselves. *)
Lemma prepare_basket_data_exact df :
  no_overflow order_id df ->
  prepare_basket_data df =
  {| index := row_labels order_id df;
     columns := column_labels df;
     values := map (fun k => map (fun p =>
                  if (0 <? order_quantity df k p)%Z then 1%Z else 0%Z)
                  (column_labels df)) (row_labels order_id df) |}.
Proof.
  intros Hfit. rewrite prepare_basket_data_table. f_equal.
  apply map_ext. intros k. apply map_ext. intros p.
  unfold order_quantity. rewrite (wrap_int64_id _ (Hfit k p)). reflexivity.
Qed.

Lemma prepare_user_item_matrix_exact df :
  no_overflow customer_id df ->
  prepare_user_item_matrix df =
  {| index := row_labels customer_id df;
     columns := column_labels df;
     values := map (fun k => map (fun p => customer_quantity df k p)
                  (column_labels df)) (row_labels customer_id df) |}.
Proof.
  intros Hfit. rewrite prepare_user_item_matrix_table. f_equal.
  apply map_ext. intros k. apply map_ext. intros p.
  unfold customer_quantity. apply (wrap_int64_id _ (Hfit k p)).
Qed.

Lemma sumZ_pos (l : list Z) :
  l <> [] -> Forall (fun q => (0 < q)%Z) l -> (0 < sumZ l)%Z.
Proof.
  intros Hne Hall. destruct l as [|x t]; [congruence|].
  clear Hne. revert x Hall. induction t as [|y t IH]; intros x Hall.
  - inversion Hall; subst. simpl. lia.
  - inversion Hall; subst. specialize (IH y H2). simpl in *. lia.
Qed.

Lemma basket_cell df o p :
  no_overflow order_id df ->
  In o (index (prepare_basket_data df)) ->
  In p (columns (prepare_basket_data df)) ->
  loc (prepare_basket_data df) o p =
  Some (if (0 <? order_quantity df o p)%Z then 1%Z else 0%Z).
Proof.
  intros Hfit. rewrite (prepare_basket_data_exact df Hfit). simpl. intros Ho Hp.
  apply (loc_table _ _ (fun k p => if (0 <? order_quantity df k p)%Z then 1%Z else 0%Z));
    assumption.
Qed.

Lemma order_quantity_pos_row df o p :
  (0 < order_quantity df o p)%Z -> In o (row_labels order_id df).
Proof.
  unfold order_quantity. intros H.
  destruct (group order_id df o p) as [|t g] eqn:E; [simpl in H; lia|].
  assert (Ht : In t (group order_id df o p)) by (rewrite E; left; reflexivity).
  apply group_In in Ht. apply row_labels_In. exists t. tauto.
Qed.

(** C5 (first half, and what holds of the second): when no sum of an
    order's quantities of a product leaves the [int64] range, every cell of
    the basket matrix is 1 when the product's summed quantity in the order
    is positive and 0 otherwise; the columns are the products that occur in
    a record; a column holds a 1 exactly when some order has a positive
    summed quantity of the product, hence always when every record has a
    positive quantity. *)
Theorem prepare_basket_data_cells (df : list Transaction) :
  no_overflow order_id df ->
  (forall o p, In o (index (prepare_basket_data df)) ->
               In p (columns (prepare_basket_data df)) ->
     loc (prepare_basket_data df) o p =
     Some (if (0 <? order_quantity df o p)%Z then 1%Z else 0%Z)) /\
  (forall p, In p (columns (prepare_basket_data df)) <->
             exists t, In t df /\ product t = p) /\
  (forall p, In p (columns (prepare_basket_data df)) ->
     (column_has_one (prepare_basket_data df) p <->
      exists o, (0 < order_quantity df o p)%Z)) /\
  ((forall t, In t df -> (0 < quantity t)%Z) ->
   forall p, In p (columns (prepare_basket_data df)) ->
     column_has_one (prepare_basket_data df) p).
Proof.
  intros Hfit.
  assert (Hcols : forall p, In p (columns (prepare_basket_data df)) <->
                            exists t, In t df /\ product t = p).
  { intros p. simpl. apply column_labels_In. }
  assert (Hone : forall p, In p (columns (prepare_basket_data df)) ->
     (column_has_one (prepare_basket_data df) p <->
      exists o, (0 < order_quantity df o p)%Z)).
  { intros p Hp. split.
    - intros [o [Ho Hloc]]. exists o.
      rewrite (basket_cell df o p Hfit Ho Hp) in Hloc.
      destruct (0 <? order_quantity df o p)%Z eqn:E.
      + apply Z.ltb_lt. exact E.
      + discriminate.
    - intros [o Hq]. exists o.
      assert (Ho : In o (index (prepare_basket_data df))).
      { simpl. eapply order_quantity_pos_row. exact Hq. }
      split; [exact Ho|].
      rewrite (basket_cell df o p Hfit Ho Hp).
      apply Z.ltb_lt in Hq. rewrite Hq. reflexivity. }
  split; [|split; [|split]].
  - intros o p. apply basket_cell. exact Hfit.
  - exact Hcols.
  - exact Hone.
  - intros Hpos p Hp. apply Hone; [exact Hp|].
    destruct (proj1 (Hcols p) Hp) as [t [Ht Hprod]].
    exists (order_id t). unfold order_quantity. apply sumZ_pos.
    + intros Hnil.
      assert (Hin : In t (group order_id df (order_id t) p)).
      { apply group_In. auto. }
      apply (f_equal (@length Z)) in Hnil. rewrite length_map in Hnil.
      destruct (group order_id df (order_id t) p); [destruct Hin | discriminate].
    + apply Forall_forall. intros q Hq. apply in_map_iff in Hq.
      destruct Hq as [t' [<- Ht']]. apply Hpos. apply group_In in Ht'. tauto.
Qed.

Lemma prepare_basket_data_cells_witness :
  no_overflow order_id two_orders_df /\
  prepare_basket_data two_orders_df =
    {| index := [1%Z; 2%Z]; columns := ["A"; "B"];
       values := [[1%Z; 1%Z]; [1%Z; 0%Z]] |} /\
  (forall o p, In o (index (prepare_basket_data two_orders_df)) ->
               In p (columns (prepare_basket_data two_orders_df)) ->
     loc (prepare_basket_data two_orders_df) o p =
     Some (if (0 <? order_quantity two_orders_df o p)%Z then 1%Z else 0%Z)) /\
  (forall p, In p (columns (prepare_basket_data two_orders_df)) <->
             exists t, In t two_orders_df /\ product t = p) /\
  (forall p, In p (columns (prepare_basket_data two_orders_df)) ->
     (column_has_one (prepare_basket_data two_orders_df) p <->
      exists o, (0 < order_quantity two_orders_df o p)%Z)) /\
  ((forall t, In t two_orders_df -> (0 < quantity t)%Z) ->
   forall p, In p (columns (prepare_basket_data two_orders_df)) ->
     column_has_one (prepare_basket_data two_orders_df) p).
Proof.
  assert (Hfit : no_overflow order_id two_orders_df).
  { apply small_table_no_overflow. reflexivity. }
  split; [exact Hfit|]. split; [vm_compute; reflexivity|].
  apply (prepare_basket_data_cells two_orders_df Hfit).
Defined.

(** C5 (second half as stated): a product whose records all have quantity 0
    is materialized as a column of zeros. *)
Lemma prepare_basket_data_zero_column :
  prepare_basket_data zero_quantity_df =
    {| index := [1%Z]; columns := ["A"]; values := [[0%Z]] |} /\
  In "A" (columns (prepare_basket_data zero_quantity_df)) /\
  ~ column_has_one (prepare_basket_data zero_quantity_df) "A".
Proof.
  split; [vm_compute; reflexivity|]. split; [left; reflexivity|].
  intros [o [Ho Hloc]]. simpl in Ho. destruct Ho as [<-|[]].
  vm_compute in Hloc. discriminate.
Qed.

End Preprocessing.

(* ================================================================= *)
(** ** Cosine similarity over the real numbers *)

Module Cosine.
Import Reals Lra.
Local Open Scope R_scope.

(** The inner product of two vectors. *)
Definition dot (a b : list R) : R :=
  fold_right Rplus 0 (map (fun p => fst p * snd p) (combine a b)).

(** The magnitude of a vector. *)
Definition norm (a : list R) : R := sqrt (dot a a).

(** A zero magnitude is replaced by 1 before dividing. *)
Definition handle_zeros (x : R) : R :=
  if Req_dec_T x 0 then 1 else x.

(** A row divided by its magnitude. *)
Definition normalize_row (a : list R) : list R :=
  map (fun v => v / handle_zeros (norm a)) a.

Definition normalize (X : list (list R)) : list (list R) :=
  map normalize_row X.

(** Modelled from the spec: [sklearn.metrics.pairwise.cosine_similarity],
    which [fit] calls and which is not part of the sources.  "Compute cosine
    similarity of every row pair: sim(a,b) = (a.b)/(||a||.||b||), defined as
    0 when either vector has zero magnitude"; computed the way the library
    does, as the products of the rows of the normalized matrix. *)
Definition cosine_similarity (X : list (list R)) : list (list R) :=
  let Xn := normalize X in
  map (fun a => map (fun b => dot a b) Xn) Xn.

(** The similarity of one pair as the specification words it. *)
Definition sim (a b : list R) : R :=
  if Req_dec_T (norm a) 0 then 0
  else if Req_dec_T (norm b) 0 then 0
  else dot a b / (norm a * norm b).

(** [matrix.max()]: the largest cell; it raises on a matrix without cells
    ([None]). *)
Definition matrix_max (M : list (list Z)) : option Z :=
  match concat M with
  | [] => None
  | x :: t => Some (fold_left Z.max t x)
  end.

(** [matrix / (matrix.max() + 1e-8)]. *)
Definition matrix_normalized (mx : Z) (M : list (list Z)) : list (list R) :=
  map (map (fun x => IZR x / (IZR mx + 1e-8))) M.

(** [X.T] for a matrix of [width] columns. *)
Definition transpose (width : nat) (X : list (list R)) : list (list R) :=
  map (fun j => map (fun row => nth j row 0) X) (seq 0 width).

(** An entry of a similarity matrix. *)
Definition entry (S : list (list R)) (i j : nat) : R :=
  nth j (nth i S []) 0.

(* ----------------------------------------------------------------- *)
(** *** Inner products *)

Lemma dot_comm a b : dot a b = dot b a.
Proof.
  unfold dot. revert b. induction a as [|x a IH]; intros [|y b]; simpl;
    try reflexivity.
  rewrite IH. ring.
Qed.

Lemma dot_self_nonneg a : 0 <= dot a a.
Proof.
  unfold dot. induction a as [|x a IH]; simpl.
  - lra.
  - pose proof (Rle_0_sqr x) as Hx. unfold Rsqr in Hx. lra.
Qed.

Lemma dot_self_zero a : dot a a = 0 -> Forall (fun v => v = 0) a.
Proof.
  unfold dot. induction a as [|x a IH]; simpl; intros H.
  - constructor.
  - pose proof (Rle_0_sqr x) as Hx. unfold Rsqr in Hx.
    pose proof (dot_self_nonneg a) as Ha. unfold dot in Ha.
    assert (Hxx : x * x = 0) by lra.
    constructor.
    + apply Rmult_integral in Hxx. destruct Hxx; assumption.
    + apply IH. lra.
Qed.

Lemma dot_zero_l a b : Forall (fun v => v = 0) a -> dot a b = 0.
Proof.
  unfold dot. intros H. revert b. induction H as [|x a Hx Ha IH]; intros [|y b];
    simpl; try reflexivity.
  rewrite IH, Hx. ring.
Qed.

Lemma dot_scale a b c d :
  c <> 0 -> d <> 0 ->
  dot (map (fun v => v / c) a) (map (fun v => v / d) b) = dot a b / (c * d).
Proof.
  intros Hc Hd. unfold dot. revert b.
  induction a as [|x a IH]; intros [|y b]; simpl; try (field; auto).
  rewrite IH. field. auto.
Qed.

Lemma norm_zero_iff a : norm a = 0 <-> Forall (fun v => v = 0) a.
Proof.
  unfold norm. split; intros H.
  - apply dot_self_zero. apply sqrt_eq_0; [apply dot_self_nonneg | exact H].
  - rewrite dot_zero_l by exact H. apply sqrt_0.
Qed.

Lemma norm_sqr a : norm a * norm a = dot a a.
Proof. unfold norm. apply sqrt_def, dot_self_nonneg. Qed.

Lemma normalize_row_zero a :
  norm a = 0 -> Forall (fun v => v = 0) (normalize_row a).
Proof.
  intros H. apply norm_zero_iff in H. unfold normalize_row.
  apply Forall_map. eapply Forall_impl; [|exact H].
  intros v Hv. simpl in Hv. subst. unfold Rdiv. ring.
Qed.

(** The product of two normalized rows is the similarity of the rows. *)
Lemma dot_normalize_row a b :
  dot (normalize_row a) (normalize_row b) = sim a b.
Proof.
  unfold sim. destruct (Req_dec_T (norm a) 0) as [Ha|Ha].
  - apply dot_zero_l, normalize_row_zero, Ha.
  - destruct (Req_dec_T (norm b) 0) as [Hb|Hb].
    + rewrite dot_comm. apply dot_zero_l, normalize_row_zero, Hb.
    + unfold normalize_row, handle_zeros.
      destruct (Req_dec_T (norm a) 0); [contradiction|].
      destruct (Req_dec_T (norm b) 0); [contradiction|].
      apply dot_scale; assumption.
Qed.

Lemma cosine_similarity_entry X i j :
  (i < length X)%nat -> (j < length X)%nat ->
  entry (cosine_similarity X) i j = sim (nth i X []) (nth j X []).
Proof.
  intros Hi Hj. unfold entry, cosine_similarity, normalize.
  rewrite (Py.nth_map_in _ _ _ [] i) by (rewrite length_map; exact Hi).
  rewrite (Py.nth_map_in _ _ _ [] j) by (rewrite length_map; exact Hj).
  rewrite (Py.nth_map_in _ _ _ [] i) by exact Hi.
  rewrite (Py.nth_map_in _ _ _ [] j) by exact Hj.
  apply dot_normalize_row.
Qed.

Lemma cosine_similarity_shape X :
  length (cosine_similarity X) = length X /\
  Forall (fun row => length row = length X) (cosine_similarity X).
Proof.
  unfold cosine_similarity, normalize. split.
  - rewrite !length_map. reflexivity.
  - apply Forall_map. apply Forall_forall. intros a _.
    rewrite !length_map. reflexivity.
Qed.

Lemma entry_out_of_range_l X i j :
  (length X <= i)%nat -> entry (cosine_similarity X) i j = 0.
Proof.
  intros H. unfold entry. rewrite (nth_overflow (cosine_similarity X)).
  - destruct j; reflexivity.
  - rewrite (proj1 (cosine_similarity_shape X)). exact H.
Qed.

Lemma entry_out_of_range_r X i j :
  (length X <= j)%nat -> entry (cosine_similarity X) i j = 0.
Proof.
  intros H. unfold entry. destruct (Nat.lt_ge_cases i (length X)) as [Hi|Hi].
  - apply nth_overflow.
    pose proof (proj2 (cosine_similarity_shape X)) as Hall.
    rewrite Forall_forall in Hall. rewrite (Hall (nth i (cosine_similarity X) [])).
    + exact H.
    + apply nth_In. rewrite (proj1 (cosine_similarity_shape X)). exact Hi.
  - rewrite (nth_overflow (cosine_similarity X)).
    + destruct j; reflexivity.
    + rewrite (proj1 (cosine_similarity_shape X)). exact Hi.
Qed.

Lemma sim_comm a b : sim a b = sim b a.
Proof.
  unfold sim. destruct (Req_dec_T (norm a) 0), (Req_dec_T (norm b) 0);
    try reflexivity.
  rewrite dot_comm. f_equal. ring.
Qed.

Lemma sim_self a : norm a <> 0 -> sim a a = 1.
Proof.
  intros H. unfold sim. destruct (Req_dec_T (norm a) 0); [contradiction|].
  rewrite <- norm_sqr. field. exact H.
Qed.

Lemma sim_zero_l a b : norm a = 0 -> sim a b = 0.
Proof.
  intros H. unfold sim. destruct (Req_dec_T (norm a) 0); [reflexivity|contradiction].
Qed.

(** Dividing every cell by the same non-zero number changes no
    similarity: the normalization of [fit] only rescales. *)
Lemma norm_scale a c : c <> 0 -> norm (map (fun v => v / c) a) = norm a / Rabs c.
Proof.
  intros Hc. unfold norm. rewrite dot_scale by exact Hc.
  assert (Hcc : 0 < c * c).
  { destruct (Rtotal_order c 0) as [H|[H|H]]; [|contradiction|];
      pose proof (Rmult_lt_0_compat (Rabs c) (Rabs c)) as G; nra. }
  rewrite sqrt_div_alt by exact Hcc.
  change (c * c) with (Rsqr c). rewrite sqrt_Rsqr_abs. reflexivity.
Qed.

Lemma div_zero_iff x k : k <> 0 -> (x / k = 0 <-> x = 0).
Proof.
  intros Hk. split; intros H.
  - apply (Rmult_eq_reg_r (/ k)).
    + unfold Rdiv in H. rewrite H. ring.
    + apply Rinv_neq_0_compat, Hk.
  - rewrite H. unfold Rdiv. ring.
Qed.

Lemma sim_scale a b c :
  c <> 0 -> sim (map (fun v => v / c) a) (map (fun v => v / c) b) = sim a b.
Proof.
  intros Hc. unfold sim. rewrite !norm_scale by exact Hc.
  assert (Hk : Rabs c <> 0) by (apply Rabs_no_R0, Hc).
  assert (Hkk : c * c = Rabs c * Rabs c).
  { unfold Rabs. destruct (Rcase_abs c); ring. }
  destruct (Req_dec_T (norm a) 0) as [Ha|Ha];
    destruct (Req_dec_T (norm a / Rabs c) 0) as [Ha'|Ha'];
    try reflexivity;
    try (exfalso; apply (div_zero_iff (norm a) (Rabs c) Hk) in Ha'; contradiction);
    try (exfalso; apply Ha'; apply (div_zero_iff (norm a) (Rabs c) Hk); exact Ha).
  destruct (Req_dec_T (norm b) 0) as [Hb|Hb];
    destruct (Req_dec_T (norm b / Rabs c) 0) as [Hb'|Hb'];
    try reflexivity;
    try (exfalso; apply (div_zero_iff (norm b) (Rabs c) Hk) in Hb'; contradiction);
    try (exfalso; apply Hb'; apply (div_zero_iff (norm b) (Rabs c) Hk); exact Hb).
  rewrite dot_scale by exact Hc. rewrite Hkk. field. repeat split; assumption.
Qed.

Lemma norm_IZR_zero (v : list Z) :
  norm (map IZR v) = 0 <-> forallb (Z.eqb 0) v = true.
Proof.
  rewrite norm_zero_iff, forallb_forall, Forall_forall. split; intros H x Hx.
  - apply Z.eqb_eq. symmetry. apply eq_IZR.
    apply H. apply in_map. exact Hx.
  - apply in_map_iff in Hx. destruct Hx as [z [<- Hz]].
    apply H in Hz. apply Z.eqb_eq in Hz. subst. reflexivity.
Qed.

(** The divisor of the normalization is never zero: the maximum is an
    integer. *)
Lemma max_plus_epsilon_nonzero (mx : Z) : IZR mx + 1e-8 <> 0.
Proof.
  destruct (Z_lt_le_dec mx 0) as [H|H].
  - assert (G : (mx <= -1)%Z) by lia. apply IZR_le in G. lra.
  - apply IZR_le in H. lra.
Qed.

End Cosine.

(* ================================================================= *)
(** ** [src/recommender.py]: the hybrid recommendation policy *)

Module Recommender.
Import Py.
Import Preprocessing (DataFrame, index, columns, values).

(** An entry of a score array: a finite score, or [-np.inf] once masked. *)
Inductive score_t :=
| NegInf
| Fin (q : Q).

Definition Qlt_bool (x y : Q) : bool := negb (Qle_bool y x).

(** [a <= b] on score arrays, the order [np.argsort] sorts by. *)
Definition score_leb (a b : score_t) : bool :=
  match a, b with
  | NegInf, _ => true
  | Fin _, NegInf => false
  | Fin x, Fin y => Qle_bool x y
  end.

(** The fitted factorization: [transform] is sklearn's projection of one
    quantity vector (it raises on failure: [None]); [components_] is the
    item-feature matrix. *)
Record NMF := {
  transform : list Z -> option (list Q);
  components_ : list (list Q)
}.

(** The attributes of [RecommenderEngine].  [user_ids] and [item_ids] are
    always the labels of [user_item_matrix] and are read from it. *)
Record RecommenderEngine := {
  n_components : nat;
  n_recommendations : nat;
  user_item_matrix : option DataFrame;
  model : option NMF;
  user_similarity : option (list (list Q));
  item_similarity : option (list (list Q))
}.

Record Recommendation := {
  product : string;
  score : Q;
  reasoning : string
}.

Record SimilarUser := {
  customer_id : Z;
  similarity : Q
}.

Record SimilarProduct := {
  similar_product : string;
  product_similarity : Q
}.

(** Integer cells read as floats. *)
Definition as_float (M : list (list Z)) : list (list Q) :=
  map (map inject_Z) M.

(** [acc + v], cell by cell, on the cells of [acc]. *)
Fixpoint vadd (acc v : list Q) : list Q :=
  match acc with
  | [] => []
  | a :: acc' =>
      match v with
      | [] => a :: acc'
      | x :: v' => (a + x)%Q :: vadd acc' v'
      end
  end.

(** [np.dot(v, M)] for a vector [v] and a matrix [M] of [width] columns:
    the rows of [M] weighted by the entries of [v] and added up. *)
Fixpoint dot_vm (width : nat) (v : list Q) (M : list (list Q)) : list Q :=
  match v, M with
  | c :: v', row :: M' => vadd (dot_vm width v' M') (map (Qmult c) row)
  | _, _ => repeat 0%Q width
  end.

(** The [try] block of the known-customer path: [None] when [transform]
    raises or the shapes do not fit ([np.dot] and [+] raise then). *)
Definition mf_scores (nmf : NMF) (user_vector : list Z) (width : nat)
  : option (list Q) :=
  match transform nmf user_vector with
  | None => None
  | Some user_features =>
      if (length user_features =? length (components_ nmf))
         && forallb (fun row => length row =? width) (components_ nmf)
      then Some (dot_vm width user_features (components_ nmf))
      else None
  end.

(** [0.6 * weighted_items + 0.4 * mf_scores]. *)
Definition blend (weighted_items mf : list Q) : list Q :=
  map (fun p => (6 # 10) * fst p + (4 # 10) * snd p)%Q (combine weighted_items mf).

Definition final_scores (m : option NMF) (user_vector : list Z)
  (weighted_items : list Q) : list Q :=
  match m with
  | Some nmf =>
      match mf_scores nmf user_vector (length weighted_items) with
      | Some mf => blend weighted_items mf
      | None => weighted_items
      end
  | None => weighted_items
  end.

(** [scores[mask] = -np.inf] for a boolean mask. *)
Fixpoint mask_where (mask : list bool) (scores : list score_t) : list score_t :=
  match scores, mask with
  | s :: ss, b :: bs => (if b then NegInf else s) :: mask_where bs ss
  | ss, _ => ss
  end.

(** [scores[idxs] = -np.inf] for a list of positions. *)
Definition mask_at (idxs : list nat) (scores : list score_t) : list score_t :=
  map (fun p => if existsb (Nat.eqb (fst p)) idxs then NegInf else snd p)
      (enumerate scores).

(** [user_vector > 0]. *)
Definition purchased_mask (user_vector : list Z) : list bool :=
  map (fun q => (0 <? q)%Z) user_vector.

(** [np.where(user_vector > 0)[0]]. *)
Definition purchased_indices (user_vector : list Z) : list nat :=
  filter (fun j => (0 <? nth j user_vector 0%Z)%Z) (seq 0 (length user_vector)).

(** The loop over [top_indices] that keeps the strictly positive scores. *)
Definition collect (tag : string) (item_ids : list string)
  (scores : list score_t) (top_indices : list nat) : list Recommendation :=
  flat_map (fun idx =>
    match nth idx scores NegInf with
    | Fin q => if Qlt_bool 0 q
               then [ {| product := nth idx item_ids ""; score := q; reasoning := tag |} ]
               else []
    | NegInf => []
    end) top_indices.

(** [if n is None: n = self.n_recommendations]. *)
Definition requested (e : RecommenderEngine) (n : option nat) : nat :=
  match n with
  | Some n => n
  | None => n_recommendations e
  end.

Definition collaborative : string := "Collaborative filtering based on similar users".
Definition content_based : string := "Content-based: similar to your purchases".
Definition popular : string := "Popular items: trending products".

(** [frame.sum(axis=0)]: the [int64] sum of every column. *)
Fixpoint zadd (acc v : list Z) : list Z :=
  match acc with
  | [] => []
  | a :: acc' =>
      match v with
      | [] => a :: acc'
      | x :: v' => add_int64 a x :: zadd acc' v'
      end
  end.

Definition column_sums (width : nat) (rows : list (list Z)) : list Z :=
  fold_right (fun row acc => zadd acc row) (repeat 0%Z width) rows.

Section Policy.
Context {sorter : ArgSort}.

(** [_get_cold_start_recommendations]. *)
Definition _get_cold_start_recommendations (e : RecommenderEngine) (n : nat)
  : list Recommendation :=
  match user_item_matrix e with
  | None => []
  | Some M =>
      let sums := column_sums (length (columns M)) (values M) in
      (* .sort_values(ascending=False) *)
      let product_popularity := argsort (fun a b => (b <=? a)%Z) sums in
      map (fun idx => {| product := nth idx (columns M) "";
                         score := inject_Z (nth idx sums 0%Z);
                         reasoning := popular |})
          (firstn n product_popularity)
  end.

(** The item scores of the content-based tier: the similarity rows of the
    purchased items, weighted by the purchased quantities. *)
Definition accumulate_item_scores (item_sim : list (list Q)) (user_vector : list Z)
  (purchased : list nat) (width : nat) : list Q :=
  fold_left (fun acc p =>
     vadd acc (map (fun s => s * inject_Z (nth p user_vector 0%Z))%Q (nth p item_sim [])))
    purchased (repeat 0%Q width).

(** [_get_content_based_recommendations]. *)
Definition _get_content_based_recommendations (e : RecommenderEngine)
  (customer : Z) (n : nat) : result (list Recommendation) :=
  match user_item_matrix e with
  | None => Raise TypeError
  | Some M =>
      match index_of Z.eqb customer (index M) with
      | None => Ok []
      | Some user_idx =>
          let user_vector := nth user_idx (values M) [] in
          let purchased := purchased_indices user_vector in
          if length purchased =? 0 then Ok []
          else
            match item_similarity e with
            | None => Raise TypeError
            | Some item_sim =>
                let item_scores :=
                  accumulate_item_scores item_sim user_vector purchased
                                         (length (columns M)) in
                let item_scores := mask_at purchased (map Fin item_scores) in
                let top_indices := firstn n (rev (argsort score_leb item_scores)) in
                Ok (collect content_based (columns M) item_scores top_indices)
            end
      end
  end.

(** [weighted_items = np.dot(user_sim_scores, self.user_item_matrix.values)]. *)
Definition weighted_items (M : DataFrame) (user_sim : list (list Q))
  (user_idx : nat) : list Q :=
  let user_sim_scores := nth user_idx user_sim [] in
  dot_vm (length (columns M)) user_sim_scores (as_float (values M)).

(** The final scores of the known-customer path, before and after
    [final_scores[user_vector > 0] = -np.inf]. *)
Definition unmasked_scores (e : RecommenderEngine) (M : DataFrame)
  (user_sim : list (list Q)) (user_idx : nat) : list Q :=
  let user_vector := nth user_idx (values M) [] in
  final_scores (model e) user_vector (weighted_items M user_sim user_idx).

Definition masked_scores (e : RecommenderEngine) (M : DataFrame)
  (user_sim : list (list Q)) (user_idx : nat) : list score_t :=
  let user_vector := nth user_idx (values M) [] in
  mask_where (purchased_mask user_vector) (map Fin (unmasked_scores e M user_sim user_idx)).

(** [get_user_recommendations]. *)
Definition get_user_recommendations (e : RecommenderEngine) (customer : Z)
  (n : option nat) : result (list Recommendation) :=
  let n := requested e n in
  match user_item_matrix e with
  | None => Ok []
  | Some M =>
      match index_of Z.eqb customer (index M) with
      | None => Ok (_get_cold_start_recommendations e n)
      | Some user_idx =>
          match user_similarity e with
          | None => Raise TypeError
          | Some user_sim =>
              let final := masked_scores e M user_sim user_idx in
              let top_indices := firstn n (rev (argsort score_leb final)) in
              let recommendations := collect collaborative (columns M) final top_indices in
              if length recommendations <? n then
                match _get_content_based_recommendations e customer
                        (n - length recommendations) with
                | Ok content_recs => Ok (firstn n (recommendations ++ content_recs))
                | Raise x => Raise x
                end
              else Ok (firstn n recommendations)
          end
      end
  end.

(** [get_similar_users]. *)
Definition get_similar_users (e : RecommenderEngine) (customer : Z) (n : nat)
  : result (list SimilarUser) :=
  match user_item_matrix e with
  | None => Raise TypeError
  | Some M =>
      match index_of Z.eqb customer (index M) with
      | None => Ok []
      | Some user_idx =>
          match user_similarity e with
          | None => Raise TypeError
          | Some user_sim =>
              let user_sim_scores := nth user_idx user_sim [] in
              let top_indices :=
                skipn 1 (firstn (n + 1) (rev (argsort Qle_bool user_sim_scores))) in
              Ok (map (fun idx => {| customer_id := nth idx (index M) 0%Z;
                                     similarity := nth idx user_sim_scores 0%Q |})
                      top_indices)
          end
      end
  end.

(** [get_similar_products]. *)
Definition get_similar_products (e : RecommenderEngine) (p : string) (n : nat)
  : result (list SimilarProduct) :=
  match user_item_matrix e with
  | None => Raise TypeError
  | Some M =>
      match index_of String.eqb p (columns M) with
      | None => Ok []
      | Some product_idx =>
          match item_similarity e with
          | None => Raise TypeError
          | Some item_sim =>
              let product_sim_scores := nth product_idx item_sim [] in
              let top_indices :=
                skipn 1 (firstn (n + 1) (rev (argsort Qle_bool product_sim_scores))) in
              Ok (map (fun idx => {| similar_product := nth idx (columns M) "";
                                     product_similarity := nth idx product_sim_scores 0%Q |})
                      top_indices)
          end
      end
  end.

End Policy.

(** The total quantity of the product in column [j], summed across all
    customers, without wrap-around. *)
Definition total_quantity (M : DataFrame) (j : nat) : Z :=
  sumZ (map (fun row => nth j row 0%Z) (values M)).

Definition sumQ (l : list Q) : Q := fold_right Qplus 0%Q l.

(** The collaborative score of the product in column [j] as the
    specification words it: the sum over all customers [i] of
    [similarity(customer, i)] times the quantity customer [i] bought. *)
Definition similarity_score (user_sim_scores : list Q) (rows : list (list Z))
  (j : nat) : Q :=
  sumQ (map (fun i => nth i user_sim_scores 0 * inject_Z (nth j (nth i rows []) 0%Z))%Q
            (seq 0 (length rows))).

(** The factor score of column [j]: the projected features times the
    item-feature matrix. *)
Definition factor_score (user_features : list Q) (components : list (list Q))
  (j : nat) : Q :=
  sumQ (map (fun k => nth k user_features 0 * nth j (nth k components []) 0)%Q
            (seq 0 (length components))).

(** What a recommendation of the known-customer path is made of: a column
    of the matrix, of positive score, that the customer has not bought. *)
Definition fresh_column (M : DataFrame) (user_idx : nat) (r : Recommendation)
  (idx : nat) : Prop :=
  idx < length (columns M) /\
  product r = nth idx (columns M) "" /\
  (nth idx (nth user_idx (values M) []) 0 <= 0)%Z /\
  (0 < score r)%Q.

(* ----------------------------------------------------------------- *)
(** *** Shapes *)

Lemma vadd_length acc v : length (vadd acc v) = length acc.
Proof.
  revert v. induction acc as [|a acc IH]; intros [|x v]; simpl; auto.
Qed.

Lemma dot_vm_length width v M : length (dot_vm width v M) = width.
Proof.
  revert M. induction v as [|c v IH]; intros M; simpl.
  - apply repeat_length.
  - destruct M as [|row M]; [apply repeat_length|].
    rewrite vadd_length. apply IH.
Qed.

Lemma blend_length w mf : length mf = length w -> length (blend w mf) = length w.
Proof.
  intros H. unfold blend. rewrite length_map, length_combine. lia.
Qed.

Lemma mf_scores_length nmf uv width mf :
  mf_scores nmf uv width = Some mf -> length mf = width.
Proof.
  unfold mf_scores. destruct (transform nmf uv) as [uf|]; [|discriminate].
  destruct (_ && _); [|discriminate].
  intros H. inversion H. apply dot_vm_length.
Qed.

Lemma final_scores_length m uv w : length (final_scores m uv w) = length w.
Proof.
  unfold final_scores. destruct m as [nmf|]; [|reflexivity].
  destruct (mf_scores nmf uv (length w)) as [mf|] eqn:E; [|reflexivity].
  apply blend_length. eapply mf_scores_length. exact E.
Qed.

Lemma unmasked_scores_length e M user_sim user_idx :
  length (unmasked_scores e M user_sim user_idx) = length (columns M).
Proof.
  unfold unmasked_scores, weighted_items.
  rewrite final_scores_length. apply dot_vm_length.
Qed.

Lemma mask_where_length mask scores :
  length (mask_where mask scores) = length scores.
Proof.
  revert mask. induction scores as [|s ss IH]; intros [|b bs]; simpl; auto.
Qed.

Lemma masked_scores_length e M user_sim user_idx :
  length (masked_scores e M user_sim user_idx) = length (columns M).
Proof.
  unfold masked_scores. rewrite mask_where_length, length_map.
  apply unmasked_scores_length.
Qed.

Lemma mask_at_length idxs scores : length (mask_at idxs scores) = length scores.
Proof.
  unfold mask_at, enumerate. rewrite length_map, length_combine, length_seq. lia.
Qed.

(* ----------------------------------------------------------------- *)
(** *** Masks *)

Lemma mask_where_Fin mask scores j q :
  nth j (mask_where mask scores) NegInf = Fin q ->
  nth j mask false = false /\ nth j scores NegInf = Fin q.
Proof.
  revert mask j. induction scores as [|s ss IH]; intros mask j H.
  - destruct mask, j; simpl in H; discriminate.
  - destruct mask as [|b bs].
    + simpl in H. split; [destruct j; reflexivity | exact H].
    + destruct j as [|j]; simpl in *.
      * destruct b; [discriminate|]. auto.
      * apply IH. exact H.
Qed.

Lemma mask_where_keep mask scores j :
  nth j mask false = false ->
  nth j (mask_where mask scores) NegInf = nth j scores NegInf.
Proof.
  revert mask j. induction scores as [|s ss IH]; intros mask j H.
  - destruct mask; reflexivity.
  - destruct mask as [|b bs]; [reflexivity|].
    destruct j as [|j]; simpl in *.
    + rewrite H. reflexivity.
    + apply IH. exact H.
Qed.

Lemma purchased_mask_nth uv j :
  nth j (purchased_mask uv) false = (0 <? nth j uv 0%Z)%Z.
Proof.
  unfold purchased_mask.
  change false with ((fun q => (0 <? q)%Z) 0%Z). apply map_nth.
Qed.

Lemma enumerate_nth_pair {A} (l : list A) j d :
  j < length l -> nth j (enumerate l) (0, d) = (j, nth j l d).
Proof.
  intros H. unfold enumerate. rewrite combine_nth by apply length_seq.
  rewrite seq_nth by exact H. reflexivity.
Qed.

Lemma mask_at_nth idxs scores j :
  j < length scores ->
  nth j (mask_at idxs scores) NegInf =
  if existsb (Nat.eqb j) idxs then NegInf else nth j scores NegInf.
Proof.
  intros H. unfold mask_at.
  rewrite (nth_map_in _ _ _ (0, NegInf)).
  - rewrite enumerate_nth_pair by exact H. reflexivity.
  - unfold enumerate. rewrite length_combine, length_seq. lia.
Qed.

Lemma purchased_indices_In uv j :
  In j (purchased_indices uv) <-> j < length uv /\ (0 < nth j uv 0%Z)%Z.
Proof.
  unfold purchased_indices. rewrite filter_In, in_seq, Z.ltb_lt. lia.
Qed.

Lemma existsb_eqb_In j idxs : existsb (Nat.eqb j) idxs = true <-> In j idxs.
Proof.
  rewrite existsb_exists. split.
  - intros [x [Hx E]]. apply Nat.eqb_eq in E. subst. exact Hx.
  - intros H. exists j. split; [exact H | apply Nat.eqb_refl].
Qed.

(* ----------------------------------------------------------------- *)
(** *** The positions [np.argsort] returns *)

Lemma argsort_In {sorter : ArgSort} {A} (leb : A -> A -> bool) l i :
  In i (argsort leb l) <-> i < length l.
Proof.
  split; intros H.
  - apply (Permutation_in _ (argsort_perm A leb l)) in H.
    apply in_seq in H. lia.
  - apply (Permutation_in _ (Permutation_sym (argsort_perm A leb l))).
    apply in_seq. lia.
Qed.

Lemma argsort_NoDup {sorter : ArgSort} {A} (leb : A -> A -> bool) l :
  NoDup (argsort leb l).
Proof.
  apply (Permutation_NoDup (Permutation_sym (argsort_perm A leb l))).
  apply seq_NoDup.
Qed.

Lemma argsort_length {sorter : ArgSort} {A} (leb : A -> A -> bool) l :
  length (argsort leb l) = length l.
Proof.
  rewrite (Permutation_length (argsort_perm A leb l)). apply length_seq.
Qed.

Lemma In_firstn {A} (l : list A) n x : In x (firstn n l) -> In x l.
Proof.
  intros H. rewrite <- (firstn_skipn n l). apply in_or_app. left. exact H.
Qed.

Lemma collect_In tag ids scores top r :
  In r (collect tag ids scores top) ->
  exists idx, In idx top /\ nth idx scores NegInf = Fin (score r) /\
              (0 < score r)%Q /\ product r = nth idx ids "" /\ reasoning r = tag.
Proof.
  unfold collect. rewrite in_flat_map. intros [idx [Hidx Hr]].
  exists idx. split; [exact Hidx|].
  destruct (nth idx scores NegInf) as [|q]; [destruct Hr|].
  destruct (Qlt_bool 0 q) eqn:E; [|destruct Hr].
  destruct Hr as [<-|[]]. simpl. repeat split; try reflexivity.
  unfold Qlt_bool in E. apply negb_true_iff in E.
  destruct (Qlt_le_dec 0 q) as [Hlt|Hle]; [exact Hlt|].
  apply Qle_bool_iff in Hle. congruence.
Qed.

Lemma accumulate_item_scores_length item_sim uv purchased width :
  length (accumulate_item_scores item_sim uv purchased width) = width.
Proof.
  unfold accumulate_item_scores.
  assert (G : forall acc, length (fold_left (fun acc p =>
     vadd acc (map (fun s => s * inject_Z (nth p uv 0%Z))%Q (nth p item_sim [])))
     purchased acc) = length acc).
  { induction purchased as [|p ps IH]; intros acc; simpl; [reflexivity|].
    rewrite IH. apply vadd_length. }
  rewrite G. apply repeat_length.
Qed.

(* ----------------------------------------------------------------- *)
(** *** The two personalised tiers *)

Section Tiers.
Context {sorter : ArgSort}.

Lemma collaborative_tier e M user_sim user_idx n r :
  In r (collect collaborative (columns M) (masked_scores e M user_sim user_idx)
          (firstn n (rev (argsort score_leb (masked_scores e M user_sim user_idx))))) ->
  exists idx, fresh_column M user_idx r idx /\
              reasoning r = collaborative /\
              nth idx (masked_scores e M user_sim user_idx) NegInf = Fin (score r) /\
              score r = nth idx (unmasked_scores e M user_sim user_idx) 0%Q.
Proof.
  intros H. apply collect_In in H.
  destruct H as [idx [Hidx [Hnth [Hpos [Hprod Htag]]]]].
  exists idx. apply In_firstn in Hidx. apply in_rev in Hidx.
  apply argsort_In in Hidx. rewrite masked_scores_length in Hidx.
  pose proof Hnth as Hm. unfold masked_scores in Hm.
  apply mask_where_Fin in Hm. destruct Hm as [Hmask Hfin].
  rewrite purchased_mask_nth in Hmask. apply Z.ltb_ge in Hmask.
  repeat split; auto.
  rewrite (nth_map_in Fin _ NegInf 0%Q) in Hfin
    by (rewrite unmasked_scores_length; exact Hidx).
  inversion Hfin. reflexivity.
Qed.

Lemma content_tier e M customer user_idx n recs r :
  user_item_matrix e = Some M ->
  index_of Z.eqb customer (index M) = Some user_idx ->
  _get_content_based_recommendations e customer n = Ok recs ->
  In r recs ->
  exists idx, fresh_column M user_idx r idx /\ reasoning r = content_based.
Proof.
  intros HM Hidx. unfold _get_content_based_recommendations.
  rewrite HM, Hidx.
  set (uv := nth user_idx (values M) []).
  destruct (length (purchased_indices uv) =? 0).
  { intros H; inversion H; subst. intros []. }
  destruct (item_similarity e) as [item_sim|]; [|discriminate].
  set (acc := accumulate_item_scores item_sim uv (purchased_indices uv)
                                     (length (columns M))).
  intros H Hr. inversion H; subst recs. clear H.
  apply collect_In in Hr.
  destruct Hr as [idx [Hin [Hnth [Hpos [Hprod Htag]]]]].
  exists idx. apply In_firstn in Hin. apply in_rev in Hin.
  apply argsort_In in Hin.
  rewrite mask_at_length, length_map in Hin.
  assert (Hlen : length acc = length (columns M))
    by apply accumulate_item_scores_length.
  rewrite mask_at_nth in Hnth by (rewrite length_map; exact Hin).
  destruct (existsb (Nat.eqb idx) (purchased_indices uv)) eqn:E; [discriminate|].
  assert (Hnot : ~ In idx (purchased_indices uv)).
  { intros Hc. apply existsb_eqb_In in Hc. congruence. }
  rewrite purchased_indices_In in Hnot.
  split; [|exact Htag]. unfold fresh_column. fold uv.
  repeat split; auto; try lia.
  destruct (Nat.lt_ge_cases idx (length uv)) as [Hlt|Hge].
  - lia.
  - rewrite nth_overflow by exact Hge. lia.
Qed.

(** Every recommendation of the known-customer path comes from one of the
    two tiers. *)
Lemma known_customer_tiers e M customer user_idx user_sim n recs r :
  user_item_matrix e = Some M ->
  user_similarity e = Some user_sim ->
  index_of Z.eqb customer (index M) = Some user_idx ->
  get_user_recommendations e customer n = Ok recs ->
  In r recs ->
  exists idx, fresh_column M user_idx r idx /\
    ((reasoning r = collaborative /\
      score r = nth idx (unmasked_scores e M user_sim user_idx) 0%Q) \/
     reasoning r = content_based).
Proof.
  intros HM HS Hidx. unfold get_user_recommendations.
  rewrite HM, Hidx, HS.
  set (k := requested e n).
  set (final := masked_scores e M user_sim user_idx).
  set (cf := collect collaborative (columns M) final
               (firstn k (rev (argsort score_leb final)))).
  assert (Hcf : forall r, In r cf -> exists idx, fresh_column M user_idx r idx /\
    ((reasoning r = collaborative /\
      score r = nth idx (unmasked_scores e M user_sim user_idx) 0%Q) \/
     reasoning r = content_based)).
  { intros r0 Hr0. apply collaborative_tier in Hr0.
    destruct Hr0 as [idx [Hf [Ht [_ Hs]]]]. exists idx. auto. }
  destruct (length cf <? k).
  - destruct (_get_content_based_recommendations e customer (k - length cf))
      as [content_recs|x] eqn:E; [|discriminate].
    intros H Hr. inversion H; subst recs. clear H.
    apply In_firstn in Hr. apply in_app_or in Hr. destruct Hr as [Hr|Hr].
    + apply Hcf. exact Hr.
    + destruct (content_tier e M customer user_idx _ _ r HM Hidx E Hr)
        as [idx [Hf Ht]].
      exists idx. auto.
  - intros H Hr. inversion H; subst recs. clear H.
    apply In_firstn in Hr. apply Hcf. exact Hr.
Qed.

End Tiers.

End Recommender.

(* ================================================================= *)
(** ** [RecommenderEngine.fit]: the similarity matrices *)

Module RecommenderFit.
Import Py.
Import Preprocessing (DataFrame, index, columns, values).
Import Recommender Cosine.
Import Reals Lra.

(** Lines 47-55 of [fit] over the reals: the user-user and the item-item
    similarity matrix; [None] when [matrix.max()] raises, which it does on
    a matrix without cells. *)
Definition fit_similarity (M : DataFrame)
  : option (list (list R) * list (list R)) :=
  match matrix_max (values M) with
  | None => None
  | Some mx =>
      let matrix_normalized := matrix_normalized mx (values M) in
      Some (cosine_similarity matrix_normalized,
            cosine_similarity (transpose (length (columns M)) matrix_normalized))
  end.

(** A factorization with non-negative factors, as NMF produces. *)
Definition nmf_nonneg (nmf : NMF) : Prop :=
  Forall (Forall (fun x => 0 <= x)%Q) (components_ nmf) /\
  forall uv uf, transform nmf uv = Some uf -> Forall (fun x => 0 <= x)%Q uf.

(** [fit] as a relation between the engine before the call, the matrix
    and the engine after it.  The matrix attributes are assigned first; if
    [matrix.max()] raises the other attributes keep their values.
    Otherwise the similarity attributes hold the cosine similarities, and
    the model is absent (the factorization raised) or non-negative.  The
    rational entries of the engine stand for the real ones. *)
Definition fit (e : RecommenderEngine) (user_item_df : DataFrame)
  (e' : RecommenderEngine) : Prop :=
  n_components e' = n_components e /\
  n_recommendations e' = n_recommendations e /\
  user_item_matrix e' = Some user_item_df /\
  match fit_similarity user_item_df with
  | None =>
      model e' = model e /\
      user_similarity e' = user_similarity e /\
      item_similarity e' = item_similarity e
  | Some (user_sim, item_sim) =>
      (exists S, user_similarity e' = Some S /\ map (map Q2R) S = user_sim) /\
      (exists S, item_similarity e' = Some S /\ map (map Q2R) S = item_sim) /\
      (model e' = None \/ exists nmf, model e' = Some nmf /\ nmf_nonneg nmf)
  end.

(** The quantity vector of the customer in row [i], and of the product in
    column [j]. *)
Definition user_vector (M : DataFrame) (i : nat) : list Z :=
  nth i (values M) [].

Definition item_vector (M : DataFrame) (j : nat) : list Z :=
  map (fun row => nth j row 0%Z) (values M).

(** A vector of zero magnitude. *)
Definition zero_vector (v : list Z) : bool := forallb (Z.eqb 0) v.

(** Customer 7 has a single record, of quantity 0; customer 8 bought two
    units of the same product. *)
Definition idle_customer_df : list Preprocessing.Transaction :=
  [ {| Preprocessing.order_id := 1; Preprocessing.product := "A";
       Preprocessing.quantity := 0; Preprocessing.customer_id := 7 |};
    {| Preprocessing.order_id := 2; Preprocessing.product := "A";
       Preprocessing.quantity := 2; Preprocessing.customer_id := 8 |} ].

Definition idle_customer_matrix : DataFrame :=
  Preprocessing.prepare_user_item_matrix idle_customer_df.

Definition idle_user_similarity : list (list R) :=
  cosine_similarity (matrix_normalized 2 (values idle_customer_matrix)).

Definition idle_item_similarity : list (list R) :=
  cosine_similarity (transpose 1 (matrix_normalized 2 (values idle_customer_matrix))).

Local Open Scope R_scope.

(* ----------------------------------------------------------------- *)
(** *** Rows and columns of the normalized matrix *)

Lemma matrix_normalized_row mx M i :
  nth i (matrix_normalized mx M) [] =
  map (fun v => v / (IZR mx + 1e-8)) (map IZR (nth i M [])).
Proof.
  unfold matrix_normalized. rewrite nth_map_rows, map_map. reflexivity.
Qed.

Lemma transpose_length width X : length (transpose width X) = width.
Proof. unfold transpose. rewrite length_map, length_seq. reflexivity. Qed.

Lemma matrix_normalized_column mx M width j :
  (j < width)%nat ->
  nth j (transpose width (matrix_normalized mx M)) [] =
  map (fun v => v / (IZR mx + 1e-8)) (map IZR (map (fun row => nth j row 0%Z) M)).
Proof.
  intros Hj. unfold transpose.
  rewrite (nth_map_in _ _ _ 0%nat j) by (rewrite length_seq; exact Hj).
  rewrite seq_nth by exact Hj. simpl.
  unfold matrix_normalized. rewrite !map_map. apply map_ext. intros row.
  apply (nth_map_default (fun x => IZR x / (IZR mx + 1e-8)) row 0 0%Z j).
  unfold Rdiv. ring.
Qed.

Lemma user_entry M mx i j :
  (i < length (values M))%nat -> (j < length (values M))%nat ->
  entry (cosine_similarity (matrix_normalized mx (values M))) i j =
  sim (map IZR (user_vector M i)) (map IZR (user_vector M j)).
Proof.
  intros Hi Hj.
  rewrite cosine_similarity_entry
    by (unfold matrix_normalized; rewrite length_map; assumption).
  rewrite !matrix_normalized_row.
  apply sim_scale, max_plus_epsilon_nonzero.
Qed.

Lemma item_entry M mx i j :
  (i < length (columns M))%nat -> (j < length (columns M))%nat ->
  entry (cosine_similarity
           (transpose (length (columns M)) (matrix_normalized mx (values M)))) i j =
  sim (map IZR (item_vector M i)) (map IZR (item_vector M j)).
Proof.
  intros Hi Hj.
  rewrite cosine_similarity_entry by (rewrite transpose_length; assumption).
  rewrite !matrix_normalized_column by assumption.
  apply sim_scale, max_plus_epsilon_nonzero.
Qed.

Lemma cosine_similarity_symmetric X i j :
  entry (cosine_similarity X) i j = entry (cosine_similarity X) j i.
Proof.
  destruct (Nat.lt_ge_cases i (length X)) as [Hi|Hi];
    destruct (Nat.lt_ge_cases j (length X)) as [Hj|Hj].
  - rewrite !cosine_similarity_entry by assumption. apply sim_comm.
  - rewrite entry_out_of_range_r, entry_out_of_range_l by assumption. reflexivity.
  - rewrite entry_out_of_range_l, entry_out_of_range_r by assumption. reflexivity.
  - rewrite !entry_out_of_range_l by assumption. reflexivity.
Qed.

Lemma sim_diagonal (v : list Z) :
  sim (map IZR v) (map IZR v) = if zero_vector v then 0 else 1.
Proof.
  unfold zero_vector. destruct (forallb (Z.eqb 0) v) eqn:E.
  - apply sim_zero_l. apply norm_IZR_zero. exact E.
  - apply sim_self. intros H. apply norm_IZR_zero in H. congruence.
Qed.

Lemma fit_similarity_Some M user_sim item_sim :
  fit_similarity M = Some (user_sim, item_sim) ->
  exists mx,
    user_sim = cosine_similarity (matrix_normalized mx (values M)) /\
    item_sim = cosine_similarity
                 (transpose (length (columns M)) (matrix_normalized mx (values M))).
Proof.
  unfold fit_similarity. destruct (matrix_max (values M)) as [mx|]; [|discriminate].
  intros H. inversion H. exists mx. split; reflexivity.
Qed.

Lemma user_diagonal M mx a :
  (a < length (values M))%nat ->
  entry (cosine_similarity (matrix_normalized mx (values M))) a a =
  if zero_vector (user_vector M a) then 0 else 1.
Proof.
  intros Ha. rewrite user_entry by assumption. apply sim_diagonal.
Qed.

Lemma item_diagonal M mx a :
  (a < length (columns M))%nat ->
  entry (cosine_similarity
           (transpose (length (columns M)) (matrix_normalized mx (values M)))) a a =
  if zero_vector (item_vector M a) then 0 else 1.
Proof.
  intros Ha. rewrite item_entry by assumption. apply sim_diagonal.
Qed.

(** C4, as the code has it: the two similarity matrices of [fit] are
    symmetric; the entry of a pair is the cosine of the two quantity
    vectors, 0 when either has zero magnitude; so a diagonal entry is 1 for
    a customer or product whose quantity vector is not zero, and 0 for one
    whose quantity vector is zero. *)
Theorem fit_similarity_symmetric_diagonal (M : DataFrame)
  (user_sim item_sim : list (list R)) :
  fit_similarity M = Some (user_sim, item_sim) ->
  (forall a b, entry user_sim a b = entry user_sim b a) /\
  (forall a b, entry item_sim a b = entry item_sim b a) /\
  (forall a b, (a < length (values M))%nat -> (b < length (values M))%nat ->
     entry user_sim a b = sim (map IZR (user_vector M a)) (map IZR (user_vector M b))) /\
  (forall a b, (a < length (columns M))%nat -> (b < length (columns M))%nat ->
     entry item_sim a b = sim (map IZR (item_vector M a)) (map IZR (item_vector M b))) /\
  (forall a, (a < length (values M))%nat ->
     entry user_sim a a = if zero_vector (user_vector M a) then 0 else 1) /\
  (forall a, (a < length (columns M))%nat ->
     entry item_sim a a = if zero_vector (item_vector M a) then 0 else 1).
Proof.
  intros H. apply fit_similarity_Some in H. destruct H as [mx [-> ->]].
  repeat split.
  - intros a b. apply cosine_similarity_symmetric.
  - intros a b. apply cosine_similarity_symmetric.
  - intros a b. apply user_entry.
  - intros a b. apply item_entry.
  - intros a. apply user_diagonal.
  - intros a. apply item_diagonal.
Qed.

Lemma idle_customer_matrix_eq :
  idle_customer_matrix =
  {| index := [7%Z; 8%Z]; columns := ["A"]; values := [[0%Z]; [2%Z]] |}.
Proof. reflexivity. Qed.

Lemma idle_fit_similarity :
  fit_similarity idle_customer_matrix =
  Some (idle_user_similarity, idle_item_similarity).
Proof. reflexivity. Qed.

Lemma fit_similarity_symmetric_diagonal_witness :
  entry idle_user_similarity 0 1 = entry idle_user_similarity 1 0 /\
  entry idle_user_similarity 1 1 = 1 /\
  entry idle_item_similarity 0 0 = 1.
Proof.
  destruct (fit_similarity_symmetric_diagonal idle_customer_matrix
              idle_user_similarity idle_item_similarity idle_fit_similarity)
    as (Hsym & _ & _ & _ & Hu & Hi).
  split; [apply Hsym|]. split.
  - apply (Hu 1%nat). simpl. lia.
  - apply (Hi 0%nat). simpl. lia.
Defined.

(** C4 as stated: the diagonal entry of customer 7, whose quantity vector
    is zero, is 0 and not 1. *)
Lemma fit_similarity_zero_diagonal :
  fit_similarity idle_customer_matrix =
    Some (idle_user_similarity, idle_item_similarity) /\
  entry idle_user_similarity 0 0 = 0 /\
  entry idle_user_similarity 0 0 <> 1.
Proof.
  split; [reflexivity|].
  assert (H0 : entry idle_user_similarity 0 0 = 0).
  { unfold idle_user_similarity.
    rewrite (user_diagonal idle_customer_matrix 2 0) by (simpl; lia).
    reflexivity. }
  split; [exact H0|]. rewrite H0. lra.
Qed.

(* ----------------------------------------------------------------- *)
(** *** The similarity matrices row by row *)

Lemma cosine_similarity_rows X :
  cosine_similarity X = map (fun a => map (fun b => sim a b) X) X.
Proof.
  unfold cosine_similarity, normalize. rewrite map_map.
  apply map_ext. intros a. rewrite map_map.
  apply map_ext. intros b. apply dot_normalize_row.
Qed.

Lemma user_similarity_rows mx (rows : list (list Z)) :
  cosine_similarity (matrix_normalized mx rows) =
  map (fun a => map (fun b => sim (map IZR a) (map IZR b)) rows) rows.
Proof.
  rewrite cosine_similarity_rows. unfold matrix_normalized.
  rewrite map_map. apply map_ext. intros a.
  rewrite map_map. apply map_ext. intros b.
  rewrite <- (map_map IZR (fun v => v / (IZR mx + 1e-8)) a).
  rewrite <- (map_map IZR (fun v => v / (IZR mx + 1e-8)) b).
  apply sim_scale, max_plus_epsilon_nonzero.
Qed.

Lemma item_similarity_rows mx (rows : list (list Z)) width :
  cosine_similarity (transpose width (matrix_normalized mx rows)) =
  map (fun i => map (fun j =>
         sim (map IZR (map (fun row => nth i row 0%Z) rows))
             (map IZR (map (fun row => nth j row 0%Z) rows)))
         (seq 0 width)) (seq 0 width).
Proof.
  rewrite cosine_similarity_rows. unfold transpose at 2.
  rewrite map_map. apply map_ext_in. intros i Hi. apply in_seq in Hi.
  unfold transpose. rewrite map_map. apply map_ext_in. intros j Hj.
  apply in_seq in Hj.
  pose proof (matrix_normalized_column mx rows width i) as Ei.
  pose proof (matrix_normalized_column mx rows width j) as Ej.
  unfold transpose in Ei, Ej.
  rewrite (nth_map_in _ _ _ 0%nat i) in Ei by (rewrite length_seq; lia).
  rewrite (nth_map_in _ _ _ 0%nat j) in Ej by (rewrite length_seq; lia).
  rewrite seq_nth in Ei, Ej by lia. simpl in Ei, Ej.
  rewrite Ei, Ej by lia.
  apply sim_scale, max_plus_epsilon_nonzero.
Qed.

(** The similarity of two vectors whose magnitudes are known. *)
Lemma sim_value a b na nb :
  0 < na -> 0 < nb -> na * na = dot a a -> nb * nb = dot b b ->
  sim a b = dot a b / (na * nb).
Proof.
  intros Ha Hb Hna Hnb.
  assert (Ea : norm a = na).
  { unfold norm. apply sqrt_lem_1; [apply dot_self_nonneg | lra | exact Hna]. }
  assert (Eb : norm b = nb).
  { unfold norm. apply sqrt_lem_1; [apply dot_self_nonneg | lra | exact Hnb]. }
  unfold sim. rewrite Ea, Eb.
  destruct (Req_dec_T na 0); [lra|]. destruct (Req_dec_T nb 0); [lra|].
  reflexivity.
Qed.

End RecommenderFit.

(* ================================================================= *)
(** ** Properties of the recommendation policy *)

Module RecommenderProperties.
Import Py.
Import Preprocessing (DataFrame, index, columns, values).
Import Recommender.

(* ----------------------------------------------------------------- *)
(** *** Example engines *)

(** Customer 1 bought four units of A; customer 2 bought three units of A
    and four of B. *)
Definition paired_df : list Preprocessing.Transaction :=
  [ {| Preprocessing.order_id := 1; Preprocessing.product := "A";
       Preprocessing.quantity := 4; Preprocessing.customer_id := 1 |};
    {| Preprocessing.order_id := 2; Preprocessing.product := "A";
       Preprocessing.quantity := 3; Preprocessing.customer_id := 2 |};
    {| Preprocessing.order_id := 2; Preprocessing.product := "B";
       Preprocessing.quantity := 4; Preprocessing.customer_id := 2 |} ].

Definition paired_matrix : DataFrame :=
  Preprocessing.prepare_user_item_matrix paired_df.

(** [RecommenderEngine()] before any [fit]. *)
Definition new_engine : RecommenderEngine :=
  {| n_components := 10; n_recommendations := 10;
     user_item_matrix := None; model := None;
     user_similarity := None; item_similarity := None |}.

(** The engine fitted on [paired_matrix], the factorization having
    failed: cos((4,0),(3,4)) = 12/(4*5) for the customers and
    cos((4,3),(0,4)) = 12/(5*4) for the products. *)
Definition paired_engine : RecommenderEngine :=
  {| n_components := 10; n_recommendations := 10;
     user_item_matrix := Some paired_matrix;
     model := None;
     user_similarity := Some [[1; 3 # 5]; [3 # 5; 1]]%Q;
     item_similarity := Some [[1; 3 # 5]; [3 # 5; 1]]%Q |}.

(** The engine fitted on [paired_matrix] with a one-component
    factorization. *)
Definition factored_engine : RecommenderEngine :=
  {| n_components := 10; n_recommendations := 10;
     user_item_matrix := Some paired_matrix;
     model := Some {| transform := fun _ => Some [1%Q];
                      components_ := [[1 # 2; 1 # 2]]%Q |};
     user_similarity := Some [[1; 3 # 5]; [3 # 5; 1]]%Q;
     item_similarity := Some [[1; 3 # 5]; [3 # 5; 1]]%Q |}.

(* ----------------------------------------------------------------- *)
(** *** Sums *)

Lemma zadd_length acc v : length (zadd acc v) = length acc.
Proof.
  revert v. induction acc as [|a acc IH]; intros [|x v]; simpl; auto.
Qed.

Lemma zadd_nth acc v j :
  j < length acc ->
  nth j (zadd acc v) 0%Z =
  if j <? length v then add_int64 (nth j acc 0%Z) (nth j v 0%Z) else nth j acc 0%Z.
Proof.
  revert v j. induction acc as [|a acc IH]; intros v j H; simpl in H; [lia|].
  destruct v as [|x v].
  - reflexivity.
  - destruct j as [|j]; [reflexivity|]. cbn [zadd nth length].
    rewrite IH by lia. reflexivity.
Qed.

Lemma column_sums_length width rows : length (column_sums width rows) = width.
Proof.
  unfold column_sums. induction rows as [|row rows IH]; simpl.
  - apply repeat_length.
  - rewrite zadd_length. exact IH.
Qed.

Lemma column_sums_cons width row rows :
  column_sums width (row :: rows) = zadd (column_sums width rows) row.
Proof. reflexivity. Qed.

Lemma column_sums_nth_rows width rows j :
  j < width ->
  nth j (column_sums width rows) 0%Z
  = wrap_int64 (sumZ (map (fun row => nth j row 0%Z) rows)).
Proof.
  intros Hj. induction rows as [|row rows IH].
  - simpl. rewrite nth_repeat. reflexivity.
  - rewrite column_sums_cons, zadd_nth by (rewrite column_sums_length; exact Hj).
    rewrite IH. cbn [map]. rewrite sumZ_cons.
    destruct (j <? length row) eqn:E.
    + unfold add_int64. rewrite wrap_int64_add. f_equal. lia.
    + apply Nat.ltb_ge in E. rewrite (nth_overflow row) by exact E. reflexivity.
Qed.

Lemma column_sums_wrap (M : DataFrame) j :
  j < length (columns M) ->
  nth j (column_sums (length (columns M)) (values M)) 0%Z
  = wrap_int64 (total_quantity M j).
Proof. apply column_sums_nth_rows. Qed.

(** A column total within [int64] is the sum the code takes. *)
Lemma column_sums_nth (M : DataFrame) j :
  j < length (columns M) -> in_int64 (total_quantity M j) ->
  nth j (column_sums (length (columns M)) (values M)) 0%Z = total_quantity M j.
Proof.
  intros Hj Hfit. rewrite column_sums_wrap by exact Hj.
  apply wrap_int64_id. exact Hfit.
Qed.

Lemma sumQ_ext {A} (f g : A -> Q) l :
  (forall x, In x l -> f x == g x) -> sumQ (map f l) == sumQ (map g l).
Proof.
  induction l as [|x t IH]; intros H; simpl.
  - reflexivity.
  - rewrite (H x) by (left; reflexivity).
    rewrite IH by (intros y Hy; apply H; right; exact Hy). reflexivity.
Qed.

Lemma vadd_nth acc v j :
  j < length acc -> (nth j (vadd acc v) 0 == nth j acc 0 + nth j v 0)%Q.
Proof.
  revert v j. induction acc as [|a acc IH]; intros v j H; simpl in H; [lia|].
  destruct v as [|x v]; simpl.
  - destruct j; ring.
  - destruct j as [|j]; [reflexivity|]. apply IH. lia.
Qed.

Lemma nth_scaled c row j : (nth j (map (Qmult c) row) 0 == c * nth j row 0)%Q.
Proof.
  destruct (Nat.lt_ge_cases j (length row)) as [H|H].
  - rewrite (nth_map_in _ _ _ 0%Q) by exact H. reflexivity.
  - rewrite !nth_overflow by (try rewrite length_map; exact H). ring.
Qed.

Lemma nth_repeat_zero width j : nth j (repeat 0%Q width) 0%Q = 0%Q.
Proof. apply nth_repeat. Qed.

(** [np.dot] entry by entry. *)
Lemma dot_vm_nth width v (X : list (list Q)) j :
  length v = length X -> j < width ->
  (nth j (dot_vm width v X) 0 ==
   sumQ (map (fun i => nth i v 0 * nth j (nth i X []) 0) (seq 0 (length X))))%Q.
Proof.
  revert X. induction v as [|c v IH]; intros X Hlen Hj.
  - destruct X; [|discriminate]. simpl. rewrite nth_repeat_zero. reflexivity.
  - destruct X as [|row X]; [discriminate|].
    simpl dot_vm. rewrite vadd_nth by (rewrite dot_vm_length; exact Hj).
    rewrite IH by (simpl in Hlen; lia || exact Hj).
    rewrite nth_scaled. simpl length. simpl seq. simpl map. simpl sumQ.
    rewrite <- seq_shift, map_map. simpl. ring.
Qed.

Lemma as_float_nth rows i j :
  nth j (nth i (as_float rows) []) 0%Q = inject_Z (nth j (nth i rows []) 0%Z).
Proof.
  unfold as_float. rewrite nth_map_rows.
  apply (nth_map_default inject_Z _ 0%Q 0%Z). reflexivity.
Qed.

Lemma weighted_items_nth M user_sim user_idx j :
  length (nth user_idx user_sim []) = length (values M) ->
  j < length (columns M) ->
  nth j (weighted_items M user_sim user_idx) 0%Q ==
  similarity_score (nth user_idx user_sim []) (values M) j.
Proof.
  intros Hlen Hj. unfold weighted_items, similarity_score.
  rewrite dot_vm_nth by (try (unfold as_float; rewrite length_map); assumption).
  unfold as_float at 2. rewrite length_map.
  apply sumQ_ext. intros i _. rewrite as_float_nth. reflexivity.
Qed.

Lemma blend_nth w mf j :
  length mf = length w -> j < length w ->
  nth j (blend w mf) 0%Q = ((6 # 10) * nth j w 0 + (4 # 10) * nth j mf 0)%Q.
Proof.
  intros Hlen Hj. unfold blend.
  rewrite (nth_map_in _ _ _ (0%Q, 0%Q)) by (rewrite length_combine; lia).
  rewrite combine_nth by lia. reflexivity.
Qed.

Lemma mf_scores_nth nmf uv width user_features j :
  transform nmf uv = Some user_features ->
  length user_features = length (components_ nmf) ->
  Forall (fun row => length row = width) (components_ nmf) ->
  j < width ->
  exists mf, mf_scores nmf uv width = Some mf /\
             nth j mf 0%Q == factor_score user_features (components_ nmf) j.
Proof.
  intros Ht Hlen Hrows Hj. unfold mf_scores. rewrite Ht.
  assert (E1 : (length user_features =? length (components_ nmf)) = true)
    by (apply Nat.eqb_eq; exact Hlen).
  assert (E2 : forallb (fun row => length row =? width) (components_ nmf) = true).
  { apply forallb_forall. intros row Hrow. apply Nat.eqb_eq.
    rewrite Forall_forall in Hrows. apply Hrows. exact Hrow. }
  rewrite E1, E2. simpl. eexists. split; [reflexivity|].
  unfold factor_score. apply dot_vm_nth; assumption.
Qed.

(* ----------------------------------------------------------------- *)
(** *** Sorted prefixes *)

Lemma StronglySorted_firstn {A} (R : A -> A -> Prop) l n :
  StronglySorted R l -> StronglySorted R (firstn n l).
Proof.
  intros H. revert n. induction H as [|x t Hs IH Hall]; intros [|n]; simpl;
    try constructor.
  - apply IH.
  - rewrite Forall_forall in *. intros y Hy. apply Hall.
    eapply In_firstn. exact Hy.
Qed.

Lemma StronglySorted_app_inv {A} (R : A -> A -> Prop) l1 l2 x y :
  StronglySorted R (l1 ++ l2) -> In x l1 -> In y l2 -> R x y.
Proof.
  induction l1 as [|a l1 IH]; simpl; intros Hs Hx Hy; [destruct Hx|].
  apply StronglySorted_inv in Hs. destruct Hs as [Hs Hall].
  destruct Hx as [<-|Hx].
  - rewrite Forall_forall in Hall. apply Hall. apply in_or_app. right. exact Hy.
  - apply IH; assumption.
Qed.

Lemma StronglySorted_map_inv {A B} (R : A -> A -> Prop) (f : B -> A) l :
  StronglySorted R (map f l) -> StronglySorted (fun x y => R (f x) (f y)) l.
Proof.
  induction l as [|x t IH]; simpl; intros H; constructor;
    apply StronglySorted_inv in H; destruct H as [Hs Hall].
  - apply IH. exact Hs.
  - rewrite Forall_forall in *. intros y Hy. apply Hall. apply in_map. exact Hy.
Qed.

Lemma StronglySorted_weaken {A} (R R' : A -> A -> Prop) l :
  (forall x y, In x l -> In y l -> R x y -> R' x y) ->
  StronglySorted R l -> StronglySorted R' l.
Proof.
  intros Himp H. induction H as [|x t Hs IH Hall]; constructor.
  - apply IH. intros a b Ha Hb. apply Himp; right; assumption.
  - rewrite Forall_forall in *. intros y Hy.
    apply Himp; [left; reflexivity | right; exact Hy | apply Hall; exact Hy].
Qed.

Lemma descending_total_preorder : total_preorder (fun a b => (b <=? a)%Z).
Proof.
  split.
  - intros x y. rewrite !Z.leb_le. lia.
  - intros x y z. rewrite !Z.leb_le. lia.
Qed.

Lemma index_of_not_In {A} (eqb : A -> A -> bool) x l :
  (forall a b, eqb a b = true -> a = b) ->
  ~ In x l -> index_of eqb x l = None.
Proof.
  intros Heq Hnot. destruct (index_of eqb x l) as [i|] eqn:E; [|reflexivity].
  exfalso. apply Hnot. apply (index_of_Some_nth _ _ _ _ Heq) in E.
  eapply nth_error_In. exact E.
Qed.

Lemma NoDup_firstn {A} (l : list A) n : NoDup l -> NoDup (firstn n l).
Proof.
  intros H. rewrite <- (firstn_skipn n l) in H.
  eapply NoDup_app_remove_r. exact H.
Qed.

Lemma column_labels_nonempty df :
  Preprocessing.column_labels df <> [] <-> df <> [].
Proof.
  split; intros H.
  - intros ->. apply H. reflexivity.
  - destruct df as [|t df]; [congruence|]. intros Hnil.
    assert (Hin : In (Preprocessing.product t) (Preprocessing.column_labels (t :: df))).
    { apply Preprocessing.column_labels_In. exists t. split; [left|]; reflexivity. }
    rewrite Hnil in Hin. destruct Hin.
Qed.

Lemma paired_matrix_eq :
  paired_matrix =
  {| index := [1%Z; 2%Z]; columns := ["A"; "B"];
     values := [[4%Z; 0%Z]; [3%Z; 4%Z]] |}.
Proof. vm_compute. reflexivity. Qed.

(* ----------------------------------------------------------------- *)
(** *** Cold start *)



(** At [n = 0], outside the requested numbers C1 is about: there are
    transactions, the customer is unknown, and the result is empty. *)
Lemma cold_start_zero_requested :
  paired_df <> [] /\
  user_item_matrix paired_engine
    = Some (Preprocessing.prepare_user_item_matrix paired_df) /\
  ~ In 5%Z (index paired_matrix) /\
  get_user_recommendations (sorter := stable_argsort) paired_engine 5 (Some 0)
    = Ok [].
Proof.
  split; [discriminate|]. split; [reflexivity|]. split; [|reflexivity].
  rewrite paired_matrix_eq. simpl. intros [H|[H|[]]]; discriminate.
Qed.

(* ----------------------------------------------------------------- *)
(** *** The known-customer path *)

Lemma loc_row_cell (M : DataFrame) customer p q user_idx :
  index_of Z.eqb customer (index M) = Some user_idx ->
  Preprocessing.loc M customer p = Some q ->
  exists j, nth_error (columns M) j = Some p /\
            q = nth j (nth user_idx (values M) []) 0%Z.
Proof.
  intros Hidx. unfold Preprocessing.loc. rewrite Hidx.
  destruct (index_of String.eqb p (columns M)) as [j|] eqn:Hj; [|discriminate].
  destruct (nth_error (values M) user_idx) as [row|] eqn:Hrow; [|discriminate].
  intros Hq. exists j. split.
  - apply (index_of_Some_nth _ _ _ _ Preprocessing.string_eqb_true). exact Hj.
  - rewrite (nth_error_nth _ _ [] Hrow). symmetry. apply nth_error_nth. exact Hq.
Qed.

(** C2: for a customer who is a row of the fitted matrix, no product
    returned, by either tier, has a positive quantity in that row. *)
Theorem no_repurchase {sorter : ArgSort}
  (e : RecommenderEngine) (M : DataFrame) (customer : Z) (n : option nat)
  (recs : list Recommendation) (r : Recommendation) (q : Z) :
  user_item_matrix e = Some M ->
  NoDup (columns M) ->
  In customer (index M) ->
  get_user_recommendations e customer n = Ok recs ->
  In r recs ->
  Preprocessing.loc M customer (product r) = Some q ->
  (q <= 0)%Z.
Proof.
  intros HM Hnd Hin Hrun Hr Hloc.
  destruct (index_of_In Z.eqb customer (index M) Z.eqb_refl Hin) as [user_idx Hidx].
  destruct (user_similarity e) as [user_sim|] eqn:HS.
  - destruct (known_customer_tiers e M customer user_idx user_sim n recs r
                HM HS Hidx Hrun Hr) as [idx [[Hlt [Hprod [Hq _]]] _]].
    destruct (loc_row_cell M customer (product r) q user_idx Hidx Hloc)
      as [j [Hj ->]].
    assert (E : idx = j).
    { apply (proj1 (NoDup_nth_error (columns M)) Hnd idx j Hlt).
      rewrite Hj, Hprod. apply nth_error_nth'. exact Hlt. }
    subst j. exact Hq.
  - unfold get_user_recommendations in Hrun. rewrite HM, Hidx, HS in Hrun.
    discriminate.
Qed.

Lemma no_repurchase_witness :
  get_user_recommendations (sorter := stable_argsort) paired_engine 1 (Some 2)
    = Ok [ {| product := "B"; score := 12 # 5; reasoning := collaborative |};
           {| product := "B"; score := 12 # 5; reasoning := content_based |} ] /\
  Preprocessing.loc paired_matrix 1 "B" = Some 0%Z /\
  (0 <= 0)%Z.
Proof.
  split; [reflexivity|]. split; [reflexivity|].
  apply (no_repurchase (sorter := stable_argsort) paired_engine paired_matrix 1
           (Some 2)
           [ {| product := "B"; score := 12 # 5; reasoning := collaborative |};
             {| product := "B"; score := 12 # 5; reasoning := content_based |} ]
           {| product := "B"; score := 12 # 5; reasoning := collaborative |} 0%Z).
  - reflexivity.
  - simpl. repeat constructor; simpl; intuition discriminate.
  - simpl. left. reflexivity.
  - reflexivity.
  - left. reflexivity.
  - reflexivity.
Defined.

(** C3: for a customer who is a row of the fitted matrix, the
    collaborative score of a product is the sum over all customers of the
    similarity to that customer times that customer's quantity of the
    product; with a factor model whose projection succeeds the final score
    is 0.6 times it plus 0.4 times the factor score; without a model, or
    when the projection fails, the final score is the similarity score
    alone; and every collaborative recommendation carries the final score of
    its product, which is strictly positive. *)
Theorem collaborative_scores {sorter : ArgSort}
  (e : RecommenderEngine) (M : DataFrame) (user_sim : list (list Q))
  (customer : Z) (user_idx : nat) :
  user_item_matrix e = Some M ->
  user_similarity e = Some user_sim ->
  index_of Z.eqb customer (index M) = Some user_idx ->
  length (nth user_idx user_sim []) = length (values M) ->
  let user_vector := nth user_idx (values M) [] in
  let user_sim_scores := nth user_idx user_sim [] in
  (forall j, j < length (columns M) ->
     nth j (weighted_items M user_sim user_idx) 0%Q ==
     similarity_score user_sim_scores (values M) j) /\
  (forall nmf user_features j,
     model e = Some nmf ->
     transform nmf user_vector = Some user_features ->
     length user_features = length (components_ nmf) ->
     Forall (fun row => length row = length (columns M)) (components_ nmf) ->
     j < length (columns M) ->
     nth j (unmasked_scores e M user_sim user_idx) 0%Q ==
     (6 # 10) * similarity_score user_sim_scores (values M) j
     + (4 # 10) * factor_score user_features (components_ nmf) j) /\
  (forall nmf,
     model e = Some nmf ->
     mf_scores nmf user_vector (length (columns M)) = None ->
     unmasked_scores e M user_sim user_idx = weighted_items M user_sim user_idx) /\
  (forall nmf,
     model e = Some nmf ->
     transform nmf user_vector = None ->
     unmasked_scores e M user_sim user_idx = weighted_items M user_sim user_idx) /\
  (model e = None ->
     unmasked_scores e M user_sim user_idx = weighted_items M user_sim user_idx) /\
  (forall n recs r,
     get_user_recommendations e customer n = Ok recs ->
     In r recs -> reasoning r = collaborative ->
     exists j, j < length (columns M) /\
               product r = nth j (columns M) "" /\
               score r = nth j (unmasked_scores e M user_sim user_idx) 0%Q /\
               (0 < score r)%Q).
Proof.
  intros HM HS Hidx Hlen user_vector user_sim_scores.
  assert (Hw : length (weighted_items M user_sim user_idx) = length (columns M)).
  { unfold weighted_items. apply dot_vm_length. }
  split; [|split; [|split; [|split; [|split]]]].
  - intros j Hj. apply weighted_items_nth; assumption.
  - intros nmf user_features j Hm Ht Hk Hrows Hj.
    destruct (mf_scores_nth nmf user_vector (length (columns M)) user_features j
                Ht Hk Hrows Hj) as [mf [Hmf Hnth]].
    unfold unmasked_scores, final_scores. rewrite Hm.
    fold user_vector. rewrite Hw, Hmf.
    rewrite blend_nth
      by (try rewrite (mf_scores_length _ _ _ _ Hmf); rewrite Hw; auto).
    rewrite Hnth, weighted_items_nth by assumption. reflexivity.
  - intros nmf Hm Hnone. unfold unmasked_scores, final_scores.
    rewrite Hm. fold user_vector. rewrite Hw, Hnone. reflexivity.
  - intros nmf Hm Hnone. unfold unmasked_scores, final_scores.
    rewrite Hm. fold user_vector. unfold mf_scores. rewrite Hnone. reflexivity.
  - intros Hm. unfold unmasked_scores, final_scores. rewrite Hm. reflexivity.
  - intros n recs r Hrun Hr Htag.
    destruct (known_customer_tiers e M customer user_idx user_sim n recs r
                HM HS Hidx Hrun Hr) as [idx [[Hlt [Hprod [_ Hpos]]] Htier]].
    exists idx. destruct Htier as [[_ Hscore]|Hcontent].
    + auto.
    + rewrite Htag in Hcontent. discriminate.
Qed.

Lemma collaborative_scores_witness :
  nth 1 (weighted_items paired_matrix [[1; 3 # 5]; [3 # 5; 1]]%Q 0) 0%Q == 12 # 5 /\
  nth 1 (unmasked_scores factored_engine paired_matrix
           [[1; 3 # 5]; [3 # 5; 1]]%Q 0) 0%Q == 41 # 25 /\
  get_user_recommendations (sorter := stable_argsort) factored_engine 1 (Some 1)
    = Ok [ {| product := "B"; score := 1640 # 1000; reasoning := collaborative |} ].
Proof.
  destruct (collaborative_scores (sorter := stable_argsort) factored_engine
              paired_matrix [[1; 3 # 5]; [3 # 5; 1]]%Q 1 0
              eq_refl eq_refl eq_refl eq_refl)
    as (Hsim & Hblend & _).
  split; [|split].
  - rewrite (Hsim 1) by (simpl; lia). reflexivity.
  - rewrite (Hblend {| transform := fun _ => Some [1%Q];
                       components_ := [[1 # 2; 1 # 2]]%Q |} [1%Q] 1
               eq_refl eq_refl eq_refl)
      by (simpl; try lia; repeat constructor).
    reflexivity.
  - reflexivity.
Defined.

End RecommenderProperties.

(* ================================================================= *)
(** ** Fitted engines with tied or repeated scores *)

Module RecommenderFitted.
Import Py.
Import Preprocessing (DataFrame, index, columns, values).
Import Recommender Cosine RecommenderFit RecommenderProperties.
Import Reals Lra.

(** Two customers who bought the same single product. *)
Definition twin_df : list Preprocessing.Transaction :=
  [ {| Preprocessing.order_id := 1; Preprocessing.product := "A";
       Preprocessing.quantity := 1; Preprocessing.customer_id := 1 |};
    {| Preprocessing.order_id := 2; Preprocessing.product := "A";
       Preprocessing.quantity := 1; Preprocessing.customer_id := 2 |} ].

Definition twin_matrix : DataFrame :=
  Preprocessing.prepare_user_item_matrix twin_df.

Definition twin_engine : RecommenderEngine :=
  {| n_components := 10; n_recommendations := 10;
     user_item_matrix := Some twin_matrix;
     model := None;
     user_similarity := Some [[1; 1]; [1; 1]]%Q;
     item_similarity := Some [[1]]%Q |}.

(** One customer who bought one unit of each of two products. *)
Definition bundle_df : list Preprocessing.Transaction :=
  [ {| Preprocessing.order_id := 1; Preprocessing.product := "A";
       Preprocessing.quantity := 1; Preprocessing.customer_id := 1 |};
    {| Preprocessing.order_id := 1; Preprocessing.product := "B";
       Preprocessing.quantity := 1; Preprocessing.customer_id := 1 |} ].

Definition bundle_matrix : DataFrame :=
  Preprocessing.prepare_user_item_matrix bundle_df.

Definition bundle_engine : RecommenderEngine :=
  {| n_components := 10; n_recommendations := 10;
     user_item_matrix := Some bundle_matrix;
     model := None;
     user_similarity := Some [[1]]%Q;
     item_similarity := Some [[1; 1]; [1; 1]]%Q |}.

Local Open Scope R_scope.

Ltac sim_of_norms na nb :=
  rewrite (sim_value _ _ na nb) by (unfold dot; simpl; lra);
  unfold dot, Q2R; simpl; lra.

Lemma paired_user_similarity mx :
  cosine_similarity (matrix_normalized mx (values paired_matrix)) =
  map (map Q2R) [[1; 3 # 5]; [3 # 5; 1]]%Q.
Proof.
  rewrite user_similarity_rows.
  change (values paired_matrix) with [[4; 0]; [3; 4]]%Z.
  cbn [map]. repeat f_equal.
  - sim_of_norms 4 4.
  - sim_of_norms 4 5.
  - sim_of_norms 5 4.
  - sim_of_norms 5 5.
Qed.

Lemma paired_item_similarity mx :
  cosine_similarity (transpose 2 (matrix_normalized mx (values paired_matrix))) =
  map (map Q2R) [[1; 3 # 5]; [3 # 5; 1]]%Q.
Proof.
  rewrite item_similarity_rows.
  change (values paired_matrix) with [[4; 0]; [3; 4]]%Z.
  cbn [map seq nth]. repeat f_equal.
  - sim_of_norms 5 5.
  - sim_of_norms 5 4.
  - sim_of_norms 4 5.
  - sim_of_norms 4 4.
Qed.

Lemma paired_fit : fit new_engine paired_matrix paired_engine.
Proof.
  unfold fit. repeat (split; [reflexivity|]).
  change (fit_similarity paired_matrix) with
    (Some (cosine_similarity (matrix_normalized 4 (values paired_matrix)),
           cosine_similarity (transpose 2 (matrix_normalized 4 (values paired_matrix))))).
  cbv iota beta.
  split; [|split].
  - eexists. split; [reflexivity|]. symmetry. apply paired_user_similarity.
  - eexists. split; [reflexivity|]. symmetry. apply paired_item_similarity.
  - left. reflexivity.
Qed.

Ltac sim_of_self :=
  match goal with
  | |- sim ?a ?a = _ =>
      rewrite (sim_self a);
      [ unfold Q2R; simpl; lra
      | let H := fresh in
        intros H; apply norm_zero_iff in H; inversion H; subst; lra ]
  end.

Lemma twin_user_similarity mx :
  cosine_similarity (matrix_normalized mx (values twin_matrix)) =
  map (map Q2R) [[1; 1]; [1; 1]]%Q.
Proof.
  rewrite user_similarity_rows.
  change (values twin_matrix) with [[1]; [1]]%Z.
  cbn [map]. repeat f_equal; sim_of_self.
Qed.

Lemma twin_item_similarity mx :
  cosine_similarity (transpose 1 (matrix_normalized mx (values twin_matrix))) =
  map (map Q2R) [[1]]%Q.
Proof.
  rewrite item_similarity_rows.
  change (values twin_matrix) with [[1]; [1]]%Z.
  cbn [map seq nth]. repeat f_equal; sim_of_self.
Qed.

Lemma twin_fit : fit new_engine twin_matrix twin_engine.
Proof.
  unfold fit. repeat (split; [reflexivity|]).
  change (fit_similarity twin_matrix) with
    (Some (cosine_similarity (matrix_normalized 1 (values twin_matrix)),
           cosine_similarity (transpose 1 (matrix_normalized 1 (values twin_matrix))))).
  cbv iota beta.
  split; [|split].
  - eexists. split; [reflexivity|]. symmetry. apply twin_user_similarity.
  - eexists. split; [reflexivity|]. symmetry. apply twin_item_similarity.
  - left. reflexivity.
Qed.

Lemma bundle_user_similarity mx :
  cosine_similarity (matrix_normalized mx (values bundle_matrix)) =
  map (map Q2R) [[1]]%Q.
Proof.
  rewrite user_similarity_rows.
  change (values bundle_matrix) with [[1; 1]]%Z.
  cbn [map]. repeat f_equal; sim_of_self.
Qed.

Lemma bundle_item_similarity mx :
  cosine_similarity (transpose 2 (matrix_normalized mx (values bundle_matrix))) =
  map (map Q2R) [[1; 1]; [1; 1]]%Q.
Proof.
  rewrite item_similarity_rows.
  change (values bundle_matrix) with [[1; 1]]%Z.
  cbn [map seq nth]. repeat f_equal; sim_of_self.
Qed.

Lemma bundle_fit : fit new_engine bundle_matrix bundle_engine.
Proof.
  unfold fit. repeat (split; [reflexivity|]).
  change (fit_similarity bundle_matrix) with
    (Some (cosine_similarity (matrix_normalized 1 (values bundle_matrix)),
           cosine_similarity (transpose 2 (matrix_normalized 1 (values bundle_matrix))))).
  cbv iota beta.
  split; [|split].
  - eexists. split; [reflexivity|]. symmetry. apply bundle_user_similarity.
  - eexists. split; [reflexivity|]. symmetry. apply bundle_item_similarity.
  - left. reflexivity.
Qed.

Local Close Scope R_scope.

(* ----------------------------------------------------------------- *)
(** *** Orders and sorts of two elements *)

Lemma Qle_bool_total_preorder : total_preorder Qle_bool.
Proof.
  split.
  - intros x y. rewrite !Qle_bool_iff.
    destruct (Qlt_le_dec x y) as [H|H]; [left; apply Qlt_le_weak; exact H | right; exact H].
  - intros x y z. rewrite !Qle_bool_iff. apply Qle_trans.
Qed.

Lemma score_leb_total_preorder : total_preorder score_leb.
Proof.
  split.
  - intros [|x] [|y]; simpl; auto. apply Qle_bool_total_preorder.
  - intros [|x] [|y] [|z]; simpl; auto; try discriminate.
    apply Qle_bool_total_preorder.
Qed.

Lemma argsort_pair_cases {sorter : ArgSort} {A} (leb : A -> A -> bool) (x y : A) :
  argsort leb [x; y] = [0; 1] \/ argsort leb [x; y] = [1; 0].
Proof.
  pose proof (argsort_perm A leb [x; y]) as H. simpl in H.
  apply Permutation_sym, Permutation_length_2_inv in H. exact H.
Qed.

Lemma argsort_pair_strict {sorter : ArgSort} {A} (leb : A -> A -> bool) (x y : A) :
  total_preorder leb -> leb y x = false -> argsort leb [x; y] = [0; 1].
Proof.
  intros Hto Hyx. destruct (argsort_pair_cases leb x y) as [E|E]; [exact E|].
  pose proof (argsort_sorted A leb [x; y] x Hto) as Hs. rewrite E in Hs.
  simpl in Hs. apply StronglySorted_inv in Hs. destruct Hs as [_ Hall].
  inversion Hall; subst. congruence.
Qed.

Lemma Qlt_bool_true x y : (x < y)%Q -> Qlt_bool x y = true.
Proof.
  intros H. unfold Qlt_bool. apply negb_true_iff.
  destruct (Qle_bool y x) eqn:E; [|reflexivity].
  apply Qle_bool_iff in E. exfalso. apply (Qlt_irrefl x).
  eapply Qlt_le_trans; eassumption.
Qed.

(* ----------------------------------------------------------------- *)
(** *** Non-negative factor scores *)

Lemma vadd_nonneg acc v :
  Forall (fun x => 0 <= x)%Q acc -> Forall (fun x => 0 <= x)%Q v ->
  Forall (fun x => 0 <= x)%Q (vadd acc v).
Proof.
  intros Hacc. revert v. induction Hacc as [|a acc Ha Hacc IH]; intros v Hv; simpl.
  - constructor.
  - destruct v as [|x v]; [constructor; assumption|].
    inversion Hv; subst. constructor.
    + change (0 + 0 <= a + x)%Q. apply Qplus_le_compat; assumption.
    + apply IH. assumption.
Qed.

Lemma dot_vm_nonneg width v X :
  Forall (fun x => 0 <= x)%Q v -> Forall (Forall (fun x => 0 <= x)%Q) X ->
  Forall (fun x => 0 <= x)%Q (dot_vm width v X).
Proof.
  intros Hv. revert X. induction Hv as [|c v Hc Hv IH]; intros X HX; simpl.
  - apply Forall_forall. intros x Hx. apply repeat_spec in Hx. subst. apply Qle_refl.
  - destruct HX as [|row X Hrow HX].
    + apply Forall_forall. intros x Hx. apply repeat_spec in Hx. subst. apply Qle_refl.
    + apply vadd_nonneg; [apply IH; exact HX|].
      apply Forall_map. eapply Forall_impl; [|exact Hrow].
      intros x Hx. simpl in Hx. apply Qmult_le_0_compat; assumption.
Qed.

Lemma nth_nonneg (l : list Q) j :
  Forall (fun x => 0 <= x)%Q l -> (0 <= nth j l 0)%Q.
Proof.
  intros H. destruct (Nat.lt_ge_cases j (length l)) as [Hj|Hj].
  - rewrite Forall_forall in H. apply H. apply nth_In. exact Hj.
  - rewrite nth_overflow by exact Hj. apply Qle_refl.
Qed.

(** A positive similarity score stays positive in the final scores,
    whatever [fit] left as model. *)
Lemma final_scores_pos m uv w j :
  (m = None \/ exists nmf, m = Some nmf /\ nmf_nonneg nmf) ->
  j < length w -> (0 < nth j w 0)%Q ->
  (0 < nth j (final_scores m uv w) 0)%Q.
Proof.
  intros Hm Hj Hpos. unfold final_scores.
  destruct Hm as [->|[nmf [-> [Hcomp Htrans]]]]; [exact Hpos|].
  destruct (mf_scores nmf uv (length w)) as [mf|] eqn:E; [|exact Hpos].
  rewrite blend_nth by (try (eapply mf_scores_length; exact E); exact Hj).
  assert (Hmf : (0 <= nth j mf 0)%Q).
  { apply nth_nonneg. unfold mf_scores in E.
    destruct (transform nmf uv) as [uf|] eqn:Et; [|discriminate].
    destruct (_ && _); [|discriminate]. inversion E; subst.
    apply dot_vm_nonneg; [eapply Htrans; exact Et | exact Hcomp]. }
  apply Qlt_le_trans with (y := ((6 # 10) * nth j w 0 + 0)%Q).
  - rewrite Qplus_0_r. apply Qmult_lt_0_compat; [reflexivity | exact Hpos].
  - apply Qplus_le_r. apply Qmult_le_0_compat; [discriminate | exact Hmf].
Qed.

Lemma Q2R_rows_eq (S S0 : list (list Q)) :
  map (map Q2R) S = map (map Q2R) S0 -> Forall2 (Forall2 Qeq) S S0.
Proof.
  revert S0. induction S as [|r S IH]; intros [|r0 S0] H; simpl in H;
    try discriminate; constructor.
  - injection H as Hr _. revert r0 Hr.
    induction r as [|x r IHr]; intros [|x0 r0] Hr; simpl in Hr;
      try discriminate; constructor.
    + injection Hr as Hx _. apply Qreals.eqR_Qeq. exact Hx.
    + apply IHr. injection Hr as _ Hr. exact Hr.
  - apply IH. injection H as _ H. exact H.
Qed.

(* ----------------------------------------------------------------- *)
(** *** Neighbours that are the queried entity *)

(** C8 at the failing inputs: the two engines are outcomes of [fit]; with
    the stable sort the nearest neighbour returned for customer 1, and for
    product A, is the queried entity itself; and whatever order the sort
    gives to ties, one of the two tied customers, and one of the two tied
    products, is returned as its own neighbour. *)
Theorem similar_queries_return_self :
  fit new_engine twin_matrix twin_engine /\
  fit new_engine bundle_matrix bundle_engine /\
  get_similar_users (sorter := stable_argsort) twin_engine 1 1
    = Ok [ {| customer_id := 1; similarity := 1 |} ] /\
  get_similar_products (sorter := stable_argsort) bundle_engine "A" 1
    = Ok [ {| similar_product := "A"; product_similarity := 1 |} ] /\
  (forall sorter : ArgSort,
     get_similar_users twin_engine 1 1
       = Ok [ {| customer_id := 1; similarity := 1 |} ] \/
     get_similar_users twin_engine 2 1
       = Ok [ {| customer_id := 2; similarity := 1 |} ]) /\
  (forall sorter : ArgSort,
     get_similar_products bundle_engine "A" 1
       = Ok [ {| similar_product := "A"; product_similarity := 1 |} ] \/
     get_similar_products bundle_engine "B" 1
       = Ok [ {| similar_product := "B"; product_similarity := 1 |} ]).
Proof.
  split; [exact twin_fit|]. split; [exact bundle_fit|].
  split; [reflexivity|]. split; [reflexivity|]. split.
  - intros sorter. unfold get_similar_users. simpl.
    destruct (argsort_pair_cases Qle_bool 1%Q 1%Q) as [E|E]; rewrite E; simpl;
      [left | right]; reflexivity.
  - intros sorter. unfold get_similar_products. simpl.
    destruct (argsort_pair_cases Qle_bool 1%Q 1%Q) as [E|E]; rewrite E; simpl;
      [left | right]; reflexivity.
Qed.

(* ----------------------------------------------------------------- *)
(** *** The same product from both tiers *)

Lemma rows_2x2 (S : list (list Q)) (p q r t : Q) :
  Forall2 (Forall2 Qeq) S [[p; q]; [r; t]] ->
  exists a b c d, S = [[a; b]; [c; d]] /\ a == p /\ b == q /\ c == r /\ d == t.
Proof.
  intros H.
  inversion H as [|r0 r0' S1 S1' Hr0 H1]; subst; clear H.
  inversion H1 as [|r1 r1' S2 S2' Hr1 H2]; subst; clear H1.
  inversion H2; subst; clear H2.
  inversion Hr0 as [|a a' l0 l0' Ha Hl0]; subst; clear Hr0.
  inversion Hl0 as [|b b' l1 l1' Hb Hl1]; subst; clear Hl0.
  inversion Hl1; subst; clear Hl1.
  inversion Hr1 as [|c c' l2 l2' Hc Hl2]; subst; clear Hr1.
  inversion Hl2 as [|d d' l3 l3' Hd Hl3]; subst; clear Hl2.
  inversion Hl3; subst; clear Hl3.
  exists a, b, c, d. auto.
Qed.

Lemma ranked_pair {sorter : ArgSort} (f : Q) :
  argsort score_leb [NegInf; Fin f] = [0; 1].
Proof.
  apply argsort_pair_strict; [exact score_leb_total_preorder | reflexivity].
Qed.

Lemma collect_single tag ids (f : Q) :
  (0 < f)%Q ->
  collect tag ids [NegInf; Fin f] [1; 0] =
  [ {| product := nth 1 ids ""; score := f; reasoning := tag |} ].
Proof.
  intros Hf. unfold collect. simpl. rewrite (Qlt_bool_true 0 f Hf). reflexivity.
Qed.

(** The masked scores of customer 1 on [paired_matrix]: A is masked and B
    has a positive score. *)
Lemma paired_masked_scores e' a b c d :
  model e' = None \/ (exists nmf, model e' = Some nmf /\ nmf_nonneg nmf) ->
  a == 1 -> b == 3 # 5 ->
  exists f, masked_scores e' paired_matrix [[a; b]; [c; d]] 0 = [NegInf; Fin f] /\
            (0 < f)%Q.
Proof.
  intros Hmodel Ha Hb. unfold masked_scores, unmasked_scores.
  change (nth 0 (values paired_matrix) []) with [4%Z; 0%Z].
  set (w := weighted_items paired_matrix [[a; b]; [c; d]] 0).
  assert (Hw : length w = 2) by apply dot_vm_length.
  assert (Hpos : (0 < nth 1 w 0)%Q).
  { unfold w. rewrite weighted_items_nth by (simpl; lia).
    unfold similarity_score. simpl. rewrite Ha, Hb. reflexivity. }
  pose proof (final_scores_pos (model e') [4%Z; 0%Z] w 1 Hmodel
                ltac:(rewrite Hw; lia) Hpos) as Hfinal.
  pose proof (final_scores_length (model e') [4%Z; 0%Z] w) as Hlen.
  rewrite Hw in Hlen.
  destruct (final_scores (model e') [4%Z; 0%Z] w) as [|f0 [|f1 [|f2 l]]];
    try discriminate.
  exists f1. split; [reflexivity | exact Hfinal].
Qed.

(** The content-based tier for customer 1 on [paired_matrix]. *)
Lemma paired_content_based {sorter : ArgSort} e' a b c d :
  user_item_matrix e' = Some paired_matrix ->
  item_similarity e' = Some [[a; b]; [c; d]] ->
  b == 3 # 5 ->
  exists g, _get_content_based_recommendations e' 1 1 =
            Ok [ {| product := "B"; score := g; reasoning := content_based |} ].
Proof.
  intros HM HIS Hb. unfold _get_content_based_recommendations.
  rewrite HM.
  change (index_of Z.eqb 1%Z (index paired_matrix)) with (Some 0).
  cbv beta iota zeta.
  change (nth 0 (values paired_matrix) []) with [4%Z; 0%Z].
  change (purchased_indices [4%Z; 0%Z]) with [0].
  change (length [0] =? 0) with false. cbv iota.
  rewrite HIS.
  change (length (columns paired_matrix)) with 2.
  unfold accumulate_item_scores. cbn [fold_left repeat nth map vadd].
  unfold mask_at. cbn [enumerate length seq combine map fst snd existsb Nat.eqb orb].
  rewrite ranked_pair. cbn [rev app firstn].
  unfold collect. cbn [flat_map nth app].
  change (columns paired_matrix) with ["A"; "B"]. cbn [nth].
  rewrite Qlt_bool_true.
  - eexists. reflexivity.
  - rewrite Hb. reflexivity.
Qed.

(** C10: on [paired_matrix], for every outcome of [fit] and every sort,
    asking two recommendations for customer 1 gives product B twice: once
    from the collaborative tier, which yields a single product, and once
    from the content-based fill. *)
Theorem duplicate_across_tiers {sorter : ArgSort} (e e' : RecommenderEngine) :
  fit e paired_matrix e' ->
  exists s1 s2,
    get_user_recommendations e' 1 (Some 2) =
    Ok [ {| product := "B"; score := s1; reasoning := collaborative |};
         {| product := "B"; score := s2; reasoning := content_based |} ].
Proof.
  intros (_ & _ & HM & Hfit).
  change (fit_similarity paired_matrix) with
    (Some (Cosine.cosine_similarity
             (Cosine.matrix_normalized 4 (values paired_matrix)),
           Cosine.cosine_similarity
             (Cosine.transpose 2 (Cosine.matrix_normalized 4 (values paired_matrix)))))
    in Hfit.
  cbv iota beta in Hfit.
  destruct Hfit as ((US & HUS & EU) & (IS & HIS & EI) & Hmodel).
  rewrite paired_user_similarity in EU. apply Q2R_rows_eq, rows_2x2 in EU.
  rewrite paired_item_similarity in EI. apply Q2R_rows_eq, rows_2x2 in EI.
  destruct EU as (a & b & c & d & -> & Ha & Hb & _).
  destruct EI as (a' & b' & c' & d' & -> & _ & Hb' & _).
  destruct (paired_masked_scores e' a b c d Hmodel Ha Hb) as (f & Hmask & Hf).
  destruct (paired_content_based e' a' b' c' d' HM HIS Hb') as (g & Hcontent).
  unfold get_user_recommendations. rewrite HM.
  change (requested e' (Some 2)) with 2.
  change (index_of Z.eqb 1%Z (index paired_matrix)) with (Some 0).
  rewrite HUS. cbv iota beta zeta. rewrite Hmask, ranked_pair.
  cbn [rev app firstn]. rewrite (collect_single _ _ f Hf).
  cbn [length Nat.ltb Nat.leb Nat.sub]. rewrite Hcontent.
  exists f, g. reflexivity.
Qed.

Lemma duplicate_across_tiers_witness :
  exists s1 s2,
    get_user_recommendations (sorter := stable_argsort) paired_engine 1 (Some 2) =
    Ok [ {| product := "B"; score := s1; reasoning := collaborative |};
         {| product := "B"; score := s2; reasoning := content_based |} ].
Proof.
  apply (duplicate_across_tiers (sorter := stable_argsort)
           new_engine paired_engine paired_fit).
Defined.

End RecommenderFitted.

(* ================================================================= *)
(** ** [src/mba_engine.py]: itemsets, rules and the rule queries *)

Module MBA.
Import Py.
Import Preprocessing (DataFrame, index, columns, values).

(** A [frozenset] of products as the list of its members.  The miner
    lists them in column order; the order in which Python iterates a
    [frozenset] is its hash order, which the source does not determine, so
    the statements about itemsets are independent of the order of the
    list. *)
Definition itemset := list string.

(** One row of the rule table. *)
Record Rule := {
  antecedents : itemset;
  consequents : itemset;
  antecedent_support : Q;
  consequent_support : Q;
  support : Q;
  confidence : Q;
  lift : Q
}.

(** The attributes of [MBAEngine]. *)
Record MBAEngine := {
  min_support : Q;
  min_confidence : Q;
  frequent_itemsets : option (list (Q * itemset));
  rules : option (list Rule);
  basket_df : option DataFrame
}.

(* ----------------------------------------------------------------- *)
(** *** The miner and the rule generator *)

(** The cell of a basket row for a product: 1 when the product is in the
    order. *)
Definition in_basket (basket : DataFrame) (row : list Z) (p : string) : bool :=
  match index_of String.eqb p (columns basket) with
  | Some j => (nth j row 0%Z =? 1)%Z
  | None => false
  end.

Definition contains_all (basket : DataFrame) (items : itemset) (row : list Z) : bool :=
  forallb (in_basket basket row) items.

(** Modelled from the spec: the support of an itemset, "fraction of all
    orders containing a given itemset".  (A quotient by zero orders is 0.) *)
Definition support_of (basket : DataFrame) (items : itemset) : Q :=
  (inject_Z (Z.of_nat (length (filter (contains_all basket items) (values basket))))
   / inject_Z (Z.of_nat (length (values basket))))%Q.

Definition names (basket : DataFrame) (cols : list nat) : itemset :=
  map (fun j => nth j (columns basket) "") cols.

Definition frequent (basket : DataFrame) (min_sup : Q) (cols : list nat) : bool :=
  Qle_bool min_sup (support_of basket (names basket cols)).

(** The itemsets with one element less. *)
Fixpoint drop_one {A} (l : list A) : list (list A) :=
  match l with
  | [] => []
  | x :: t => t :: map (cons x) (drop_one t)
  end.

Definition mem_set (s : list nat) (sets : list (list nat)) : bool :=
  if in_dec (list_eq_dec Nat.eq_dec) s sets then true else false.

(** Modelled from the spec: "generate candidates by extending each
    frequent (k-1)-itemset with one more product such that every
    (k-1)-subset of the candidate is already frequent".  An itemset is
    extended by the columns after its last one, so that each candidate is
    produced once. *)
Definition extend (width : nat) (s : list nat) : list (list nat) :=
  map (fun j => s ++ [j]) (filter (fun j => last s 0 <? j) (seq 0 width)).

Definition candidates (width : nat) (level : list (list nat)) : list (list nat) :=
  filter (fun c => forallb (fun sub => mem_set sub level) (drop_one c))
         (flat_map (extend width) level).

(** Modelled from the spec: "count support for surviving candidates over
    all orders; keep those >= min_support", level after level, "terminate
    when no candidates survive a level".  An itemset of level k has k
    columns: [fuel] is the number of columns. *)
Fixpoint levels (fuel : nat) (basket : DataFrame) (min_sup : Q)
  (level : list (list nat)) : list (list nat) :=
  match fuel, level with
  | S fuel', _ :: _ =>
      level ++ levels fuel' basket min_sup
                 (filter (frequent basket min_sup)
                         (candidates (length (columns basket)) level))
  | _, _ => []
  end.

(** Modelled from the spec: [mlxtend.frequent_patterns.apriori(basket_df,
    min_support, use_colnames=True)], which [fit] calls and which is not
    part of the sources.  "Level 1: every single product with support >=
    min_support", then the further levels; the result pairs every frequent
    itemset with its support. *)
Definition apriori (basket : DataFrame) (min_sup : Q) : list (Q * itemset) :=
  let width := length (columns basket) in
  let level1 := filter (frequent basket min_sup) (map (fun j => [j]) (seq 0 width)) in
  map (fun cols => (support_of basket (names basket cols), names basket cols))
      (levels width basket min_sup level1).

(** Every way to split an itemset in two. *)
Fixpoint splits {A} (l : list A) : list (list A * list A) :=
  match l with
  | [] => [([], [])]
  | x :: t =>
      flat_map (fun ac => [ (x :: fst ac, snd ac); (fst ac, x :: snd ac) ]) (splits t)
  end.

Definition is_empty {A} (l : list A) : bool :=
  match l with [] => true | _ => false end.

(** The support of an itemset in the table of frequent itemsets. *)
Fixpoint lookup (items : itemset) (table : list (Q * itemset)) : option Q :=
  match table with
  | [] => None
  | (s, items') :: t =>
      if list_eq_dec string_dec items items' then Some s else lookup items t
  end.

(** The rules of one frequent itemset. *)
Definition rules_of (table : list (Q * itemset)) (min_conf : Q)
  (entry : Q * itemset) : list Rule :=
  let (s, items) := entry in
  if 2 <=? length items then
    flat_map (fun ac =>
      let (a, c) := ac : itemset * itemset in
      if is_empty a || is_empty c then []
      else
        match lookup a table, lookup c table with
        | Some sA, Some sC =>
            let conf := (s / sA)%Q in
            if Qle_bool min_conf conf
            then [ {| antecedents := a; consequents := c;
                      antecedent_support := sA; consequent_support := sC;
                      support := s; confidence := conf;
                      lift := (conf / sC)%Q |} ]
            else []
        | _, _ => []
        end) (splits items)
  else [].

(** Modelled from the spec: [mlxtend.frequent_patterns.association_rules(
    frequent_itemsets, metric="confidence", min_threshold)], which [fit]
    calls and which is not part of the sources.  "For every itemset of size
    >= 2, enumerate every proper non-empty subset as antecedent, remainder
    as consequent; compute confidence = support(itemset)/support(antecedent);
    keep rule iff confidence >= min_confidence.  Compute lift using
    consequent's own support from the frequent-itemset table"; a split whose
    side is not in the table is skipped. *)
Definition association_rules (table : list (Q * itemset)) (min_conf : Q) : list Rule :=
  flat_map (rules_of table min_conf) table.

(** [MBAEngine.fit]. *)
Definition fit (e : MBAEngine) (basket : DataFrame) : MBAEngine :=
  let itemsets := apriori basket (min_support e) in
  {| min_support := min_support e;
     min_confidence := min_confidence e;
     frequent_itemsets := Some itemsets;
     rules := Some (if 0 <? length itemsets
                    then association_rules itemsets (min_confidence e)
                    else []);
     basket_df := Some basket |}.

(* ----------------------------------------------------------------- *)
(** *** The rule queries *)

(** The columns of the rule table that [Rule] records, and the numeric
    ones among them.  The table of mlxtend has further metric columns
    (leverage, conviction and others): [get_top_rules] is stated for the
    columns recorded here. *)
Definition rule_columns : list string :=
  ["antecedents"; "consequents"; "antecedent support"; "consequent support";
   "support"; "confidence"; "lift"].

Definition numeric_column (metric : string) : option (Rule -> Q) :=
  if (metric =? "antecedent support")%string then Some antecedent_support
  else if (metric =? "consequent support")%string then Some consequent_support
  else if (metric =? "support")%string then Some support
  else if (metric =? "confidence")%string then Some confidence
  else if (metric =? "lift")%string then Some lift
  else None.

(** [get_top_rules].  [nlargest] and [nsmallest] keep the first of equal
    rows; they raise on a column that is not numeric. *)
Definition get_top_rules (e : MBAEngine) (n : nat) (metric : string)
  (ascending : bool) : result (list Rule) :=
  match rules e with
  | None => Ok []
  | Some rs =>
      if length rs =? 0 then Ok []
      else
        let metric := if existsb (String.eqb metric) rule_columns
                      then metric else "lift" in
        match numeric_column metric with
        | None => Raise TypeError
        | Some key => Ok (firstn n (sorted_by Qle_bool key (negb ascending) rs))
        end
  end.

Record ProductRecommendation := {
  rec_product : string;
  rec_confidence : Q;
  rec_lift : Q;
  rec_support : Q
}.

Definition seen_in (p : string) (seen : list string) : bool :=
  existsb (String.eqb p) seen.

(** The inner loop of [get_product_recommendations] over the consequents
    of one rule; it stops once [n] recommendations are collected. *)
Fixpoint scan_consequents (p : string) (n : nat) (rule : Rule)
  (cs : list string) (acc : list ProductRecommendation * list string)
  : list ProductRecommendation * list string :=
  match cs with
  | [] => acc
  | consequent :: cs' =>
      if negb (consequent =? p)%string && negb (seen_in consequent (snd acc)) then
        let recommendations :=
          fst acc ++ [ {| rec_product := consequent;
                          rec_confidence := confidence rule;
                          rec_lift := lift rule;
                          rec_support := support rule |} ] in
        let seen_products := consequent :: snd acc in
        if n <=? length recommendations
        then (recommendations, seen_products)
        else scan_consequents p n rule cs' (recommendations, seen_products)
      else scan_consequents p n rule cs' acc
  end.

(** The outer loop over the rules. *)
Fixpoint scan_rules (p : string) (n : nat) (rs : list Rule)
  (acc : list ProductRecommendation * list string) : list ProductRecommendation :=
  match rs with
  | [] => fst acc
  | rule :: rs' =>
      let acc' := scan_consequents p n rule (consequents rule) acc in
      if n <=? length (fst acc') then fst acc'
      else scan_rules p n rs' acc'
  end.

Record Pair := {
  product_a : string;
  product_b : string;
  pair_confidence : Q;
  pair_lift : Q;
  pair_support : Q
}.


(** [series.mean()] on a series with values: the mean before its rounding
    to [float64]. *)
Definition mean (l : list Q) : Q :=
  (fold_right Qplus 0 l / inject_Z (Z.of_nat (length l)))%Q.

Definition Qmax (x y : Q) : Q := if Qle_bool x y then y else x.
Definition Qmin (x y : Q) : Q := if Qle_bool x y then x else y.

Definition maximum (l : list Q) : Q :=
  match l with [] => 0%Q | x :: t => fold_left Qmax t x end.

Definition minimum (l : list Q) : Q :=
  match l with [] => 0%Q | x :: t => fold_left Qmin t x end.

Section Queries.
Context {sorter : ArgSort}.

(** [get_product_recommendations]. *)
Definition get_product_recommendations (e : MBAEngine) (p : string) (n : nat)
  : list ProductRecommendation :=
  match rules e with
  | None => []
  | Some rs =>
      if length rs =? 0 then []
      else
        let product_rules :=
          filter (fun r => existsb (String.eqb p) (antecedents r)) rs in
        if length product_rules =? 0 then []
        else
          (* .sort_values('lift', ascending=False) *)
          let order := argsort (fun a b => Qle_bool b a) (map lift product_rules) in
          let product_rules :=
            flat_map (fun i => match nth_error product_rules i with
                               | Some r => [r]
                               | None => []
                               end) order in
          scan_rules p n product_rules ([], [])
  end.

End Queries.

(** [get_frequently_bought_together]. *)
Definition get_frequently_bought_together (e : MBAEngine) (n : nat) : list Pair :=
  match rules e with
  | None => []
  | Some rs =>
      if length rs =? 0 then []
      else
        let pairs :=
          flat_map (fun rule =>
            match antecedents rule, consequents rule with
            | [a], [b] => [ {| product_a := a; product_b := b;
                               pair_confidence := confidence rule;
                               pair_lift := lift rule;
                               pair_support := support rule |} ]
            | _, _ => []
            end) rs in
        firstn n (sorted_by Qle_bool pair_lift true pairs)
  end.


(** [get_rules_summary]: the dictionary, key by key. *)
Definition get_rules_summary (e : MBAEngine) : list (string * Q) :=
  let empty_summary :=
    [("total_rules", 0%Q); ("avg_confidence", 0%Q);
     ("avg_lift", 0%Q); ("max_lift", 0%Q)] in
  match rules e with
  | None => empty_summary
  | Some rs =>
      if length rs =? 0 then empty_summary
      else
        [("total_rules", inject_Z (Z.of_nat (length rs)));
         ("avg_confidence", mean (map confidence rs));
         ("avg_lift", mean (map lift rs));
         ("max_lift", maximum (map lift rs));
         ("min_confidence", minimum (map confidence rs));
         ("max_confidence", maximum (map confidence rs))]
  end.

(** [summary[key]], when the key is present. *)
Fixpoint summary_get (key : string) (summary : list (string * Q)) : option Q :=
  match summary with
  | [] => None
  | (k, v) :: t => if (key =? k)%string then Some v else summary_get key t
  end.

(** An itemset of level [k]: [k] columns of the matrix in increasing
    order. *)
Definition level_set (width k : nat) (s : list nat) : Prop :=
  StronglySorted lt s /\ Forall (fun j => j < width) s /\ length s = k.

(* ----------------------------------------------------------------- *)
(** *** Example engines *)

(** [MBAEngine(min_support=0.5, min_confidence=0.5)] before any [fit]. *)
Definition unfitted_engine : MBAEngine :=
  {| min_support := 1 # 2; min_confidence := 1 # 2;
     frequent_itemsets := None; rules := None; basket_df := None |}.

Definition bought (o : Z) (p : string) : Preprocessing.Transaction :=
  {| Preprocessing.order_id := o; Preprocessing.product := p;
     Preprocessing.quantity := 1; Preprocessing.customer_id := o |}.

(** The orders O1:{A,B}, O2:{A,B}, O3:{A,C}, O4:{B,C}. *)
Definition four_orders : list Preprocessing.Transaction :=
  [ bought 1 "A"; bought 1 "B"; bought 2 "A"; bought 2 "B";
    bought 3 "A"; bought 3 "C"; bought 4 "B"; bought 4 "C" ].

Definition four_orders_basket : DataFrame :=
  Preprocessing.prepare_basket_data four_orders.

Definition rule_A_B : Rule :=
  {| antecedents := ["A"]; consequents := ["B"];
     antecedent_support := 3 # 4; consequent_support := 3 # 4;
     support := 2 # 4; confidence := 8 # 12; lift := 32 # 36 |}.

Definition rule_B_A : Rule :=
  {| antecedents := ["B"]; consequents := ["A"];
     antecedent_support := 3 # 4; consequent_support := 3 # 4;
     support := 2 # 4; confidence := 8 # 12; lift := 32 # 36 |}.

(* ----------------------------------------------------------------- *)
(** *** The table of frequent itemsets *)

Lemma apriori_entry basket min_sup s items :
  In (s, items) (apriori basket min_sup) -> s = support_of basket items.
Proof.
  unfold apriori. rewrite in_map_iff. intros [cols [E _]].
  inversion E. reflexivity.
Qed.

Lemma lookup_In items table s :
  lookup items table = Some s -> In (s, items) table.
Proof.
  induction table as [|[s' items'] t IH]; simpl; [discriminate|].
  destruct (list_eq_dec string_dec items items') as [->|_].
  - intros H. inversion H. left. reflexivity.
  - intros H. right. apply IH. exact H.
Qed.

Lemma splits_In {A} (l a c : list A) :
  In (a, c) (splits l) -> forall x, In x l <-> In x a \/ In x c.
Proof.
  revert a c. induction l as [|y t IH]; intros a c H x; simpl in H.
  - destruct H as [H|[]]. inversion H. simpl. tauto.
  - apply in_flat_map in H. destruct H as [[a' c'] [Hac H]].
    specialize (IH a' c' Hac x). simpl in H.
    destruct H as [H|[H|[]]]; inversion H; subst; simpl; tauto.
Qed.

Lemma forallb_same_elements {A} (f : A -> bool) (l l' : list A) :
  (forall x, In x l <-> In x l') -> forallb f l = forallb f l'.
Proof.
  intros H. destruct (forallb f l) eqn:E; symmetry.
  - apply forallb_forall. intros x Hx.
    rewrite forallb_forall in E. apply E. apply H. exact Hx.
  - destruct (forallb f l') eqn:E'; [|reflexivity].
    rewrite forallb_forall in E'.
    assert (G : forallb f l = true).
    { apply forallb_forall. intros x Hx. apply E'. apply H. exact Hx. }
    congruence.
Qed.

(** The support depends on the products of the itemset only. *)
Lemma support_of_same_elements basket items items' :
  (forall x, In x items <-> In x items') ->
  support_of basket items = support_of basket items'.
Proof.
  intros H. unfold support_of.
  rewrite (filter_ext (contains_all basket items) (contains_all basket items')).
  - reflexivity.
  - intros row. unfold contains_all. apply forallb_same_elements. exact H.
Qed.

Lemma rules_of_In table min_conf s items r :
  In r (rules_of table min_conf (s, items)) ->
  exists a c sA sC,
    In (a, c) (splits items) /\ a <> [] /\ c <> [] /\
    lookup a table = Some sA /\ lookup c table = Some sC /\
    Qle_bool min_conf (s / sA) = true /\
    r = {| antecedents := a; consequents := c;
           antecedent_support := sA; consequent_support := sC;
           support := s; confidence := (s / sA)%Q;
           lift := (s / sA / sC)%Q |}.
Proof.
  unfold rules_of. destruct (2 <=? length items); [|intros []].
  rewrite in_flat_map. intros [[a c] [Hac H]].
  destruct a as [|x a']; [destruct H|]. destruct c as [|y c']; [destruct H|].
  simpl in H.
  destruct (lookup (x :: a') table) as [sA|] eqn:EA; [|destruct H].
  destruct (lookup (y :: c') table) as [sC|] eqn:EC; [|destruct H].
  destruct (Qle_bool min_conf (s / sA)) eqn:Econf; [|destruct H].
  destruct H as [<-|[]].
  exists (x :: a'), (y :: c'), sA, sC.
  repeat split; auto; discriminate.
Qed.

Lemma fit_rules_In e basket rs r :
  rules (fit e basket) = Some rs -> In r rs ->
  In r (association_rules (apriori basket (min_support e)) (min_confidence e)).
Proof.
  unfold fit. simpl. intros H Hr. inversion H as [E]. clear H.
  destruct (0 <? length (apriori basket (min_support e))).
  - rewrite E. exact Hr.
  - rewrite <- E in Hr. destruct Hr.
Qed.

(* ----------------------------------------------------------------- *)
(** *** The level-wise search stops by itself *)

Lemma increasing_length (s : list nat) (a w : nat) :
  StronglySorted lt s -> Forall (fun j => a <= j < w) s -> a + length s <= w \/ s = [].
Proof.
  revert a. induction s as [|x s IH]; intros a Hs Hall; [right; reflexivity|].
  left. apply StronglySorted_inv in Hs. destruct Hs as [Hs Hx].
  inversion Hall as [|y l Hxa Hrest]; subst.
  destruct (IH (S x) Hs) as [H | ->].
  - rewrite Forall_forall in *. intros j Hj. specialize (Hx j Hj).
    specialize (Hrest j Hj). lia.
  - simpl. lia.
  - simpl. lia.
Qed.

Lemma level_set_bound width k s : level_set width k s -> k <= width.
Proof.
  intros (Hs & Hall & <-).
  destruct (increasing_length s 0 width Hs) as [H | ->].
  - eapply Forall_impl; [|exact Hall]. simpl. intros j Hj. lia.
  - lia.
  - simpl. lia.
Qed.

Lemma increasing_last (s : list nat) x :
  StronglySorted lt s -> In x s -> x <= last s 0.
Proof.
  revert x. induction s as [|y s IH]; intros x Hs Hx; [destruct Hx|].
  apply StronglySorted_inv in Hs. destruct Hs as [Hs Hy].
  destruct s as [|z s'].
  - destruct Hx as [->|[]]. simpl. lia.
  - change (last (y :: z :: s') 0) with (last (z :: s') 0).
    destruct Hx as [<- | Hx].
    + rewrite Forall_forall in Hy.
      assert (Hz : y < z) by (apply Hy; left; reflexivity).
      specialize (IH z Hs (or_introl eq_refl)). lia.
    + apply IH; assumption.
Qed.

Lemma StronglySorted_snoc (s : list nat) j :
  StronglySorted lt s -> (forall x, In x s -> x < j) -> StronglySorted lt (s ++ [j]).
Proof.
  induction s as [|y s IH]; intros Hs Hj; simpl.
  - constructor; constructor.
  - apply StronglySorted_inv in Hs. destruct Hs as [Hs Hy]. constructor.
    + apply IH; [exact Hs|]. intros x Hx. apply Hj. right. exact Hx.
    + apply Forall_app. split; [exact Hy|].
      constructor; [|constructor]. apply Hj. left. reflexivity.
Qed.

Lemma extend_level_set width k s c :
  level_set width k s -> In c (extend width s) -> level_set width (S k) c.
Proof.
  intros (Hs & Hall & Hlen). unfold extend. rewrite in_map_iff.
  intros [j [<- Hj]]. apply filter_In in Hj. destruct Hj as [Hj Hlast].
  apply in_seq in Hj. apply Nat.ltb_lt in Hlast.
  split; [|split].
  - apply StronglySorted_snoc; [exact Hs|]. intros x Hx.
    pose proof (increasing_last s x Hs Hx). lia.
  - apply Forall_app. split; [exact Hall|]. constructor; [lia | constructor].
  - rewrite length_app. simpl. lia.
Qed.

Lemma next_level_sets basket min_sup k level :
  Forall (level_set (length (columns basket)) k) level ->
  Forall (level_set (length (columns basket)) (S k))
         (filter (frequent basket min_sup)
                 (candidates (length (columns basket)) level)).
Proof.
  intros H. apply Forall_forall. intros c Hc.
  apply filter_In in Hc. destruct Hc as [Hc _].
  unfold candidates in Hc. apply filter_In in Hc. destruct Hc as [Hc _].
  apply in_flat_map in Hc. destruct Hc as [s [Hs Hc]].
  rewrite Forall_forall in H. eapply extend_level_set; [apply H|]; eassumption.
Qed.

Lemma levels_nil fuel basket min_sup : levels fuel basket min_sup [] = [].
Proof. destruct fuel; reflexivity. Qed.

Lemma levels_more_fuel basket min_sup fuel extra k level :
  Forall (level_set (length (columns basket)) k) level ->
  length (columns basket) < fuel + k ->
  levels (fuel + extra) basket min_sup level = levels fuel basket min_sup level.
Proof.
  revert k level. induction fuel as [|fuel IH]; intros k level Hlevel Hk.
  - destruct level as [|s level]; [rewrite !levels_nil; reflexivity|].
    inversion Hlevel; subst.
    match goal with H : level_set _ _ s |- _ => apply level_set_bound in H end.
    simpl in Hk. lia.
  - destruct level as [|s level]; [rewrite !levels_nil; reflexivity|].
    simpl. f_equal. f_equal.
    apply (IH (S k)); [apply next_level_sets; exact Hlevel | lia].
Qed.

(** The fuel of [apriori] is enough: with more of it the search returns
    the same levels. *)
Lemma apriori_fuel_enough basket min_sup extra :
  let width := length (columns basket) in
  let level1 := filter (frequent basket min_sup) (map (fun j => [j]) (seq 0 width)) in
  levels (width + extra) basket min_sup level1 = levels width basket min_sup level1.
Proof.
  intros width level1. apply (levels_more_fuel basket min_sup width extra 1).
  - apply Forall_forall. intros s Hs. apply filter_In in Hs. destruct Hs as [Hs _].
    apply in_map_iff in Hs. destruct Hs as [j [<- Hj]]. apply in_seq in Hj.
    split; [|split].
    + constructor; constructor.
    + constructor; [lia | constructor].
    + reflexivity.
  - fold width. lia.
Qed.

Lemma four_orders_fit :
  frequent_itemsets (fit unfitted_engine four_orders_basket) =
    Some [(3 # 4, ["A"]); (3 # 4, ["B"]); (2 # 4, ["C"]); (2 # 4, ["A"; "B"])] /\
  rules (fit unfitted_engine four_orders_basket) = Some [rule_B_A; rule_A_B].
Proof. split; reflexivity. Qed.

(* ----------------------------------------------------------------- *)
(** *** Rule validity *)

(** C6: for every rule kept by [fit], the confidence is the support of
    antecedent and consequent together divided by the support of the
    antecedent, the lift is the confidence divided by the support of the
    consequent, and the confidence is at least [min_confidence]; the
    supports are the fractions of orders of the basket matrix. *)
Theorem rule_validity (e : MBAEngine) (basket : DataFrame)
  (rs : list Rule) (r : Rule) :
  rules (fit e basket) = Some rs ->
  In r rs ->
  (confidence r == support_of basket (antecedents r ++ consequents r)
                   / support_of basket (antecedents r))%Q /\
  (lift r == confidence r / support_of basket (consequents r))%Q /\
  (min_confidence e <= confidence r)%Q.
Proof.
  intros Hfit Hr. apply (fit_rules_In e basket rs r Hfit) in Hr.
  unfold association_rules in Hr. apply in_flat_map in Hr.
  destruct Hr as [[s items] [Hentry Hr]].
  apply rules_of_In in Hr.
  destruct Hr as (a & c & sA & sC & Hsplit & _ & _ & HA & HC & Hconf & ->).
  apply lookup_In, apriori_entry in HA.
  apply lookup_In, apriori_entry in HC.
  apply apriori_entry in Hentry. simpl.
  assert (Hunion : support_of basket items = support_of basket (a ++ c)).
  { apply support_of_same_elements. intros x.
    rewrite (splits_In items a c Hsplit x), in_app_iff. reflexivity. }
  subst sA sC s. rewrite <- Hunion.
  split; [reflexivity|]. split; [reflexivity|].
  apply Qle_bool_iff. exact Hconf.
Qed.

Lemma rule_validity_witness :
  rules (fit unfitted_engine four_orders_basket) = Some [rule_B_A; rule_A_B] /\
  ((confidence rule_A_B == support_of four_orders_basket ["A"; "B"]
                           / support_of four_orders_basket ["A"])%Q /\
   (lift rule_A_B == confidence rule_A_B / support_of four_orders_basket ["B"])%Q /\
   (1 # 2 <= confidence rule_A_B)%Q).
Proof.
  split; [reflexivity|].
  apply (rule_validity unfitted_engine four_orders_basket [rule_B_A; rule_A_B] rule_A_B).
  - reflexivity.
  - right. left. reflexivity.
Defined.

(* ----------------------------------------------------------------- *)
(** *** Empty inputs *)

Lemma support_of_no_orders cols items :
  (support_of {| index := []; columns := cols; values := [] |} items == 0)%Q.
Proof. unfold support_of. simpl. reflexivity. Qed.

Lemma apriori_no_orders cols min_sup :
  (0 < min_sup)%Q ->
  apriori {| index := []; columns := cols; values := [] |} min_sup = [].
Proof.
  intros Hpos. unfold apriori.
  set (basket := {| index := []; columns := cols; values := [] |}).
  assert (Hfilter : forall l, filter (frequent basket min_sup) l = []).
  { induction l as [|x l IH]; simpl; [reflexivity|].
    unfold frequent at 1.
    destruct (Qle_bool min_sup (support_of basket (names basket x))) eqn:E.
    - apply Qle_bool_iff in E. unfold basket in E.
      rewrite support_of_no_orders in E.
      exfalso. apply (Qlt_irrefl 0%Q). eapply Qlt_le_trans; eassumption.
    - exact IH. }
  rewrite Hfilter. destruct (length (columns basket)); reflexivity.
Qed.

(** C9: fitting on the basket matrix of no transactions gives an empty
    table of frequent itemsets and an empty rule set; so does fitting on
    any basket matrix without orders when [min_support] is positive. *)
Theorem fit_empty_basket (e : MBAEngine) :
  (frequent_itemsets (fit e (Preprocessing.prepare_basket_data [])) = Some [] /\
   rules (fit e (Preprocessing.prepare_basket_data [])) = Some []) /\
  (forall cols, (0 < min_support e)%Q ->
     frequent_itemsets (fit e {| index := []; columns := cols; values := [] |})
       = Some [] /\
     rules (fit e {| index := []; columns := cols; values := [] |}) = Some []).
Proof.
  split.
  - split; reflexivity.
  - intros cols Hpos. unfold fit. simpl.
    rewrite (apriori_no_orders cols (min_support e) Hpos). split; reflexivity.
Qed.

Lemma fit_empty_basket_witness :
  (frequent_itemsets (fit unfitted_engine (Preprocessing.prepare_basket_data [])) = Some [] /\
   rules (fit unfitted_engine (Preprocessing.prepare_basket_data [])) = Some []) /\
  (frequent_itemsets (fit unfitted_engine {| index := []; columns := ["A"]; values := [] |})
     = Some [] /\
   rules (fit unfitted_engine {| index := []; columns := ["A"]; values := [] |}) = Some []).
Proof.
  destruct (fit_empty_basket unfitted_engine) as [H1 H2].
  split; [exact H1|]. apply (H2 ["A"]). reflexivity.
Defined.

(** C7: on an absent or empty rule set the three rule queries return an
    empty result and the summary is the dictionary of the four zero fields,
    without the two confidence bounds. *)
Theorem empty_rule_set_queries {sorter : ArgSort} (e : MBAEngine)
  (n : nat) (metric p : string) (ascending : bool) :
  rules e = None \/ rules e = Some [] ->
  get_top_rules e n metric ascending = Ok [] /\
  get_product_recommendations e p n = [] /\
  get_frequently_bought_together e n = [] /\
  get_rules_summary e =
    [("total_rules", 0%Q); ("avg_confidence", 0%Q);
     ("avg_lift", 0%Q); ("max_lift", 0%Q)] /\
  summary_get "min_confidence" (get_rules_summary e) = None /\
  summary_get "max_confidence" (get_rules_summary e) = None.
Proof.
  unfold get_top_rules, get_product_recommendations,
    get_frequently_bought_together, get_rules_summary.
  intros [H|H]; rewrite H; simpl; repeat split; reflexivity.
Qed.

Lemma empty_rule_set_queries_witness :
  get_top_rules unfitted_engine 10 "lift" false = Ok [] /\
  get_product_recommendations (sorter := stable_argsort) unfitted_engine "A" 5 = [] /\
  get_frequently_bought_together unfitted_engine 10 = [] /\
  get_rules_summary unfitted_engine =
    [("total_rules", 0%Q); ("avg_confidence", 0%Q);
     ("avg_lift", 0%Q); ("max_lift", 0%Q)] /\
  summary_get "min_confidence" (get_rules_summary unfitted_engine) = None /\
  summary_get "max_confidence" (get_rules_summary unfitted_engine) = None.
Proof.
  apply (empty_rule_set_queries (sorter := stable_argsort) unfitted_engine 10 "lift" "A" false).
  left. reflexivity.
Defined.

End MBA.

(* ================================================================= *)
(** ** [src/preprocessing.py]: transactions of the basket matrix and the
       filter of sparse users and items *)

Module Frames.
Import Py Preprocessing.

(** [frame.loc[k]]: the row of a label. *)
Definition row_of (frame : DataFrame) (k : Z) : list Z :=
  match index_of Z.eqb k (index frame) with
  | Some i => nth i (values frame) []
  | None => []
  end.

(** [get_frequent_itemsets_data]: for every order the set of the products
    whose cell is 1, the empty sets left out.  ([min_support] is not
    used.) *)
Definition get_frequent_itemsets_data (basket_df : DataFrame) : list (list string) :=
  flat_map (fun order_id =>
    let row := row_of basket_df order_id in
    let products :=
      nodup string_dec
        (map fst (filter (fun pc => (snd pc =? 1)%Z)
                         (combine (columns basket_df) row))) in
    if 0 <? length products then [products] else [])
    (index basket_df).

(** [(cells > 0).sum()]: the number of positive cells. *)
Definition count_positive (cells : list Z) : Z :=
  Z.of_nat (length (filter (fun c => (0 <? c)%Z) cells)).

(** The rows, or the cells of a row, with their labels. *)
Definition labelled {K V} (labels : list K) (l : list V) : list (K * V) :=
  combine labels l.

(** Selection by a list of labels: for every label, in turn, what carries
    it. *)
Definition select {K V} (eqb : K -> K -> bool) (l : list (K * V))
  (labels : list K) : list (K * V) :=
  flat_map (fun k => filter (fun kv => eqb (fst kv) k) l) labels.

(** [counts[counts >= threshold].index]. *)
Definition labels_at_least {K} (threshold : Z) (labels : list K)
  (counts : list Z) : list K :=
  map fst (filter (fun kc => (threshold <=? snd kc)%Z) (combine labels counts)).

(** [frame.loc[labels]]. *)
Definition loc_rows (frame : DataFrame) (labels : list Z) : DataFrame :=
  let rows := select Z.eqb (labelled (index frame) (values frame)) labels in
  {| index := map fst rows;
     columns := columns frame;
     values := map snd rows |}.

(** [frame[labels]]. *)
Definition select_columns (frame : DataFrame) (labels : list string) : DataFrame :=
  {| index := index frame;
     columns := flat_map (fun p => filter (String.eqb p) (columns frame)) labels;
     values := map (fun row =>
                 map snd (select String.eqb (labelled (columns frame) row) labels))
                 (values frame) |}.

(** The cells of column [j]. *)
Definition column (frame : DataFrame) (j : nat) : list Z :=
  map (fun row => nth j row 0%Z) (values frame).

(** [filter_sparse_users_items]. *)
Definition filter_sparse_users_items (user_item_df : DataFrame)
  (min_user_interactions min_item_interactions : Z) : DataFrame :=
  let user_counts := map count_positive (values user_item_df) in
  let valid_users :=
    labels_at_least min_user_interactions (index user_item_df) user_counts in
  let filtered_df := loc_rows user_item_df valid_users in
  let item_counts :=
    map (fun j => count_positive (column filtered_df j))
        (seq 0 (length (columns filtered_df))) in
  let valid_items :=
    labels_at_least min_item_interactions (columns filtered_df) item_counts in
  select_columns filtered_df valid_items.

(** The invariant of the frames of this module: distinct labels, one row
    per row label, one cell per column label. *)
Definition well_formed (frame : DataFrame) : Prop :=
  NoDup (index frame) /\ NoDup (columns frame) /\
  length (values frame) = length (index frame) /\
  Forall (fun row => length row = length (columns frame)) (values frame).

(** The products of an order with a positive summed quantity. *)
Definition basket_of (df : list Transaction) (o : Z) : list string :=
  filter (fun p => (0 <? order_quantity df o p)%Z) (column_labels df).

Definition nonempty {A} (l : list A) : bool :=
  match l with [] => false | _ => true end.

(** A cell that is 0 or 1. *)
Definition binary (c : Z) : Prop := c = 0%Z \/ c = 1%Z.

(** Positional selection by a mask. *)
Fixpoint masked {A} (mask : list bool) (l : list A) : list A :=
  match mask, l with
  | b :: m, x :: t => if b then x :: masked m t else masked m t
  | _, _ => []
  end.

(** The masks of the two steps of the filter. *)
Definition row_mask (frame : DataFrame) (min_user : Z) : list bool :=
  map (fun row => (min_user <=? count_positive row)%Z) (values frame).

Definition column_mask (frame : DataFrame) (min_user min_item : Z) : list bool :=
  map (fun j => (min_item <=?
                 count_positive (map (fun row => nth j row 0%Z)
                                     (masked (row_mask frame min_user) (values frame))))%Z)
      (seq 0 (length (columns frame))).

(* ----------------------------------------------------------------- *)
(** *** Cells by membership *)

Lemma In_combine_nth_error {K V} (ks : list K) (vs : list V) k v :
  In (k, v) (combine ks vs) <->
  exists i, nth_error ks i = Some k /\ nth_error vs i = Some v.
Proof.
  revert vs. induction ks as [|k0 ks IH]; intros vs; simpl.
  - split; [intros [] | intros [[|i] [H _]]; discriminate].
  - destruct vs as [|v0 vs]; simpl.
    + split; [intros [] | intros [[|i] [_ H]]; discriminate].
    + rewrite IH. split.
      * intros [H|[i Hi]]; [inversion H; subst; exists 0; auto | exists (S i); auto].
      * intros [[|i] [H1 H2]]; simpl in *.
        -- left. congruence.
        -- right. exists i. auto.
Qed.

Lemma index_of_first {A} (eqb : A -> A -> bool) (l : list A) x i :
  (forall a b, eqb a b = true <-> a = b) ->
  NoDup l -> nth_error l i = Some x -> index_of eqb x l = Some i.
Proof.
  intros Heq Hnd. revert i. induction Hnd as [|y l Hy Hnd IH]; intros i Hi.
  - destruct i; discriminate.
  - simpl. destruct i as [|i]; simpl in Hi.
    + inversion Hi; subst. rewrite (proj2 (Heq x x) eq_refl). reflexivity.
    + destruct (eqb x y) eqn:E.
      * apply Heq in E. subst. exfalso. apply Hy. eapply nth_error_In. exact Hi.
      * rewrite (IH i Hi). reflexivity.
Qed.

(** With distinct labels a cell is read by membership. *)
Lemma loc_In (frame : DataFrame) k p c :
  NoDup (index frame) -> NoDup (columns frame) ->
  (loc frame k p = Some c <->
   exists row, In (k, row) (combine (index frame) (values frame)) /\
               In (p, c) (combine (columns frame) row)).
Proof.
  intros Hi Hc. unfold loc. split.
  - destruct (index_of Z.eqb k (index frame)) as [i|] eqn:Ei; [|discriminate].
    destruct (index_of String.eqb p (columns frame)) as [j|] eqn:Ej; [|discriminate].
    destruct (nth_error (values frame) i) as [row|] eqn:Er; [|discriminate].
    intros Hj. exists row. split; apply In_combine_nth_error.
    + exists i. split; [|exact Er].
      apply (index_of_Some_nth _ _ _ _ Z_eqb_true). exact Ei.
    + exists j. split; [|exact Hj].
      apply (index_of_Some_nth _ _ _ _ string_eqb_true). exact Ej.
  - intros [row [Hk Hp]].
    apply In_combine_nth_error in Hk. destruct Hk as [i [Hk Hrow]].
    apply In_combine_nth_error in Hp. destruct Hp as [j [Hp Hcell]].
    rewrite (index_of_first Z.eqb _ k i Z.eqb_eq Hi Hk).
    rewrite (index_of_first String.eqb _ p j String.eqb_eq Hc Hp).
    rewrite Hrow. exact Hcell.
Qed.

Lemma loc_defined (frame : DataFrame) k p :
  well_formed frame -> In k (index frame) -> In p (columns frame) ->
  exists c, loc frame k p = Some c.
Proof.
  intros (Hi & Hc & Hlen & Hrows) Hk Hp. unfold loc.
  destruct (index_of_In Z.eqb k _ Z.eqb_refl Hk) as [i Ei].
  destruct (index_of_In String.eqb p _ String.eqb_refl Hp) as [j Ej].
  rewrite Ei, Ej.
  pose proof (index_of_lt _ _ _ _ Ei) as Li.
  pose proof (index_of_lt _ _ _ _ Ej) as Lj.
  destruct (nth_error (values frame) i) as [row|] eqn:Er.
  - rewrite Forall_forall in Hrows.
    assert (Hl : length row = length (columns frame)).
    { apply Hrows. eapply nth_error_In. exact Er. }
    destruct (nth_error row j) as [c|] eqn:Ec; [eauto|].
    apply nth_error_None in Ec. lia.
  - apply nth_error_None in Er. lia.
Qed.

(* ----------------------------------------------------------------- *)
(** *** Selection by labels is selection by mask *)

Lemma masked_In {A} (m : list bool) (l : list A) x : In x (masked m l) -> In x l.
Proof.
  revert l. induction m as [|b m IH]; intros [|y l] H; simpl in H; try contradiction.
  destruct b; [destruct H as [->|H]; [left; reflexivity|]|]; right; apply IH; exact H.
Qed.

Lemma masked_NoDup {A} (m : list bool) (l : list A) : NoDup l -> NoDup (masked m l).
Proof.
  intros H. revert m. induction H as [|y l Hy Hnd IH]; intros [|b m]; simpl;
    try constructor.
  destruct b; [constructor|]; try apply IH.
  intros Hin. apply Hy. eapply masked_In. exact Hin.
Qed.

Lemma masked_In_iff {A} (m : list bool) (l : list A) x :
  In x (masked m l) <->
  exists i, nth_error l i = Some x /\ nth_error m i = Some true.
Proof.
  revert l. induction m as [|b m IH]; intros l.
  - simpl. split; [intros [] | intros [[|i] [_ H]]; discriminate].
  - destruct l as [|y l]; simpl.
    + split; [intros [] | intros [[|i] [H _]]; discriminate].
    + destruct b; simpl; rewrite IH; split.
      * intros [->|[i Hi]]; [exists 0; auto | exists (S i); auto].
      * intros [[|i] [H1 H2]]; simpl in *; [left; congruence | right; eauto].
      * intros [i Hi]. exists (S i). auto.
      * intros [[|i] [H1 H2]]; simpl in *; [discriminate | eauto].
Qed.

Lemma masked_combine {A B} (m : list bool) (ks : list A) (vs : list B) :
  masked m (combine ks vs) = combine (masked m ks) (masked m vs).
Proof.
  revert ks vs. induction m as [|b m IH]; intros [|k ks] [|v vs]; simpl;
    try reflexivity.
  - destruct b; simpl; [reflexivity|]. destruct (masked m ks); reflexivity.
  - destruct b; simpl; rewrite IH; reflexivity.
Qed.

Lemma masked_length {A B} (m : list bool) (ks : list A) (vs : list B) :
  length ks = length vs -> length (masked m ks) = length (masked m vs).
Proof.
  revert ks vs. induction m as [|b m IH]; intros [|k ks] [|v vs] H; simpl in *;
    try reflexivity; try discriminate.
  destruct b; simpl; rewrite (IH ks vs) by lia; reflexivity.
Qed.

Lemma labels_at_least_masked {K} threshold (labels : list K) counts :
  labels_at_least threshold labels counts =
  masked (map (fun c => (threshold <=? c)%Z) counts) labels.
Proof.
  unfold labels_at_least. revert counts.
  induction labels as [|k ks IH]; intros [|c cs]; simpl; try reflexivity.
  destruct (threshold <=? c)%Z; simpl; rewrite IH; reflexivity.
Qed.

Lemma filter_key_absent {K V} (eqb : K -> K -> bool) (l : list (K * V)) k :
  (forall a b, eqb a b = true <-> a = b) ->
  ~ In k (map fst l) -> filter (fun kv => eqb (fst kv) k) l = [].
Proof.
  intros Heq. induction l as [|[k0 v0] l IH]; intros H; simpl; [reflexivity|].
  destruct (eqb k0 k) eqn:E.
  - apply Heq in E. subst. exfalso. apply H. left. reflexivity.
  - apply IH. intros Hin. apply H. right. exact Hin.
Qed.

Lemma select_skip {K V} (eqb : K -> K -> bool) (l : list (K * V)) k v labels :
  (forall a b, eqb a b = true <-> a = b) ->
  ~ In k labels ->
  select eqb ((k, v) :: l) labels = select eqb l labels.
Proof.
  intros Heq H. unfold select.
  induction labels as [|k' labels IH]; [reflexivity|].
  cbn [flat_map]. rewrite IH by (intros Hin; apply H; right; exact Hin).
  cbn [filter fst].
  destruct (eqb k k') eqn:E; [|reflexivity].
  apply Heq in E. subst. exfalso. apply H. left. reflexivity.
Qed.

Lemma map_fst_combine_In {K V} (ks : list K) (vs : list V) k :
  In k (map fst (combine ks vs)) -> In k ks.
Proof.
  rewrite in_map_iff. intros [[k' v] [<- H]]. eapply in_combine_l. exact H.
Qed.

(** Selecting the labels a mask keeps selects what the mask keeps. *)
Lemma select_masked {K V} (eqb : K -> K -> bool) (ks : list K) (vs : list V) m :
  (forall a b, eqb a b = true <-> a = b) ->
  NoDup ks ->
  select eqb (combine ks vs) (masked m ks) = masked m (combine ks vs).
Proof.
  intros Heq Hnd. revert vs m.
  induction Hnd as [|k ks Hk Hnd IH]; intros vs m.
  - destruct m; reflexivity.
  - destruct m as [|b m]; [reflexivity|]. destruct vs as [|v vs].
    + simpl. unfold select. destruct b; simpl.
      * induction (masked m ks); simpl; auto.
      * induction (masked m ks); simpl; auto.
    + simpl. assert (Hk' : ~ In k (masked m ks)).
      { intros H. apply Hk. eapply masked_In. exact H. }
      destruct b.
      * change (select eqb ((k, v) :: combine ks vs) (k :: masked m ks))
          with (filter (fun kv => eqb (fst kv) k) ((k, v) :: combine ks vs)
                ++ select eqb ((k, v) :: combine ks vs) (masked m ks)).
        cbn [filter fst]. rewrite (proj2 (Heq k k) eq_refl).
        rewrite (filter_key_absent eqb (combine ks vs) k Heq)
          by (intros H; apply Hk; eapply map_fst_combine_In; exact H).
        rewrite select_skip by assumption. rewrite IH. reflexivity.
      * rewrite select_skip by assumption. apply IH.
Qed.

Lemma select_own_labels (l labels : list string) :
  NoDup l -> (forall p, In p labels -> In p l) ->
  flat_map (fun p => filter (String.eqb p) l) labels = labels.
Proof.
  intros Hnd Hin. induction labels as [|p labels IH]; simpl; [reflexivity|].
  rewrite IH by (intros q Hq; apply Hin; right; exact Hq).
  assert (E : filter (String.eqb p) l = [p]).
  { assert (Hp : In p l) by (apply Hin; left; reflexivity).
    clear IH Hin. induction Hnd as [|y l Hy Hnd IH]; [destruct Hp|].
    simpl. destruct (String.eqb p y) eqn:E.
    - apply String.eqb_eq in E. subst y. f_equal.
      clear IH Hp. induction l as [|z l IHl]; simpl; [reflexivity|].
      destruct (String.eqb p z) eqn:Ez.
      + apply String.eqb_eq in Ez. subst. exfalso. apply Hy. left. reflexivity.
      + apply IHl.
        * intros H. apply Hy. right. exact H.
        * inversion Hnd. assumption.
    - apply IH. destruct Hp as [->|Hp]; [|exact Hp].
      rewrite String.eqb_refl in E. discriminate. }
  rewrite E. reflexivity.
Qed.

Lemma map_fst_combine_eq {K V} (ks : list K) (vs : list V) :
  length ks = length vs -> map fst (combine ks vs) = ks.
Proof. apply map_fst_combine_same. Qed.

Lemma map_snd_combine_eq {K V} (ks : list K) (vs : list V) :
  length ks = length vs -> map snd (combine ks vs) = vs.
Proof.
  revert vs. induction ks as [|k ks IH]; intros [|v vs] H; simpl in *;
    try discriminate; try reflexivity.
  f_equal. apply IH. lia.
Qed.

Lemma string_eqb_iff a b : (a =? b)%string = true <-> a = b.
Proof. apply String.eqb_eq. Qed.

(** On a well-formed frame the filter keeps the rows of one mask and then
    the columns of another. *)
Lemma filter_sparse_positional frame min_user min_item :
  well_formed frame ->
  filter_sparse_users_items frame min_user min_item =
  {| index := masked (row_mask frame min_user) (index frame);
     columns := masked (column_mask frame min_user min_item) (columns frame);
     values := map (masked (column_mask frame min_user min_item))
                   (masked (row_mask frame min_user) (values frame)) |}.
Proof.
  intros (Hi & Hc & Hlen & Hrows).
  unfold filter_sparse_users_items.
  rewrite labels_at_least_masked, map_map. fold (row_mask frame min_user).
  set (rm := row_mask frame min_user).
  assert (Erows : select Z.eqb (labelled (index frame) (values frame))
                    (masked rm (index frame)) =
                  combine (masked rm (index frame)) (masked rm (values frame))).
  { unfold labelled. rewrite (select_masked Z.eqb _ _ _ Z.eqb_eq Hi).
    apply masked_combine. }
  assert (Efiltered : loc_rows frame (masked rm (index frame)) =
            {| index := masked rm (index frame); columns := columns frame;
               values := masked rm (values frame) |}).
  { unfold loc_rows. rewrite Erows.
    rewrite map_fst_combine_eq, map_snd_combine_eq
      by (apply masked_length; lia).
    reflexivity. }
  rewrite Efiltered. cbn [columns values index].
  rewrite labels_at_least_masked, map_map.
  unfold column. cbn [values]. fold rm.
  change (map (fun j => (min_item <=?
             count_positive (map (fun row => nth j row 0%Z)
                                 (masked rm (values frame))))%Z)
              (seq 0 (length (columns frame))))
    with (column_mask frame min_user min_item).
  set (cm := column_mask frame min_user min_item).
  unfold select_columns. cbn [columns values index]. f_equal.
  - apply select_own_labels; [exact Hc|]. intros p. apply masked_In.
  - apply map_ext_in. intros row Hrow. apply masked_In in Hrow.
    unfold labelled. rewrite (select_masked String.eqb _ _ _ string_eqb_iff Hc).
    rewrite masked_combine. apply map_snd_combine_eq.
    apply masked_length. rewrite Forall_forall in Hrows. symmetry.
    apply Hrows. exact Hrow.
Qed.

(* ----------------------------------------------------------------- *)
(** *** The two matrices of the pipeline *)

Lemma row_of_table (rows : list Z) (cols : list string) (f : Z -> list Z) k :
  In k rows ->
  row_of {| index := rows; columns := cols; values := map f rows |} k = f k.
Proof.
  intros Hk. unfold row_of. simpl.
  destruct (index_of_In Z.eqb k rows Z.eqb_refl Hk) as [i Hi]. rewrite Hi.
  pose proof (index_of_lt _ _ _ _ Hi) as Hlt.
  apply (index_of_Some_nth _ _ _ _ Z_eqb_true) in Hi.
  rewrite (nth_map_in f rows [] 0%Z i Hlt).
  rewrite (nth_error_nth _ _ 0%Z Hi). reflexivity.
Qed.

Lemma table_well_formed (rows : list Z) (cols : list string) (f : Z -> string -> Z) :
  NoDup rows -> NoDup cols ->
  well_formed {| index := rows; columns := cols;
                 values := map (fun k => map (fun p => f k p) cols) rows |}.
Proof.
  intros Hr Hc. repeat split; simpl; auto.
  - apply length_map.
  - apply Forall_forall. intros row Hrow. apply in_map_iff in Hrow.
    destruct Hrow as [k [<- _]]. apply length_map.
Qed.

Lemma quantity_matrix_well_formed df : well_formed (prepare_user_item_matrix df).
Proof.
  rewrite prepare_user_item_matrix_table.
  apply (table_well_formed _ _ (fun k p => wrap_int64 (customer_quantity df k p)));
    apply sorted_unique_NoDup.
Qed.

(* ----------------------------------------------------------------- *)
(** *** Sums over the groups of a key *)

Lemma sumZ_app l1 l2 : sumZ (l1 ++ l2) = (sumZ l1 + sumZ l2)%Z.
Proof. induction l1 as [|x l1 IH]; simpl; [reflexivity | rewrite IH; lia]. Qed.

Lemma sumZ_concat (rows : list (list Z)) : sumZ (concat rows) = sumZ (map sumZ rows).
Proof.
  induction rows as [|row rows IH]; simpl; [reflexivity|].
  rewrite sumZ_app, IH. reflexivity.
Qed.

Lemma sumZ_map_add {A} (f g : A -> Z) l :
  sumZ (map (fun x => (f x + g x)%Z) l) = (sumZ (map f l) + sumZ (map g l))%Z.
Proof. induction l as [|x l IH]; simpl; [reflexivity | rewrite IH; lia]. Qed.

Lemma sumZ_indicator {K} (eqb : K -> K -> bool) (keys : list K) a x :
  (forall u v, eqb u v = true <-> u = v) ->
  NoDup keys -> In a keys ->
  sumZ (map (fun k => if eqb a k then x else 0%Z) keys) = x.
Proof.
  intros Heqb Hnd. induction Hnd as [|k keys Hk Hnd IH]; intros Hin; [destruct Hin|].
  simpl. destruct (eqb a k) eqn:E.
  - apply Heqb in E. subst k.
    assert (Z0 : sumZ (map (fun k => if eqb a k then x else 0%Z) keys) = 0%Z).
    { clear IH Hnd Hin. induction keys as [|k' keys IH']; simpl; [reflexivity|].
      destruct (eqb a k') eqn:E'.
      - apply Heqb in E'. subst. exfalso. apply Hk. left. reflexivity.
      - apply IH'. intros H. apply Hk. right. exact H. }
    rewrite Z0. lia.
  - destruct Hin as [->|Hin].
    + assert (Hrefl : eqb a a = true) by (apply Heqb; reflexivity). congruence.
    + rewrite (IH Hin). lia.
Qed.

(** The sums of the groups of a key add up to the sum of the table. *)
Lemma sum_by_key {K} (eqb : K -> K -> bool) (key : Transaction -> K)
  (P : Transaction -> bool) (df : list Transaction) (keys : list K) :
  (forall u v, eqb u v = true <-> u = v) ->
  NoDup keys -> (forall t, In t df -> P t = true -> In (key t) keys) ->
  sumZ (map (fun k => sumZ (map quantity
                       (filter (fun t => eqb (key t) k && P t) df))) keys) =
  sumZ (map quantity (filter P df)).
Proof.
  intros Heqb Hnd. induction df as [|t df IH]; intros Hall.
  - simpl. clear Hnd Hall.
    induction keys as [|k keys IHk]; simpl; [reflexivity | rewrite IHk; reflexivity].
  - assert (E : forall k,
      sumZ (map quantity (filter (fun t0 => eqb (key t0) k && P t0) (t :: df))) =
      (sumZ (map quantity (filter (fun t0 => eqb (key t0) k && P t0) df)) +
       (if eqb (key t) k then (if P t then quantity t else 0) else 0))%Z).
    { intros k. simpl. destruct (eqb (key t) k), (P t); simpl; lia. }
    rewrite (map_ext _ _ E), sumZ_map_add.
    rewrite IH by (intros t' Ht'; apply Hall; right; exact Ht').
    simpl. destruct (P t) eqn:EP.
    + rewrite (sumZ_indicator eqb keys (key t) (quantity t) Heqb Hnd)
        by (apply Hall; [left; reflexivity | exact EP]).
      simpl. lia.
    + assert (Z0 : sumZ (map (fun k => if eqb (key t) k then 0%Z else 0%Z) keys) = 0%Z).
      { clear. induction keys as [|k keys IHk]; simpl; [reflexivity|].
        rewrite IHk. destruct (eqb (key t) k); reflexivity. }
      rewrite Z0. lia.
Qed.

Lemma Z_eqb_iff (u v : Z) : (u =? v)%Z = true <-> u = v.
Proof. apply Z.eqb_eq. Qed.

Lemma String_eqb_iff (u v : string) : (u =? v)%string = true <-> u = v.
Proof. apply String.eqb_eq. Qed.

(** The row of a customer adds up to the customer's quantities. *)
Lemma customer_row_total df c :
  sumZ (map (fun p => customer_quantity df c p) (column_labels df)) =
  sumZ (map quantity (filter (fun t => (customer_id t =? c)%Z) df)).
Proof.
  unfold customer_quantity, group.
  rewrite (map_ext _ (fun p => sumZ (map quantity
             (filter (fun t => (product t =? p)%string && (customer_id t =? c)%Z) df)))).
  - apply (sum_by_key String.eqb product (fun t => (customer_id t =? c)%Z) df
             (column_labels df) String_eqb_iff (column_labels_NoDup df)).
    intros t Ht _. apply column_labels_In. exists t. auto.
  - intros p. f_equal. f_equal. apply filter_ext. intros t. apply andb_comm.
Qed.

(** The rows add up to the quantities of the table. *)
Lemma customer_rows_total df :
  sumZ (map (fun c => sumZ (map quantity (filter (fun t => (customer_id t =? c)%Z) df)))
            (row_labels customer_id df)) =
  sumZ (map quantity df).
Proof.
  rewrite (map_ext _ (fun c => sumZ (map quantity
             (filter (fun t => (customer_id t =? c)%Z && true) df)))).
  - rewrite (sum_by_key Z.eqb customer_id (fun _ => true) df
               (row_labels customer_id df) Z_eqb_iff (sorted_unique_NoDup _ _ _)).
    + f_equal. f_equal. clear. induction df as [|t df IH]; simpl;
        [reflexivity | rewrite IH; reflexivity].
    + intros t Ht _. apply row_labels_In. exists t. auto.
  - intros c. f_equal. f_equal. apply filter_ext. intros t.
    rewrite andb_true_r. reflexivity.
Qed.

(** X2: the basket matrix and the quantity matrix of any transaction
    table have distinct row labels, distinct column labels, one row per row
    label and one cell per column label in every row; they have the same
    columns; and every cell of the basket matrix is 0 or 1. *)
Theorem prepared_frames_well_formed (df : list Transaction) :
  well_formed (prepare_basket_data df) /\
  well_formed (prepare_user_item_matrix df) /\
  columns (prepare_basket_data df) = columns (prepare_user_item_matrix df) /\
  Forall (Forall binary) (values (prepare_basket_data df)).
Proof.
  split; [|split; [|split]].
  - rewrite prepare_basket_data_table.
    apply (table_well_formed _ _
             (fun k p => if (0 <? wrap_int64 (order_quantity df k p))%Z
                         then 1%Z else 0%Z));
      apply sorted_unique_NoDup.
  - apply quantity_matrix_well_formed.
  - reflexivity.
  - rewrite prepare_basket_data_table. simpl.
    apply Forall_forall. intros row Hrow. apply in_map_iff in Hrow.
    destruct Hrow as [k [<- _]]. apply Forall_forall. intros c Hc.
    apply in_map_iff in Hc. destruct Hc as [p [<- _]].
    destruct (0 <? wrap_int64 (order_quantity df k p))%Z; [right | left]; reflexivity.
Qed.

(** X1: when no sum of a customer's quantities of a product leaves the
    [int64] range, the cell of the quantity matrix for a customer and a
    product is the summed quantity of the records of that customer and
    product, 0 when there is none; the rows are the customers with a record
    and the columns the products with a record; every row adds up to the
    quantities of the customer's records, and all cells together to the
    quantities of the whole table. *)
Theorem prepare_user_item_matrix_cells (df : list Transaction) :
  no_overflow customer_id df ->
  (forall c p, In c (index (prepare_user_item_matrix df)) ->
               In p (columns (prepare_user_item_matrix df)) ->
     loc (prepare_user_item_matrix df) c p = Some (customer_quantity df c p)) /\
  (forall c p, (forall t, In t df -> customer_id t = c -> product t <> p) ->
     customer_quantity df c p = 0%Z) /\
  (forall c, In c (index (prepare_user_item_matrix df)) <->
             exists t, In t df /\ customer_id t = c) /\
  (forall p, In p (columns (prepare_user_item_matrix df)) <->
             exists t, In t df /\ product t = p) /\
  (forall c, In c (index (prepare_user_item_matrix df)) ->
     sumZ (row_of (prepare_user_item_matrix df) c) =
     sumZ (map quantity (filter (fun t => (customer_id t =? c)%Z) df))) /\
  sumZ (concat (values (prepare_user_item_matrix df))) = sumZ (map quantity df).
Proof.
  intros Hfit. rewrite (prepare_user_item_matrix_exact df Hfit).
  split; [|split; [|split; [|split; [|split]]]].
  - intros c p Hc Hp. simpl in Hc, Hp.
    apply (loc_table _ _ (fun k p => customer_quantity df k p)); assumption.
  - intros c p H. unfold customer_quantity.
    destruct (group customer_id df c p) as [|t g] eqn:E; [reflexivity|].
    assert (Ht : In t (group customer_id df c p)) by (rewrite E; left; reflexivity).
    apply group_In in Ht. destruct Ht as (Hin & Hc & Hp).
    exfalso. exact (H t Hin Hc Hp).
  - intros c. simpl. apply row_labels_In.
  - intros p. simpl. apply column_labels_In.
  - intros c Hc. cbn [index] in Hc.
    rewrite (row_of_table _ _
               (fun k => map (fun p => customer_quantity df k p) (column_labels df))
               c Hc).
    apply customer_row_total.
  - cbn [values]. rewrite sumZ_concat, map_map.
    rewrite (map_ext _ (fun c => sumZ (map quantity
               (filter (fun t => (customer_id t =? c)%Z) df))))
      by (intros c; apply customer_row_total).
    apply customer_rows_total.
Qed.

Lemma prepare_user_item_matrix_cells_witness :
  no_overflow customer_id two_orders_df /\
  prepare_user_item_matrix two_orders_df =
    {| index := [7%Z; 8%Z]; columns := ["A"; "B"];
       values := [[5%Z; 1%Z]; [1%Z; 0%Z]] |} /\
  (forall c p, In c (index (prepare_user_item_matrix two_orders_df)) ->
               In p (columns (prepare_user_item_matrix two_orders_df)) ->
     loc (prepare_user_item_matrix two_orders_df) c p
     = Some (customer_quantity two_orders_df c p)) /\
  (forall c p, (forall t, In t two_orders_df -> customer_id t = c -> product t <> p) ->
     customer_quantity two_orders_df c p = 0%Z) /\
  (forall c, In c (index (prepare_user_item_matrix two_orders_df)) <->
             exists t, In t two_orders_df /\ customer_id t = c) /\
  (forall p, In p (columns (prepare_user_item_matrix two_orders_df)) <->
             exists t, In t two_orders_df /\ product t = p) /\
  (forall c, In c (index (prepare_user_item_matrix two_orders_df)) ->
     sumZ (row_of (prepare_user_item_matrix two_orders_df) c) =
     sumZ (map quantity (filter (fun t => (customer_id t =? c)%Z) two_orders_df))) /\
  sumZ (concat (values (prepare_user_item_matrix two_orders_df)))
  = sumZ (map quantity two_orders_df).
Proof.
  assert (Hfit : no_overflow customer_id two_orders_df).
  { apply small_table_no_overflow. reflexivity. }
  split; [exact Hfit|]. split; [vm_compute; reflexivity|].
  apply (prepare_user_item_matrix_cells two_orders_df Hfit).
Defined.

(* ----------------------------------------------------------------- *)
(** *** The transactions of the basket matrix *)

Lemma flagged_labels (cols : list string) (g : string -> Z) (P : Z -> bool) :
  map fst (filter (fun pc => P (snd pc)) (combine cols (map g cols))) =
  filter (fun p => P (g p)) cols.
Proof.
  induction cols as [|p cols IH]; simpl; [reflexivity|].
  destruct (P (g p)); simpl; rewrite IH; reflexivity.
Qed.

Lemma basket_row_products df o :
  no_overflow order_id df ->
  In o (row_labels order_id df) ->
  nodup string_dec
    (map fst (filter (fun pc => (snd pc =? 1)%Z)
                     (combine (columns (prepare_basket_data df))
                              (row_of (prepare_basket_data df) o)))) =
  basket_of df o.
Proof.
  intros Hfit Ho. rewrite (prepare_basket_data_exact df Hfit).
  rewrite (row_of_table _ _
             (fun k => map (fun p => if (0 <? order_quantity df k p)%Z
                                     then 1%Z else 0%Z) (column_labels df)) o Ho).
  cbn [columns].
  rewrite (flagged_labels (column_labels df)
             (fun p => if (0 <? order_quantity df o p)%Z then 1%Z else 0%Z)
             (fun c => (c =? 1)%Z)).
  unfold basket_of.
  rewrite (filter_ext (fun p => ((if (0 <? order_quantity df o p)%Z
                                  then 1%Z else 0%Z) =? 1)%Z)
                      (fun p => (0 <? order_quantity df o p)%Z))
    by (intros p; destruct (0 <? order_quantity df o p)%Z; reflexivity).
  apply nodup_fixed_point. apply NoDup_filter. apply sorted_unique_NoDup.
Qed.

Lemma get_frequent_itemsets_data_prepared df :
  no_overflow order_id df ->
  get_frequent_itemsets_data (prepare_basket_data df) =
  filter nonempty (map (basket_of df) (row_labels order_id df)).
Proof.
  intros Hfit. unfold get_frequent_itemsets_data. cbv zeta.
  change (index (prepare_basket_data df)) with (row_labels order_id df).
  set (products := fun o =>
    nodup string_dec
      (map fst (filter (fun pc => (snd pc =? 1)%Z)
                       (combine (columns (prepare_basket_data df))
                                (row_of (prepare_basket_data df) o))))).
  change (flat_map (fun o => if 0 <? length (products o) then [products o] else [])
                   (row_labels order_id df) =
          filter nonempty (map (basket_of df) (row_labels order_id df))).
  assert (G : forall l, (forall o, In o l -> In o (row_labels order_id df)) ->
    flat_map (fun o => if 0 <? length (products o) then [products o] else []) l =
    filter nonempty (map (basket_of df) l)).
  { induction l as [|o l IH]; intros Hl; [reflexivity|].
    cbn [flat_map map filter].
    rewrite IH by (intros o' Ho'; apply Hl; right; exact Ho').
    unfold products at 1 2.
    rewrite (basket_row_products df o Hfit) by (apply Hl; left; reflexivity).
    destruct (basket_of df o); reflexivity. }
  apply G. auto.
Qed.

(** X3: from the basket matrix of a transaction table in which no sum of
    an order's quantities of a product leaves the [int64] range,
    [get_frequent_itemsets_data] returns, order by order, the products with
    a positive summed quantity in the order, skipping the orders that have
    none: no transaction is empty or repeats a product, and a product
    occurs in a transaction exactly when some order has a positive summed
    quantity of it. *)
Theorem get_frequent_itemsets_data_baskets (df : list Transaction) :
  no_overflow order_id df ->
  get_frequent_itemsets_data (prepare_basket_data df) =
    filter nonempty (map (basket_of df) (row_labels order_id df)) /\
  (forall t, In t (get_frequent_itemsets_data (prepare_basket_data df)) ->
             t <> [] /\ NoDup t) /\
  (forall p, (exists t, In t (get_frequent_itemsets_data (prepare_basket_data df))
                        /\ In p t) <->
             exists o, (0 < order_quantity df o p)%Z).
Proof.
  intros Hfit. rewrite (get_frequent_itemsets_data_prepared df Hfit).
  split; [reflexivity|]. split.
  - intros t Ht. apply filter_In in Ht. destruct Ht as [Ht Hne].
    split; [intros ->; discriminate|].
    apply in_map_iff in Ht. destruct Ht as [o [<- _]].
    unfold basket_of. apply NoDup_filter, sorted_unique_NoDup.
  - intros p. split.
    + intros [t [Ht Hp]]. apply filter_In in Ht. destruct Ht as [Ht _].
      apply in_map_iff in Ht. destruct Ht as [o [<- _]].
      unfold basket_of in Hp. apply filter_In in Hp. destruct Hp as [_ Hp].
      exists o. apply Z.ltb_lt. exact Hp.
    + intros [o Hq]. exists (basket_of df o).
      assert (Hp : In p (basket_of df o)).
      { unfold basket_of. apply filter_In. split; [|apply Z.ltb_lt; exact Hq].
        unfold order_quantity in Hq.
        destruct (group order_id df o p) as [|t g] eqn:E; [simpl in Hq; lia|].
        assert (Ht : In t (group order_id df o p)) by (rewrite E; left; reflexivity).
        apply group_In in Ht. apply column_labels_In. exists t. tauto. }
      split; [|exact Hp]. apply filter_In. split.
      * apply in_map. eapply order_quantity_pos_row. exact Hq.
      * destruct (basket_of df o); [destruct Hp | reflexivity].
Qed.

Lemma get_frequent_itemsets_data_baskets_witness :
  no_overflow order_id two_orders_df /\
  get_frequent_itemsets_data (prepare_basket_data two_orders_df) =
    [["A"; "B"]; ["A"]] /\
  get_frequent_itemsets_data (prepare_basket_data two_orders_df) =
    filter nonempty (map (basket_of two_orders_df) (row_labels order_id two_orders_df)) /\
  (forall t, In t (get_frequent_itemsets_data (prepare_basket_data two_orders_df)) ->
             t <> [] /\ NoDup t) /\
  (forall p, (exists t, In t (get_frequent_itemsets_data
                               (prepare_basket_data two_orders_df))
                        /\ In p t) <->
             exists o, (0 < order_quantity two_orders_df o p)%Z).
Proof.
  assert (Hfit : no_overflow order_id two_orders_df).
  { apply small_table_no_overflow. reflexivity. }
  split; [exact Hfit|]. split; [vm_compute; reflexivity|].
  apply (get_frequent_itemsets_data_baskets two_orders_df Hfit).
Defined.

(* ----------------------------------------------------------------- *)
(** *** The filter of sparse users and items *)

Lemma loc_rows_masked frame min_user :
  well_formed frame ->
  loc_rows frame (masked (row_mask frame min_user) (index frame)) =
  {| index := masked (row_mask frame min_user) (index frame);
     columns := columns frame;
     values := masked (row_mask frame min_user) (values frame) |}.
Proof.
  intros (Hi & Hc & Hlen & Hrows). unfold loc_rows, labelled.
  rewrite (select_masked Z.eqb _ _ _ Z.eqb_eq Hi), masked_combine.
  rewrite map_fst_combine_eq, map_snd_combine_eq by (apply masked_length; lia).
  reflexivity.
Qed.

Lemma filtered_well_formed frame (rm cm : list bool) :
  well_formed frame ->
  well_formed {| index := masked rm (index frame);
                 columns := masked cm (columns frame);
                 values := map (masked cm) (masked rm (values frame)) |}.
Proof.
  intros (Hi & Hc & Hlen & Hrows). repeat split; cbn [index columns values].
  - apply masked_NoDup, Hi.
  - apply masked_NoDup, Hc.
  - rewrite length_map. apply masked_length. exact Hlen.
  - apply Forall_forall. intros row' Hrow'. apply in_map_iff in Hrow'.
    destruct Hrow' as [row [<- Hrow]]. apply masked_In in Hrow.
    apply masked_length. rewrite Forall_forall in Hrows. apply Hrows. exact Hrow.
Qed.

Lemma In_combine_map_r {K A B} (f : A -> B) (ks : list K) (vs : list A) k y :
  In (k, y) (combine ks (map f vs)) ->
  exists v, y = f v /\ In (k, v) (combine ks vs).
Proof.
  revert vs. induction ks as [|k0 ks IH]; intros [|v0 vs] H; simpl in H;
    try contradiction.
  destruct H as [H|H].
  - inversion H; subst. exists v0. split; [reflexivity | left; reflexivity].
  - destruct (IH vs H) as [v [Hy Hv]]. exists v. split; [exact Hy | right; exact Hv].
Qed.

Lemma filtered_cell frame (rm cm : list bool) k p c :
  well_formed frame ->
  loc {| index := masked rm (index frame);
         columns := masked cm (columns frame);
         values := map (masked cm) (masked rm (values frame)) |} k p = Some c ->
  loc frame k p = Some c.
Proof.
  intros Hwf H. pose proof (filtered_well_formed frame rm cm Hwf) as (Hi' & Hc' & _).
  destruct Hwf as (Hi & Hc & Hlen & Hrows).
  apply (loc_In _ k p c Hi' Hc') in H. cbn [index columns values] in H.
  destruct H as [row' [Hk Hp]].
  apply In_combine_map_r in Hk. destruct Hk as [row [-> Hk]].
  rewrite <- masked_combine in Hk. rewrite <- masked_combine in Hp.
  apply masked_In in Hk. apply masked_In in Hp.
  apply (loc_In frame k p c Hi Hc). exists row. split; assumption.
Qed.

Lemma row_of_nth frame k i :
  NoDup (index frame) -> nth_error (index frame) i = Some k ->
  row_of frame k = nth i (values frame) [].
Proof.
  intros Hnd Hi. unfold row_of.
  rewrite (index_of_first Z.eqb _ k i Z.eqb_eq Hnd Hi). reflexivity.
Qed.

Lemma kept_row frame min_user k :
  well_formed frame ->
  (In k (masked (row_mask frame min_user) (index frame)) <->
   In k (index frame) /\ (min_user <= count_positive (row_of frame k))%Z).
Proof.
  intros (Hi & Hc & Hlen & Hrows). rewrite masked_In_iff. unfold row_mask. split.
  - intros [i [Hk Hm]]. split; [eapply nth_error_In; exact Hk|].
    rewrite (row_of_nth frame k i Hi Hk).
    rewrite nth_error_map in Hm.
    destruct (nth_error (values frame) i) as [row|] eqn:Er; [|discriminate].
    simpl in Hm. inversion Hm as [Hle]. apply Z.leb_le in Hle.
    rewrite (nth_error_nth _ _ [] Er). exact Hle.
  - intros [Hk Hle]. apply In_nth_error in Hk. destruct Hk as [i Hk].
    exists i. split; [exact Hk|].
    rewrite (row_of_nth frame k i Hi Hk) in Hle.
    assert (Hlt : i < length (values frame)).
    { rewrite Hlen. apply nth_error_Some. congruence. }
    rewrite nth_error_map.
    destruct (nth_error (values frame) i) as [row|] eqn:Er.
    + simpl. rewrite (nth_error_nth _ _ [] Er) in Hle.
      apply Z.leb_le in Hle. rewrite Hle. reflexivity.
    + apply nth_error_None in Er. lia.
Qed.

Lemma column_mask_nth frame min_user min_item j :
  j < length (columns frame) ->
  nth_error (column_mask frame min_user min_item) j =
  Some (min_item <=?
        count_positive (map (fun row => nth j row 0%Z)
                            (masked (row_mask frame min_user) (values frame))))%Z.
Proof.
  intros Hj. unfold column_mask. rewrite nth_error_map.
  rewrite (nth_error_nth' _ 0) by (rewrite length_seq; exact Hj).
  rewrite seq_nth by exact Hj. reflexivity.
Qed.

Lemma kept_column frame min_user min_item p :
  well_formed frame ->
  (In p (masked (column_mask frame min_user min_item) (columns frame)) <->
   exists j, nth_error (columns frame) j = Some p /\
     (min_item <=
      count_positive
        (column (loc_rows frame (masked (row_mask frame min_user) (index frame))) j))%Z).
Proof.
  intros Hwf. rewrite (loc_rows_masked frame min_user Hwf).
  unfold column. cbn [values]. rewrite masked_In_iff.
  split; intros [j [Hp Hm]]; exists j; (split; [exact Hp|]);
    assert (Hj : j < length (columns frame)) by (apply nth_error_Some; congruence);
    rewrite (column_mask_nth frame min_user min_item j Hj) in *.
  - injection Hm as Hle. apply Z.leb_le. exact Hle.
  - apply Z.leb_le in Hm. rewrite Hm. reflexivity.
Qed.

(** X4: on a frame with distinct labels, [filter_sparse_users_items] keeps
    the rows with at least [min_user_interactions] positive cells and then
    the columns with at least [min_item_interactions] positive cells among
    the kept rows; the cells of the result are the cells of the frame; and
    the result has distinct labels again. *)
Theorem filter_sparse_users_items_cells (frame : DataFrame)
  (min_user_interactions min_item_interactions : Z) :
  well_formed frame ->
  let filtered :=
    filter_sparse_users_items frame min_user_interactions min_item_interactions in
  well_formed filtered /\
  (forall k, In k (index filtered) <->
     In k (index frame) /\
     (min_user_interactions <= count_positive (row_of frame k))%Z) /\
  (forall p, In p (columns filtered) <->
     exists j, nth_error (columns frame) j = Some p /\
       (min_item_interactions <=
        count_positive (column (loc_rows frame (index filtered)) j))%Z) /\
  (forall k p, In k (index filtered) -> In p (columns filtered) ->
     loc filtered k p = loc frame k p).
Proof.
  intros Hwf filtered. unfold filtered.
  rewrite (filter_sparse_positional frame _ _ Hwf). cbn [index columns].
  split; [apply filtered_well_formed; exact Hwf|].
  split; [intros k; apply kept_row; exact Hwf|].
  split; [intros p; apply kept_column; exact Hwf|].
  intros k p Hk Hp.
  destruct (loc_defined _ k p (filtered_well_formed frame _ _ Hwf) Hk Hp) as [c Hc].
  rewrite Hc. symmetry. eapply filtered_cell; eassumption.
Qed.

Lemma count_positive_In (cells : list Z) c :
  In c cells -> (0 < c)%Z -> (1 <= count_positive cells)%Z.
Proof.
  intros Hin Hpos. unfold count_positive.
  assert (H : In c (filter (fun x => (0 <? x)%Z) cells)).
  { apply filter_In. split; [exact Hin | apply Z.ltb_lt; exact Hpos]. }
  destruct (filter (fun x => (0 <? x)%Z) cells); [destruct H|]. simpl. lia.
Qed.

Lemma masked_keeps_positive (m : list bool) (row : list Z) :
  length m = length row ->
  (forall j, j < length row -> (0 < nth j row 0)%Z -> nth j m false = true) ->
  filter (fun c => (0 <? c)%Z) (masked m row) = filter (fun c => (0 <? c)%Z) row.
Proof.
  revert row. induction m as [|b m IH]; intros [|x row] Hlen H; simpl in *;
    try reflexivity; try discriminate.
  assert (IH' : filter (fun c => (0 <? c)%Z) (masked m row) =
                filter (fun c => (0 <? c)%Z) row).
  { apply IH; [lia|]. intros j Hj Hpos. apply (H (S j)); [lia | exact Hpos]. }
  destruct b; simpl; rewrite IH'; [reflexivity|].
  destruct (0 <? x)%Z eqn:E; [|reflexivity].
  apply Z.ltb_lt in E. specialize (H 0 ltac:(lia) E). discriminate.
Qed.

(** X5: when [min_item_interactions] is at most 1, as by default, every
    row of the result still has at least [min_user_interactions] positive
    cells: dropping the columns takes no positive cell from a kept row. *)
Theorem filter_sparse_users_items_rows (frame : DataFrame)
  (min_user_interactions min_item_interactions : Z) (row : list Z) :
  well_formed frame ->
  (min_item_interactions <= 1)%Z ->
  In row (values (filter_sparse_users_items frame min_user_interactions
                                            min_item_interactions)) ->
  (min_user_interactions <= count_positive row)%Z.
Proof.
  intros Hwf Hmin. rewrite (filter_sparse_positional frame _ _ Hwf).
  cbn [values]. rewrite in_map_iff. intros [row0 [<- Hrow]].
  destruct Hwf as (Hi & Hc & Hlen & Hrows).
  assert (Hkept : (min_user_interactions <= count_positive row0)%Z).
  { pose proof Hrow as Hrow'. apply masked_In_iff in Hrow'.
    destruct Hrow' as [i [Hv Hm]].
    unfold row_mask in Hm. rewrite nth_error_map, Hv in Hm. simpl in Hm.
    injection Hm as Hle. apply Z.leb_le. exact Hle. }
  assert (Hlen0 : length row0 = length (columns frame)).
  { rewrite Forall_forall in Hrows. apply Hrows. eapply masked_In. exact Hrow. }
  unfold count_positive at 1. rewrite masked_keeps_positive.
  - exact Hkept.
  - unfold column_mask. rewrite length_map, length_seq. symmetry. exact Hlen0.
  - intros j Hj Hpos.
    assert (Hj' : j < length (columns frame)) by lia.
    pose proof (column_mask_nth frame min_user_interactions min_item_interactions
                  j Hj') as Hnth.
    rewrite (nth_error_nth _ _ false Hnth). apply Z.leb_le.
    assert (H1 : (1 <= count_positive
                        (map (fun r => nth j r 0%Z)
                             (masked (row_mask frame min_user_interactions)
                                     (values frame))))%Z).
    { apply (count_positive_In _ (nth j row0 0%Z)); [|exact Hpos].
      apply in_map_iff. exists row0. split; [reflexivity | exact Hrow]. }
    lia.
Qed.

Lemma filter_sparse_users_items_rows_witness :
  well_formed RecommenderProperties.paired_matrix /\
  filter_sparse_users_items RecommenderProperties.paired_matrix 2 1 =
    {| index := [2%Z]; columns := ["A"; "B"]; values := [[3%Z; 4%Z]] |} /\
  (2 <= count_positive [3%Z; 4%Z])%Z.
Proof.
  assert (Hwf : well_formed RecommenderProperties.paired_matrix).
  { apply (quantity_matrix_well_formed RecommenderProperties.paired_df). }
  split; [exact Hwf|]. split; [reflexivity|].
  apply (filter_sparse_users_items_rows RecommenderProperties.paired_matrix 2 1
           [3%Z; 4%Z] Hwf).
  - lia.
  - left. reflexivity.
Defined.

Lemma filter_sparse_users_items_cells_witness :
  let filtered := filter_sparse_users_items RecommenderProperties.paired_matrix 2 1 in
  well_formed filtered /\
  (forall k, In k (index filtered) <->
     In k (index RecommenderProperties.paired_matrix) /\
     (2 <= count_positive (row_of RecommenderProperties.paired_matrix k))%Z) /\
  (forall p, In p (columns filtered) <->
     exists j, nth_error (columns RecommenderProperties.paired_matrix) j = Some p /\
       (1 <= count_positive
               (column (loc_rows RecommenderProperties.paired_matrix
                                 (index filtered)) j))%Z) /\
  (forall k p, In k (index filtered) -> In p (columns filtered) ->
     loc filtered k p = loc RecommenderProperties.paired_matrix k p).
Proof.
  apply (filter_sparse_users_items_cells RecommenderProperties.paired_matrix 2 1).
  apply (quantity_matrix_well_formed RecommenderProperties.paired_df).
Defined.

End Frames.

(* ================================================================= *)
(** ** [src/utils.py] and [src/data_loader.py]: metrics of the
       transaction table *)

Module Utils.
Import Py Preprocessing.

(** [series.nunique()]. *)
Definition nunique {A} (eq_dec : forall x y : A, {x = y} + {x <> y})
  (l : list A) : nat :=
  length (nodup eq_dec l).

(** [validate_customer_id]: [customer_id in df['customer_id'].values]. *)
Definition validate_customer_id (df : list Transaction) (customer : Z) : bool :=
  existsb (Z.eqb customer) (map customer_id df).

(** [df.groupby('order_id')['quantity'].sum()]: one [int64] sum per
    order. *)
Definition order_sums (df : list Transaction) : list Z :=
  map (fun o => sum_int64 (map quantity (filter (fun t => (order_id t =? o)%Z) df)))
      (row_labels order_id df).

(** The sum of the quantities of the records of a product, without
    wrap-around. *)
Definition product_total (df : list Transaction) (p : string) : Z :=
  sumZ (map quantity (filter (fun t => (product t =? p)%string) df)).

(** [df.groupby('product')['quantity'].sum()]: one [int64] sum per
    product. *)
Definition product_sums (df : list Transaction) : list (string * Z) :=
  map (fun p => (p, sum_int64 (map quantity
                                   (filter (fun t => (product t =? p)%string) df))))
      (column_labels df).

(** [series.mean()]: NaN ([None]) on an empty series; on a series with
    values, the mean before its rounding to [float64]. *)
Definition mean (l : list Z) : option Q :=
  match l with
  | [] => None
  | _ => Some (inject_Z (sumZ l) / inject_Z (Z.of_nat (length l)))%Q
  end.

(** The dictionary of [calculate_basic_metrics]. *)
Record Metrics := {
  total_orders : nat;
  total_customers : nat;
  total_products : nat;
  total_transactions : nat;
  avg_items_per_order : option Q;
  top_products : list (string * Z)
}.

(** The dictionary of [get_product_stats]. *)
Record ProductStats := {
  stats_total_orders : nat;
  stats_total_quantity : Z;
  stats_unique_customers : nat;
  stats_avg_quantity_per_order : option Q
}.

Section Metrics.
Context {sorter : ArgSort}.

(** [calculate_basic_metrics]. *)
Definition calculate_basic_metrics (df : list Transaction) : Metrics :=
  {| total_orders := nunique Z.eq_dec (map order_id df);
     total_customers := nunique Z.eq_dec (map customer_id df);
     total_products := nunique string_dec (map product df);
     total_transactions := length df;
     avg_items_per_order := mean (order_sums df);
     top_products :=
       let sums := product_sums df in
       (* .sort_values(ascending=False).head(10).to_dict() *)
       let order := argsort (fun a b => (b <=? a)%Z) (map snd sums) in
       map (fun i => nth i sums ("", 0%Z)) (firstn 10 order) |}.

End Metrics.

(** [get_product_stats]. *)
Definition get_product_stats (df : list Transaction) (p : string) : ProductStats :=
  let product_df := filter (fun t => (product t =? p)%string) df in
  {| stats_total_orders := nunique Z.eq_dec (map order_id product_df);
     stats_total_quantity := sum_int64 (map quantity product_df);
     stats_unique_customers := nunique Z.eq_dec (map customer_id product_df);
     stats_avg_quantity_per_order := mean (order_sums product_df) |}.

(** No product total of the table leaves the [int64] range. *)
Definition product_totals_fit (df : list Transaction) : Prop :=
  forall p, in_int64 (product_total df p).

(* ----------------------------------------------------------------- *)
(** *** Counts and totals *)

Lemma nunique_row_labels key df :
  nunique Z.eq_dec (map key df) = length (row_labels key df).
Proof.
  unfold nunique, row_labels, sorted_unique.
  apply Permutation_length, Permutation_sym, isort_perm.
Qed.

Lemma nunique_column_labels df :
  nunique string_dec (map product df) = length (column_labels df).
Proof.
  unfold nunique, column_labels, sorted_unique.
  apply Permutation_length, Permutation_sym, isort_perm.
Qed.

Lemma row_labels_nonempty key df : row_labels key df = [] <-> df = [].
Proof.
  split; intros H; [|subst; reflexivity].
  destruct df as [|t df]; [reflexivity|].
  assert (Hin : In (key t) (row_labels key (t :: df))).
  { apply row_labels_In. exists t. split; [left|]; reflexivity. }
  rewrite H in Hin. destruct Hin.
Qed.

Lemma mean_None (l : list Z) : mean l = None <-> l = [].
Proof. destruct l; simpl; split; congruence. Qed.

Lemma order_sums_nil df : order_sums df = [] <-> df = [].
Proof.
  unfold order_sums. split.
  - intros H. apply map_eq_nil in H. apply (row_labels_nonempty order_id). exact H.
  - intros ->. reflexivity.
Qed.

Lemma nunique_filter_le {A} eq_dec (f : A -> Z) (P : A -> bool) l :
  nunique eq_dec (map f (filter P l)) <= nunique eq_dec (map f l).
Proof.
  unfold nunique. apply NoDup_incl_length; [apply NoDup_nodup|].
  intros x Hx. apply nodup_In in Hx. apply nodup_In.
  apply in_map_iff in Hx. destruct Hx as [t [<- Ht]].
  apply filter_In in Ht. apply in_map. tauto.
Qed.

Lemma small_table_product_totals df : small_table df = true -> product_totals_fit df.
Proof. intros H p. apply small_table_part. exact H. Qed.

(** A column of the quantity matrix adds up to the total of its product. *)
Lemma column_total df j p :
  no_overflow customer_id df ->
  nth_error (column_labels df) j = Some p ->
  Recommender.total_quantity (prepare_user_item_matrix df) j = product_total df p.
Proof.
  intros Hfit Hj. rewrite (prepare_user_item_matrix_exact df Hfit).
  unfold Recommender.total_quantity. simpl. rewrite map_map.
  assert (Hlt : j < length (column_labels df)).
  { apply nth_error_Some. rewrite Hj. discriminate. }
  rewrite (map_ext _ (fun c => customer_quantity df c p)).
  - unfold customer_quantity, group, product_total.
    apply (Frames.sum_by_key Z.eqb customer_id (fun t => (product t =? p)%string) df
             (row_labels customer_id df) Frames.Z_eqb_iff
             (sorted_unique_NoDup _ _ _)).
    intros t Ht _. apply row_labels_In. exists t. auto.
  - intros c.
    rewrite (nth_map_in (fun p0 => customer_quantity df c p0) _ 0%Z ""%string) by exact Hlt.
    f_equal. apply nth_error_nth. exact Hj.
Qed.

Lemma NoDup_map_nth {A} (l : list A) (d : A) (idxs : list nat) :
  NoDup l -> NoDup idxs -> (forall i, In i idxs -> i < length l) ->
  NoDup (map (fun i => nth i l d) idxs).
Proof.
  intros Hl Hi. induction Hi as [|i idxs Hnot Hi IH]; intros Hlt; simpl; constructor.
  - intros Hin. apply in_map_iff in Hin. destruct Hin as [k [Hk Hin]].
    assert (k = i).
    { apply (proj1 (NoDup_nth l d) Hl); [apply Hlt; right; exact Hin
                                       | apply Hlt; left; reflexivity | exact Hk]. }
    subst k. contradiction.
  - apply IH. intros k Hk. apply Hlt. right. exact Hk.
Qed.

(* ----------------------------------------------------------------- *)
(** *** Properties *)

(** X6: on a table whose sums stay within [int64] (the sums of a
    customer's quantities of a product, and the total of the product), the
    column of a product in the customer-by-product matrix adds up to the
    sum of the quantities of all records of the product; this is the score
    that the cold-start ranking computes for the column with
    [sum(axis=0)], and the [total_quantity] that [get_product_stats]
    reports for the product. *)
Theorem popularity_is_product_total (df : list Transaction) (j : nat) :
  no_overflow customer_id df ->
  j < length (columns (prepare_user_item_matrix df)) ->
  let M := prepare_user_item_matrix df in
  let p := nth j (columns M) "" in
  in_int64 (product_total df p) ->
  Recommender.total_quantity M j = product_total df p /\
  nth j (Recommender.column_sums (length (columns M)) (values M)) 0%Z
    = product_total df p /\
  stats_total_quantity (get_product_stats df p) = product_total df p.
Proof.
  intros Hfit Hj M p Hp.
  assert (Hcol : nth_error (column_labels df) j = Some p).
  { unfold p. apply nth_error_nth'. exact Hj. }
  pose proof (column_total df j p Hfit Hcol) as Ht. fold M in Ht.
  split; [exact Ht|]. split.
  - rewrite <- Ht. apply RecommenderProperties.column_sums_nth; [exact Hj|].
    rewrite Ht. exact Hp.
  - unfold get_product_stats. cbn [stats_total_quantity].
    apply sum_int64_exact. exact Hp.
Qed.

Lemma popularity_is_product_total_witness :
  no_overflow customer_id RecommenderProperties.paired_df /\
  Recommender.total_quantity
    (prepare_user_item_matrix RecommenderProperties.paired_df) 0 = 7%Z /\
  nth 0 (Recommender.column_sums 2
           (values (prepare_user_item_matrix RecommenderProperties.paired_df))) 0%Z
    = 7%Z /\
  stats_total_quantity (get_product_stats RecommenderProperties.paired_df "A") = 7%Z.
Proof.
  assert (Hfit : no_overflow customer_id RecommenderProperties.paired_df).
  { apply small_table_no_overflow. reflexivity. }
  split; [exact Hfit|].
  apply (popularity_is_product_total RecommenderProperties.paired_df 0 Hfit).
  - vm_compute. lia.
  - apply small_table_product_totals. reflexivity.
Defined.

(** X7: the counts of [calculate_basic_metrics] are the dimensions of the
    two matrices built from the same table: [total_orders] is the number of
    rows of the basket matrix, [total_customers] the number of rows of the
    quantity matrix and [total_products] their number of columns;
    [total_transactions] is the number of records; and the average of
    items per order is NaN exactly on the empty table. *)
Theorem calculate_basic_metrics_counts {sorter : ArgSort} (df : list Transaction) :
  let m := calculate_basic_metrics df in
  total_orders m = length (index (prepare_basket_data df)) /\
  total_customers m = length (index (prepare_user_item_matrix df)) /\
  total_products m = length (columns (prepare_user_item_matrix df)) /\
  total_products m = length (columns (prepare_basket_data df)) /\
  total_transactions m = length df /\
  (avg_items_per_order m = None <-> df = []).
Proof.
  intros m. unfold m. cbn [calculate_basic_metrics total_orders total_customers
    total_products total_transactions avg_items_per_order index columns
    prepare_basket_data prepare_user_item_matrix].
  split; [apply nunique_row_labels|].
  split; [apply nunique_row_labels|].
  split; [apply nunique_column_labels|].
  split; [apply nunique_column_labels|].
  split; [reflexivity|].
  rewrite mean_None. apply order_sums_nil.
Qed.

(** X8: on a table whose product totals stay within [int64],
    [top_products] of [calculate_basic_metrics] lists distinct products of
    the table, ten of them or all when there are fewer, each with the sum
    of the quantities of its records, in descending order of that sum; no
    product left out has a larger sum than one listed. *)
Theorem top_products_ranking {sorter : ArgSort} (df : list Transaction) :
  product_totals_fit df ->
  let top := top_products (calculate_basic_metrics df) in
  length top = Nat.min 10 (length (column_labels df)) /\
  NoDup (map fst top) /\
  (forall p q, In (p, q) top ->
     (exists t, In t df /\ product t = p) /\ q = product_total df p) /\
  StronglySorted (fun a b => (snd b <= snd a)%Z) top /\
  (forall p q t, In (p, q) top -> In t df -> ~ In (product t) (map fst top) ->
     (product_total df (product t) <= q)%Z).
Proof.
  intros Hfit top. unfold top, calculate_basic_metrics. cbn [top_products]. cbv zeta.
  set (sums := product_sums df).
  set (order := argsort (fun a b => (b <=? a)%Z) (map snd sums)).
  assert (Hsums : sums = map (fun p => (p, product_total df p)) (column_labels df)).
  { unfold sums, product_sums. apply map_ext. intros p. f_equal.
    apply sum_int64_exact. apply Hfit. }
  assert (Hlen : length sums = length (column_labels df)).
  { rewrite Hsums. apply length_map. }
  assert (Hord : forall i, In i order <-> i < length sums).
  { intros i. unfold order. rewrite Recommender.argsort_In, length_map. tauto. }
  assert (Hin : forall i, In i (firstn 10 order) -> i < length sums).
  { intros i Hi. apply Hord. eapply Recommender.In_firstn. exact Hi. }
  assert (Hentry : forall i, i < length sums ->
            nth i sums ("", 0%Z) =
            (nth i (column_labels df) "", product_total df (nth i (column_labels df) ""))).
  { intros i Hi. rewrite Hsums.
    apply (nth_map_in (fun p => (p, product_total df p)) _ ("", 0%Z) "").
    rewrite <- Hlen. exact Hi. }
  assert (Hsnd : forall i, nth i (map snd sums) 0%Z = snd (nth i sums ("", 0%Z))).
  { intros i. apply (nth_map_default snd sums 0%Z ("", 0%Z)). reflexivity. }
  assert (Hsorted : StronglySorted
            (fun a b => (snd (nth b sums ("", 0%Z)) <= snd (nth a sums ("", 0%Z)))%Z) order).
  { apply RecommenderProperties.StronglySorted_weaken
      with (R := fun a b => (nth b (map snd sums) 0 <=? nth a (map snd sums) 0)%Z = true).
    - intros a b _ _ Hab. apply Z.leb_le in Hab. rewrite !Hsnd in Hab. exact Hab.
    - apply RecommenderProperties.StronglySorted_map_inv
        with (R := fun x y => (y <=? x)%Z = true)
             (f := fun i => nth i (map snd sums) 0%Z).
      apply (argsort_sorted Z (fun a b => (b <=? a)%Z) (map snd sums) 0%Z).
      exact RecommenderProperties.descending_total_preorder. }
  assert (Hnames : map fst (map (fun i => nth i sums ("", 0%Z)) (firstn 10 order))
                   = map (fun i => nth i (column_labels df) "") (firstn 10 order)).
  { rewrite map_map. apply map_ext_in. intros i Hi.
    rewrite (Hentry i (Hin i Hi)). reflexivity. }
  split; [|split; [|split; [|split]]].
  - rewrite length_map, length_firstn. unfold order.
    rewrite Recommender.argsort_length, length_map, Hlen. reflexivity.
  - rewrite Hnames. apply NoDup_map_nth.
    + apply column_labels_NoDup.
    + apply RecommenderProperties.NoDup_firstn, Recommender.argsort_NoDup.
    + intros i Hi. rewrite <- Hlen. apply Hin. exact Hi.
  - intros p q Hpq. apply in_map_iff in Hpq. destruct Hpq as [i [Hi Hio]].
    rewrite (Hentry i (Hin i Hio)) in Hi. injection Hi as <- <-.
    split; [|reflexivity].
    apply column_labels_In. apply nth_In. rewrite <- Hlen. apply Hin. exact Hio.
  - apply (StronglySorted_map (fun a b => (snd b <= snd a)%Z)
                              (fun i => nth i sums ("", 0%Z))).
    apply RecommenderProperties.StronglySorted_firstn. exact Hsorted.
  - intros p q t Hpq Ht Hout.
    apply in_map_iff in Hpq. destruct Hpq as [i [Hi Hio]].
    assert (Hcol : In (product t) (column_labels df)).
    { apply column_labels_In. exists t. auto. }
    destruct (In_nth _ _ "" Hcol) as [k [Hk Hnk]].
    assert (Hko : In k order) by (apply Hord; rewrite Hlen; exact Hk).
    assert (Hkout : ~ In k (firstn 10 order)).
    { intros Hkin. apply Hout. rewrite Hnames. apply in_map_iff.
      exists k. split; [exact Hnk | exact Hkin]. }
    rewrite <- (firstn_skipn 10 order) in Hko, Hsorted.
    apply in_app_or in Hko. destruct Hko as [Hko|Hko]; [contradiction|].
    pose proof (RecommenderProperties.StronglySorted_app_inv _ _ _ i k Hsorted Hio Hko)
      as Hik.
    simpl in Hik. rewrite Hi in Hik.
    rewrite (Hentry k) in Hik by (rewrite Hlen; exact Hk).
    rewrite Hnk in Hik. exact Hik.
Qed.

Lemma top_products_ranking_witness :
  product_totals_fit RecommenderProperties.paired_df /\
  top_products (calculate_basic_metrics (sorter := stable_argsort)
                  RecommenderProperties.paired_df) = [("A", 7%Z); ("B", 4%Z)] /\
  let top := top_products (calculate_basic_metrics (sorter := stable_argsort)
                             RecommenderProperties.paired_df) in
  length top = Nat.min 10 (length (column_labels RecommenderProperties.paired_df)) /\
  NoDup (map fst top) /\
  (forall p q, In (p, q) top ->
     (exists t, In t RecommenderProperties.paired_df /\ product t = p) /\
     q = product_total RecommenderProperties.paired_df p) /\
  StronglySorted (fun a b => (snd b <= snd a)%Z) top /\
  (forall p q t, In (p, q) top -> In t RecommenderProperties.paired_df ->
     ~ In (product t) (map fst top) ->
     (product_total RecommenderProperties.paired_df (product t) <= q)%Z).
Proof.
  assert (Hfit : product_totals_fit RecommenderProperties.paired_df).
  { apply small_table_product_totals. reflexivity. }
  split; [exact Hfit|]. split; [vm_compute; reflexivity|].
  apply (top_products_ranking (sorter := stable_argsort)
           RecommenderProperties.paired_df Hfit).
Defined.

(** X9: [get_product_stats] of a product without records is all zeros
    with a NaN average; for any product its counts of orders and of
    customers are at most those that [calculate_basic_metrics] gives for
    the whole table, and its average quantity per order is NaN exactly when
    the product has no record. *)
Theorem get_product_stats_totals {sorter : ArgSort} (df : list Transaction)
  (p : string) :
  let s := get_product_stats df p in
  let m := calculate_basic_metrics df in
  ((forall t, In t df -> product t <> p) ->
     s = {| stats_total_orders := 0; stats_total_quantity := 0;
            stats_unique_customers := 0; stats_avg_quantity_per_order := None |}) /\
  stats_total_orders s <= total_orders m /\
  stats_unique_customers s <= total_customers m /\
  (stats_avg_quantity_per_order s = None <-> forall t, In t df -> product t <> p).
Proof.
  intros s m. unfold s, m, get_product_stats.
  cbn [stats_total_orders stats_unique_customers stats_avg_quantity_per_order
       calculate_basic_metrics total_orders total_customers].
  set (product_df := filter (fun t => (product t =? p)%string) df).
  assert (Hnil : product_df = [] <-> forall t, In t df -> product t <> p).
  { split.
    - intros H t Ht Hp.
      assert (Hin : In t product_df).
      { apply filter_In. split; [exact Ht|]. apply String.eqb_eq. exact Hp. }
      rewrite H in Hin. destruct Hin.
    - intros H. destruct product_df as [|t l] eqn:E; [reflexivity|].
      assert (Hin : In t product_df) by (rewrite E; left; reflexivity).
      apply filter_In in Hin. destruct Hin as [Hin Hp].
      apply String.eqb_eq in Hp. exfalso. exact (H t Hin Hp). }
  split; [|split; [|split]].
  - intros H. apply Hnil in H. rewrite H. reflexivity.
  - apply nunique_filter_le.
  - apply nunique_filter_le.
  - rewrite <- Hnil, mean_None. apply order_sums_nil.
Qed.

(** X10: [validate_customer_id] accepts exactly the customers that are
    rows of the quantity matrix of the same table; a customer it rejects
    gets the cold-start ranking from an engine holding that matrix. *)
Theorem validate_customer_id_rows {sorter : ArgSort} (df : list Transaction)
  (e : Recommender.RecommenderEngine) (customer : Z) (n : option nat) :
  Recommender.user_item_matrix e = Some (prepare_user_item_matrix df) ->
  (validate_customer_id df customer = true <->
     In customer (index (prepare_user_item_matrix df))) /\
  (validate_customer_id df customer = false ->
     Recommender.get_user_recommendations e customer n =
     Ok (Recommender._get_cold_start_recommendations e (Recommender.requested e n))).
Proof.
  intros HM.
  assert (Hiff : validate_customer_id df customer = true <->
                 In customer (index (prepare_user_item_matrix df))).
  { unfold validate_customer_id. simpl. rewrite existsb_exists, row_labels_In.
    split.
    - intros [c [Hc Heq]]. apply Z.eqb_eq in Heq. subst c.
      apply in_map_iff in Hc. destruct Hc as [t [Ht Hin]]. exists t. auto.
    - intros [t [Ht Hc]]. exists customer. split; [|apply Z.eqb_refl].
      rewrite <- Hc. apply in_map. exact Ht. }
  split; [exact Hiff|].
  intros Hfalse. unfold Recommender.get_user_recommendations. rewrite HM.
  rewrite (RecommenderProperties.index_of_not_In _ _ _ Z_eqb_true); [reflexivity|].
  intros Hin. apply Hiff in Hin. congruence.
Qed.

Lemma validate_customer_id_rows_witness :
  Recommender.user_item_matrix RecommenderProperties.paired_engine
    = Some (prepare_user_item_matrix RecommenderProperties.paired_df) /\
  (validate_customer_id RecommenderProperties.paired_df 9 = false ->
   Recommender.get_user_recommendations RecommenderProperties.paired_engine 9 (Some 1)
   = Ok (Recommender._get_cold_start_recommendations
           RecommenderProperties.paired_engine 1)).
Proof.
  assert (HM : Recommender.user_item_matrix RecommenderProperties.paired_engine
               = Some (prepare_user_item_matrix RecommenderProperties.paired_df)).
  { vm_compute. reflexivity. }
  split; [exact HM|].
  exact (proj2 (validate_customer_id_rows RecommenderProperties.paired_df
                  RecommenderProperties.paired_engine 9 (Some 1) HM)).
Defined.

End Utils.

(* ================================================================= *)
(** ** [src/mba_engine.py]: the rule queries on a fitted engine *)

Module RuleQueries.
Import Py MBA.

(** The rule table of an engine; empty before [fit]. *)
Definition rules_of_engine (e : MBAEngine) : list Rule :=
  match rules e with Some rs => rs | None => [] end.


(** The dictionary that [get_product_recommendations] builds for a
    consequent of a rule. *)
Definition candidate (rule : Rule) (consequent : string) : ProductRecommendation :=
  {| rec_product := consequent;
     rec_confidence := confidence rule;
     rec_lift := lift rule;
     rec_support := support rule |}.

(** What a rule offers for a product: its consequents other than the
    product itself. *)
Definition offers (p : string) (rule : Rule) : list ProductRecommendation :=
  map (candidate rule) (filter (fun c => negb (c =? p)%string) (consequents rule)).

(** The candidates whose product was not seen before, each product once. *)
Fixpoint keep_first (seen : list string) (l : list ProductRecommendation)
  : list ProductRecommendation :=
  match l with
  | [] => []
  | r :: t =>
      if seen_in (rec_product r) seen then keep_first seen t
      else r :: keep_first (rec_product r :: seen) t
  end.

(** The rules whose antecedents contain the product. *)
Definition product_rules (p : string) (rs : list Rule) : list Rule :=
  filter (fun r => existsb (String.eqb p) (antecedents r)) rs.

(** The pair that [get_frequently_bought_together] builds for a rule from
    one product to one product. *)
Definition pair_of (rule : Rule) : list Pair :=
  match antecedents rule, consequents rule with
  | [a], [b] => [ {| product_a := a; product_b := b;
                     pair_confidence := confidence rule;
                     pair_lift := lift rule;
                     pair_support := support rule |} ]
  | _, _ => []
  end.


(** [product_rules.sort_values('lift', ascending=False)]. *)
Definition ranked {sorter : ArgSort} (l : list Rule) : list Rule :=
  flat_map (fun i => match nth_error l i with Some r => [r] | None => [] end)
           (argsort (fun a b => Qle_bool b a) (map lift l)).

(** The order of a ranking: descending when [reverse], else ascending. *)
Definition ordered {B} (key : B -> Q) (reverse : bool) (a b : B) : Prop :=
  if reverse then (key b <= key a)%Q else (key a <= key b)%Q.

(** The numeric columns of the rule table that [Rule] records. *)
Definition recorded_metrics : list string :=
  ["antecedent support"; "consequent support"; "support"; "confidence"; "lift"].



(** An engine holding a rule table. *)
Definition engine_with (rs : list Rule) : MBAEngine :=
  {| min_support := 1 # 10; min_confidence := 1 # 2;
     frequent_itemsets := None; rules := Some rs; basket_df := None |}.

(* ----------------------------------------------------------------- *)
(** *** The two loops of [get_product_recommendations] *)

Lemma keep_first_app seen l1 l2 :
  keep_first seen (l1 ++ l2) =
  keep_first seen l1 ++
  keep_first (rev (map rec_product (keep_first seen l1)) ++ seen) l2.
Proof.
  revert seen. induction l1 as [|r l1 IH]; intros seen; simpl; [reflexivity|].
  destruct (seen_in (rec_product r) seen); [apply IH|].
  simpl. rewrite IH. rewrite <- app_assoc. reflexivity.
Qed.

Lemma scan_consequents_spec p n rule cs recs seen :
  length recs < n ->
  let out := keep_first seen
               (map (candidate rule) (filter (fun c => negb (c =? p)%string) cs)) in
  fst (scan_consequents p n rule cs (recs, seen)) = recs ++ firstn (n - length recs) out /\
  (length recs + length out < n ->
   snd (scan_consequents p n rule cs (recs, seen)) = rev (map rec_product out) ++ seen).
Proof.
  revert recs seen. induction cs as [|c cs IH]; intros recs seen Hlt; cbv zeta.
  - simpl. rewrite firstn_nil, app_nil_r. split; reflexivity.
  - cbn [scan_consequents filter fst snd].
    destruct (c =? p)%string eqn:Ecp; cbn [negb andb map].
    + apply IH. exact Hlt.
    + cbn [keep_first]. change (rec_product (candidate rule c)) with c.
      fold (candidate rule c).
      destruct (seen_in c seen) eqn:Eseen; cbn [negb].
      * apply IH. exact Hlt.
      * rewrite length_app. cbn [length].
        destruct (n <=? length recs + 1) eqn:En.
        -- apply Nat.leb_le in En.
           replace (n - length recs) with 1 by lia.
           cbn [fst snd firstn]. split; [reflexivity|].
           cbn [length]. lia.
        -- apply Nat.leb_gt in En.
           destruct (IH (recs ++ [candidate rule c]) (c :: seen)) as [H1 H2].
           { rewrite length_app. simpl. lia. }
           rewrite length_app in H1, H2. cbn [length] in H1, H2.
           split.
           ++ rewrite H1. rewrite <- app_assoc.
              replace (n - length recs) with (S (n - (length recs + 1))) by lia.
              reflexivity.
           ++ intros Hlen. cbn [length] in Hlen. rewrite H2 by lia.
              cbn [map rev rec_product]. rewrite <- app_assoc. reflexivity.
Qed.

Lemma scan_rules_spec p n rs recs seen :
  length recs < n ->
  scan_rules p n rs (recs, seen) =
  recs ++ firstn (n - length recs) (keep_first seen (flat_map (offers p) rs)).
Proof.
  revert recs seen. induction rs as [|rule rs IH]; intros recs seen Hlt.
  - simpl. rewrite firstn_nil, app_nil_r. reflexivity.
  - cbn [scan_rules flat_map].
    destruct (scan_consequents_spec p n rule (consequents rule) recs seen Hlt)
      as [H1 H2].
    fold (offers p rule) in H1, H2.
    set (out := keep_first seen (offers p rule)) in *.
    rewrite keep_first_app. fold out.
    rewrite firstn_app.
    destruct (n <=? length (fst (scan_consequents p n rule (consequents rule) (recs, seen))))
      eqn:En.
    + apply Nat.leb_le in En. rewrite H1 in *.
      rewrite length_app, length_firstn in En.
      replace (n - length recs - length out) with 0 by lia.
      rewrite firstn_O, app_nil_r. reflexivity.
    + apply Nat.leb_gt in En. rewrite H1 in En.
      rewrite length_app, length_firstn in En.
      assert (Hout : length recs + length out < n) by lia.
      specialize (H2 Hout).
      destruct (scan_consequents p n rule (consequents rule) (recs, seen))
        as [recs' seen'] eqn:E.
      cbn [fst snd] in H1, H2. subst recs' seen'.
      rewrite firstn_all2 by lia.
      rewrite IH by (rewrite length_app; lia).
      rewrite length_app, <- app_assoc.
      replace (n - (length recs + length out)) with (n - length recs - length out) by lia.
      reflexivity.
Qed.

(** With [n = 0] the test [len(recommendations) >= n] holds after the
    first append, and after the first rule. *)
Lemma scan_consequents_zero p rule cs recs seen :
  fst (scan_consequents p 0 rule cs (recs, seen)) =
  recs ++ firstn 1 (keep_first seen
                      (map (candidate rule) (filter (fun c => negb (c =? p)%string) cs))).
Proof.
  induction cs as [|c cs IH].
  - simpl. rewrite app_nil_r. reflexivity.
  - cbn [scan_consequents filter fst snd].
    destruct (c =? p)%string eqn:Ecp; cbn [negb andb map]; [exact IH|].
    cbn [keep_first]. change (rec_product (candidate rule c)) with c.
    destruct (seen_in c seen) eqn:Eseen; cbn [negb]; [exact IH|].
    reflexivity.
Qed.

(* ----------------------------------------------------------------- *)
(** *** The rules in descending order of lift *)

Lemma flat_map_nth_error_seq {A} (l : list A) :
  flat_map (fun i => match nth_error l i with Some r => [r] | None => [] end)
           (seq 0 (length l)) = l.
Proof.
  induction l as [|x l IH] using rev_ind; [reflexivity|].
  rewrite length_app. simpl length. rewrite seq_app, flat_map_app. simpl.
  rewrite nth_error_app2 by lia. rewrite Nat.sub_diag. simpl.
  f_equal. rewrite <- IH at 2.
  rewrite !flat_map_concat_map. f_equal. apply map_ext_in.
  intros i Hi. apply in_seq in Hi. rewrite nth_error_app1 by lia. reflexivity.
Qed.

Lemma flat_map_nth_error_sorted {A} (R : A -> A -> Prop) (l : list A) order :
  StronglySorted (fun i j => forall a b, nth_error l i = Some a ->
                                         nth_error l j = Some b -> R a b) order ->
  StronglySorted R
    (flat_map (fun i => match nth_error l i with Some r => [r] | None => [] end) order).
Proof.
  induction 1 as [|i order Hs IH Hall]; simpl; [constructor|].
  destruct (nth_error l i) as [a|] eqn:Ea; [|exact IH].
  simpl. constructor; [exact IH|].
  rewrite Forall_forall in *. intros b Hb.
  apply in_flat_map in Hb. destruct Hb as [j [Hj Hb]].
  destruct (nth_error l j) as [b'|] eqn:Eb; [|destruct Hb].
  destruct Hb as [<-|[]]. apply (Hall j Hj a b' eq_refl Eb).
Qed.

Lemma descending_Q_total_preorder : total_preorder (fun a b => Qle_bool b a).
Proof.
  destruct RecommenderFitted.Qle_bool_total_preorder as [Htot Htrans].
  split.
  - intros x y. destruct (Htot x y); auto.
  - intros x y z Hxy Hyz. exact (Htrans z y x Hyz Hxy).
Qed.

Lemma ranked_rules {sorter : ArgSort} (l : list Rule) :
  Permutation (ranked l) l /\
  StronglySorted (fun a b => (lift b <= lift a)%Q) (ranked l).
Proof.
  unfold ranked. split.
  - rewrite <- (flat_map_nth_error_seq l) at 2.
    apply Permutation_flat_map.
    rewrite <- (length_map lift l). apply argsort_perm.
  - apply flat_map_nth_error_sorted.
    apply RecommenderProperties.StronglySorted_weaken
      with (R := fun i j => Qle_bool (nth j (map lift l) 0%Q) (nth i (map lift l) 0%Q) = true).
    + intros i j _ _ Hij a b Ha Hb. apply Qle_bool_iff in Hij.
      rewrite (nth_error_nth (map lift l) j 0%Q (x := lift b)) in Hij
        by (rewrite nth_error_map, Hb; reflexivity).
      rewrite (nth_error_nth (map lift l) i 0%Q (x := lift a)) in Hij
        by (rewrite nth_error_map, Ha; reflexivity).
      exact Hij.
    + apply RecommenderProperties.StronglySorted_map_inv
        with (R := fun x y => Qle_bool y x = true)
             (f := fun i => nth i (map lift l) 0%Q).
      apply (argsort_sorted Q (fun a b => Qle_bool b a) (map lift l) 0%Q).
      exact descending_Q_total_preorder.
Qed.

(** [get_product_recommendations] as a prefix of the candidates of the
    ranked rules. *)
Lemma get_product_recommendations_prefix {sorter : ArgSort} e p n :
  get_product_recommendations e p n =
  match n with
  | 0 => firstn 1 (keep_first []
                     (flat_map (offers p)
                               (firstn 1 (ranked (product_rules p (rules_of_engine e))))))
  | S _ => firstn n (keep_first []
                       (flat_map (offers p)
                                 (ranked (product_rules p (rules_of_engine e)))))
  end.
Proof.
  unfold get_product_recommendations, rules_of_engine.
  assert (Hnil : ranked [] = []).
  { pose proof (proj1 (ranked_rules [])) as H. apply Permutation_nil. 
    apply Permutation_sym. exact H. }
  destruct (rules e) as [rs|].
  2:{ unfold product_rules. simpl. rewrite Hnil. destruct n; reflexivity. }
  destruct (length rs =? 0) eqn:Ers.
  { apply Nat.eqb_eq in Ers. apply length_zero_iff_nil in Ers. subst rs.
    unfold product_rules. simpl. rewrite Hnil. destruct n; reflexivity. }
  fold (product_rules p rs).
  destruct (length (product_rules p rs) =? 0) eqn:Epr.
  { apply Nat.eqb_eq in Epr. apply length_zero_iff_nil in Epr. rewrite Epr, Hnil.
    destruct n; reflexivity. }
  cbv zeta. fold (ranked (product_rules p rs)).
  destruct n as [|n].
  - destruct (ranked (product_rules p rs)) as [|rule ranked']; [reflexivity|].
    cbn [scan_rules firstn flat_map]. rewrite app_nil_r.
    cbn [Nat.leb]. rewrite scan_consequents_zero. reflexivity.
  - rewrite scan_rules_spec by (simpl; lia).
    simpl length. rewrite Nat.sub_0_r. reflexivity.
Qed.

(* ----------------------------------------------------------------- *)
(** *** Candidates kept once *)

Lemma seen_in_In c seen : seen_in c seen = true <-> In c seen.
Proof.
  unfold seen_in. rewrite existsb_exists. split.
  - intros [x [Hx Heq]]. apply String.eqb_eq in Heq. subst. exact Hx.
  - intros H. exists c. split; [exact H | apply String.eqb_refl].
Qed.

Lemma keep_first_In seen l r : In r (keep_first seen l) -> In r l.
Proof.
  revert seen. induction l as [|x l IH]; intros seen H; simpl in *; [exact H|].
  destruct (seen_in (rec_product x) seen).
  - right. eapply IH. exact H.
  - destruct H as [H|H]; [left; exact H | right; eapply IH; exact H].
Qed.

Lemma keep_first_unseen seen l r :
  In r (keep_first seen l) -> ~ In (rec_product r) seen.
Proof.
  revert seen. induction l as [|x l IH]; intros seen H; simpl in *; [destruct H|].
  destruct (seen_in (rec_product x) seen) eqn:E.
  - apply IH. exact H.
  - destruct H as [<-|H].
    + intros Hin. apply seen_in_In in Hin. congruence.
    + intros Hin. apply (IH _ H). right. exact Hin.
Qed.

Lemma keep_first_NoDup seen l : NoDup (map rec_product (keep_first seen l)).
Proof.
  revert seen. induction l as [|x l IH]; intros seen; simpl; [constructor|].
  destruct (seen_in (rec_product x) seen); [apply IH|].
  simpl. constructor; [|apply IH].
  intros Hin. apply in_map_iff in Hin. destruct Hin as [r [Hr Hin]].
  apply keep_first_unseen in Hin. apply Hin. left. symmetry. exact Hr.
Qed.

Lemma keep_first_sorted (R : ProductRecommendation -> ProductRecommendation -> Prop)
  seen l :
  StronglySorted R l -> StronglySorted R (keep_first seen l).
Proof.
  intros H. revert seen. induction H as [|x l Hs IH Hall]; intros seen; simpl;
    [constructor|].
  destruct (seen_in (rec_product x) seen); [apply IH|].
  constructor; [apply IH|].
  rewrite Forall_forall in *. intros y Hy. apply Hall.
  eapply keep_first_In. exact Hy.
Qed.

(** A kept candidate is the first of its product. *)
Lemma keep_first_first seen l r :
  In r (keep_first seen l) ->
  exists l1 l2, l = l1 ++ r :: l2 /\
                forall x, In x l1 -> rec_product x <> rec_product r.
Proof.
  revert seen. induction l as [|x l IH]; intros seen H; simpl in *; [destruct H|].
  destruct (seen_in (rec_product x) seen) eqn:E.
  - pose proof (keep_first_unseen _ _ _ H) as Hun.
    destruct (IH _ H) as [l1 [l2 [-> Hl1]]].
    exists (x :: l1), l2. split; [reflexivity|].
    intros y [<-|Hy]; [|apply Hl1; exact Hy].
    intros Heq. apply Hun. rewrite <- Heq. apply seen_in_In. exact E.
  - destruct H as [<-|H].
    + exists [], l. split; [reflexivity|]. intros y [].
    + pose proof (keep_first_unseen _ _ _ H) as Hun.
      destruct (IH _ H) as [l1 [l2 [-> Hl1]]].
      exists (x :: l1), l2. split; [reflexivity|].
      intros y [<-|Hy]; [|apply Hl1; exact Hy].
      intros Heq. apply Hun. left. exact Heq.
Qed.

(** No product of the candidates is lost. *)
Lemma keep_first_complete seen l x :
  In x l ->
  In (rec_product x) seen \/ In (rec_product x) (map rec_product (keep_first seen l)).
Proof.
  revert seen. induction l as [|y l IH]; intros seen H; [destruct H|].
  simpl. destruct (seen_in (rec_product y) seen) eqn:E.
  - destruct H as [<-|H]; [left; apply seen_in_In; exact E | apply IH; exact H].
  - destruct H as [<-|H]; [right; left; reflexivity|].
    destruct (IH (rec_product y :: seen) H) as [[Heq|Hs]|Hk].
    + right. left. exact Heq.
    + left. exact Hs.
    + right. right. exact Hk.
Qed.

Lemma StronglySorted_app {A} (R : A -> A -> Prop) l1 l2 :
  StronglySorted R l1 -> StronglySorted R l2 ->
  (forall x y, In x l1 -> In y l2 -> R x y) ->
  StronglySorted R (l1 ++ l2).
Proof.
  intros H1 H2 H12. induction H1 as [|x l1 Hs IH Hall]; simpl; [exact H2|].
  constructor.
  - apply IH. intros a b Ha Hb. apply H12; [right|]; assumption.
  - rewrite Forall_forall in *. intros y Hy. apply in_app_or in Hy.
    destruct Hy as [Hy|Hy]; [apply Hall; exact Hy | apply H12; [left; reflexivity | exact Hy]].
Qed.

Lemma StronglySorted_flat_map {A B} (R : B -> B -> Prop) (f : A -> list B) l :
  (forall i, In i l -> StronglySorted R (f i)) ->
  StronglySorted (fun i j => forall a b, In a (f i) -> In b (f j) -> R a b) l ->
  StronglySorted R (flat_map f l).
Proof.
  intros Hf H. induction H as [|i l Hs IH Hall]; simpl; [constructor|].
  apply StronglySorted_app.
  - apply Hf. left. reflexivity.
  - apply IH. intros j Hj. apply Hf. right. exact Hj.
  - rewrite Forall_forall in Hall. intros a b Ha Hb.
    apply in_flat_map in Hb. destruct Hb as [j [Hj Hb]].
    exact (Hall j Hj a b Ha Hb).
Qed.

Lemma offers_In p rule r :
  In r (offers p rule) <->
  exists c, In c (consequents rule) /\ c <> p /\ r = candidate rule c.
Proof.
  unfold offers. rewrite in_map_iff. split.
  - intros [c [<- Hc]]. apply filter_In in Hc. destruct Hc as [Hc Hne].
    exists c. split; [exact Hc|]. split; [|reflexivity].
    apply negb_true_iff in Hne. apply String.eqb_neq. exact Hne.
  - intros [c [Hc [Hne ->]]]. exists c. split; [reflexivity|].
    apply filter_In. split; [exact Hc|].
    apply negb_true_iff. apply String.eqb_neq. exact Hne.
Qed.

Lemma offers_sorted p l :
  StronglySorted (fun a b => (lift b <= lift a)%Q) l ->
  StronglySorted (fun a b => (rec_lift b <= rec_lift a)%Q) (flat_map (offers p) l).
Proof.
  intros H. apply StronglySorted_flat_map.
  - intros rule _. unfold offers.
    apply StronglySorted_map.
    induction (filter (fun c => negb (c =? p)%string) (consequents rule)) as [|c cs IH];
      constructor; [exact IH|].
    rewrite Forall_forall. intros c' _. simpl. apply Qle_refl.
  - eapply RecommenderProperties.StronglySorted_weaken; [|exact H].
    intros x y _ _ Hxy a b Ha Hb.
    apply offers_In in Ha. destruct Ha as [ca [_ [_ ->]]].
    apply offers_In in Hb. destruct Hb as [cb [_ [_ ->]]].
    exact Hxy.
Qed.

Lemma product_rules_In p rs rule :
  In rule (product_rules p rs) <-> In rule rs /\ In p (antecedents rule).
Proof.
  unfold product_rules. rewrite filter_In, existsb_exists. split.
  - intros [H [x [Hx Heq]]]. apply String.eqb_eq in Heq. subst x. auto.
  - intros [H Hp]. split; [exact H|]. exists p. split; [exact Hp | apply String.eqb_refl].
Qed.

(** The result is a prefix of the candidates kept once; it is the first
    [n] of them when [n] is positive. *)
Lemma get_product_recommendations_stream {sorter : ArgSort} e p n :
  exists k, k <= Nat.max 1 n /\ (1 <= n -> k = n) /\
    get_product_recommendations e p n =
    firstn k (keep_first []
                (flat_map (offers p) (ranked (product_rules p (rules_of_engine e))))).
Proof.
  rewrite get_product_recommendations_prefix.
  destruct n as [|n].
  - destruct (ranked (product_rules p (rules_of_engine e))) as [|rule l].
    + exists 0. split; [lia|]. split; [lia|]. reflexivity.
    + cbn [firstn flat_map]. rewrite app_nil_r, keep_first_app.
      destruct (keep_first [] (offers p rule)) as [|r out].
      * exists 0. split; [lia|]. split; [lia|]. reflexivity.
      * exists 1. split; [simpl; lia|]. split; [lia|]. reflexivity.
  - exists (S n). split; [lia|]. split; [reflexivity|]. reflexivity.
Qed.

(* ----------------------------------------------------------------- *)
(** *** The first entries of a stable sort *)

Lemma ordered_total_preorder {B} (key : B -> Q) (reverse : bool) :
  total_preorder (if reverse then (fun x y => Qle_bool (key y) (key x))
                  else (fun x y => Qle_bool (key x) (key y))).
Proof.
  destruct reverse.
  - apply (lift_total_preorder (fun a b => Qle_bool b a) key).
    exact descending_Q_total_preorder.
  - apply (lift_total_preorder Qle_bool key).
    exact RecommenderFitted.Qle_bool_total_preorder.
Qed.

Lemma sorted_by_top {B} (key : B -> Q) (reverse : bool) (n : nat) (l : list B) :
  let top := firstn n (sorted_by Qle_bool key reverse l) in
  length top = Nat.min n (length l) /\
  StronglySorted (ordered key reverse) top /\
  exists rest, Permutation (top ++ rest) l /\
               forall x y, In x top -> In y rest -> ordered key reverse x y.
Proof.
  cbv zeta.
  set (leb := if reverse then (fun x y => Qle_bool (key y) (key x))
              else (fun x y => Qle_bool (key x) (key y))).
  assert (E : sorted_by Qle_bool key reverse l = isort leb l).
  { unfold sorted_by, leb. destruct reverse; reflexivity. }
  rewrite E.
  assert (Hs : StronglySorted (ordered key reverse) (isort leb l)).
  { eapply RecommenderProperties.StronglySorted_weaken;
      [|apply (isort_sorted leb l), ordered_total_preorder].
    intros x y _ _ H. unfold leb in H. unfold ordered.
    destruct reverse; apply Qle_bool_iff; exact H. }
  split; [|split].
  - rewrite length_firstn, (Permutation_length (isort_perm leb l)). reflexivity.
  - apply RecommenderProperties.StronglySorted_firstn. exact Hs.
  - exists (skipn n (isort leb l)). split.
    + rewrite firstn_skipn. apply isort_perm.
    + intros x y Hx Hy. rewrite <- (firstn_skipn n (isort leb l)) in Hs.
      exact (RecommenderProperties.StronglySorted_app_inv _ _ _ x y Hs Hx Hy).
Qed.

(* ----------------------------------------------------------------- *)
(** *** Minimum and maximum *)

Lemma Qmax_cases x y :
  (x <= Qmax x y)%Q /\ (y <= Qmax x y)%Q /\ (Qmax x y = x \/ Qmax x y = y).
Proof.
  unfold Qmax. destruct (Qle_bool x y) eqn:E.
  - apply Qle_bool_iff in E. split; [exact E|]. split; [apply Qle_refl | right; reflexivity].
  - split; [apply Qle_refl|]. split; [|left; reflexivity].
    destruct (Qlt_le_dec x y) as [H|H]; [|exact H].
    apply Qlt_le_weak, Qle_bool_iff in H. congruence.
Qed.

Lemma Qmin_cases x y :
  (Qmin x y <= x)%Q /\ (Qmin x y <= y)%Q /\ (Qmin x y = x \/ Qmin x y = y).
Proof.
  unfold Qmin. destruct (Qle_bool x y) eqn:E.
  - apply Qle_bool_iff in E. split; [apply Qle_refl|]. split; [exact E | left; reflexivity].
  - split; [|split; [apply Qle_refl | right; reflexivity]].
    destruct (Qlt_le_dec x y) as [H|H]; [|exact H].
    apply Qlt_le_weak, Qle_bool_iff in H. congruence.
Qed.

Lemma maximum_bound (l : list Q) :
  l <> [] -> In (maximum l) l /\ forall x, In x l -> (x <= maximum l)%Q.
Proof.
  destruct l as [|x t]; [congruence|]. intros _. unfold maximum.
  revert x. induction t as [|y t IH]; intros x.
  - simpl. split; [left; reflexivity|]. intros z [<-|[]]. apply Qle_refl.
  - cbn [fold_left].
    destruct (IH (Qmax x y)) as [Hin Hle].
    destruct (Qmax_cases x y) as [Hx [Hy Hc]].
    split.
    + destruct Hin as [Hin|Hin].
      * rewrite <- Hin. destruct Hc as [-> | ->]; [left | right; left]; reflexivity.
      * right. right. exact Hin.
    + intros z [<-|[<-|Hz]].
      * eapply Qle_trans; [exact Hx | apply Hle; left; reflexivity].
      * eapply Qle_trans; [exact Hy | apply Hle; left; reflexivity].
      * apply Hle. right. exact Hz.
Qed.

Lemma minimum_bound (l : list Q) :
  l <> [] -> In (minimum l) l /\ forall x, In x l -> (minimum l <= x)%Q.
Proof.
  destruct l as [|x t]; [congruence|]. intros _. unfold minimum.
  revert x. induction t as [|y t IH]; intros x.
  - simpl. split; [left; reflexivity|]. intros z [<-|[]]. apply Qle_refl.
  - cbn [fold_left].
    destruct (IH (Qmin x y)) as [Hin Hle].
    destruct (Qmin_cases x y) as [Hx [Hy Hc]].
    split.
    + destruct Hin as [Hin|Hin].
      * rewrite <- Hin. destruct Hc as [-> | ->]; [left | right; left]; reflexivity.
      * right. right. exact Hin.
    + intros z [<-|[<-|Hz]].
      * eapply Qle_trans; [apply Hle; left; reflexivity | exact Hx].
      * eapply Qle_trans; [apply Hle; left; reflexivity | exact Hy].
      * apply Hle. right. exact Hz.
Qed.

(* ----------------------------------------------------------------- *)
(** *** Properties of the queries *)




(** X12: the recommendations for a product name distinct products, never
    the product itself, at most [max 1 n] of them, in descending order of
    lift; each one is a consequent of a rule of the table whose
    antecedents contain the product, carries the confidence, lift and
    support of that rule, and no rule from the product to the same
    consequent has a larger lift; when fewer than [n] are returned, every
    consequent of every such rule other than the product is among them. *)
Theorem get_product_recommendations_sound {sorter : ArgSort}
  (e : MBAEngine) (p : string) (n : nat) :
  let recs := get_product_recommendations e p n in
  NoDup (map rec_product recs) /\
  length recs <= Nat.max 1 n /\
  StronglySorted (fun a b => (rec_lift b <= rec_lift a)%Q) recs /\
  (forall r, In r recs ->
     rec_product r <> p /\
     (exists rule, In rule (rules_of_engine e) /\ In p (antecedents rule) /\
                   In (rec_product r) (consequents rule) /\
                   rec_confidence r = confidence rule /\
                   rec_lift r = lift rule /\
                   rec_support r = support rule) /\
     (forall rule, In rule (rules_of_engine e) -> In p (antecedents rule) ->
                   In (rec_product r) (consequents rule) ->
                   (lift rule <= rec_lift r)%Q)) /\
  (length recs < n ->
   forall rule c, In rule (rules_of_engine e) -> In p (antecedents rule) ->
                  In c (consequents rule) -> c <> p ->
                  In c (map rec_product recs)).
Proof.
  cbv zeta.
  destruct (get_product_recommendations_stream e p n) as [k [Hk [Hkn ->]]].
  destruct (ranked_rules (product_rules p (rules_of_engine e))) as [Hperm Hsorted].
  set (rules_for_p := ranked (product_rules p (rules_of_engine e))) in *.
  set (offered := flat_map (offers p) rules_for_p).
  assert (Hoff : StronglySorted (fun a b => (rec_lift b <= rec_lift a)%Q) offered).
  { apply offers_sorted. exact Hsorted. }
  assert (Hmem : forall rule c, In rule (rules_of_engine e) -> In p (antecedents rule) ->
                   In c (consequents rule) -> c <> p -> In (candidate rule c) offered).
  { intros rule c Hr Hp Hc Hne. apply in_flat_map. exists rule. split.
    - apply (Permutation_in _ (Permutation_sym Hperm)).
      apply product_rules_In. auto.
    - apply offers_In. exists c. auto. }
  split; [|split; [|split; [|split]]].
  - rewrite <- firstn_map.
    apply RecommenderProperties.NoDup_firstn, keep_first_NoDup.
  - rewrite length_firstn. lia.
  - apply RecommenderProperties.StronglySorted_firstn, keep_first_sorted. exact Hoff.
  - intros r Hr. apply Recommender.In_firstn in Hr.
    pose proof (keep_first_In _ _ _ Hr) as Hin.
    apply in_flat_map in Hin. destruct Hin as [rule [Hrule Hoffer]].
    apply (Permutation_in _ Hperm) in Hrule.
    apply product_rules_In in Hrule. destruct Hrule as [Hrule Hp].
    apply offers_In in Hoffer. destruct Hoffer as [c [Hc [Hne Hrc]]].
    split; [rewrite Hrc; exact Hne|].
    split.
    + exists rule. rewrite Hrc. simpl. repeat split; auto.
    + intros rule' Hrule' Hp' Hc'.
      assert (Hne' : rec_product r <> p) by (rewrite Hrc; exact Hne).
      pose proof (Hmem rule' (rec_product r) Hrule' Hp' Hc' Hne') as Hcand.
      destruct (keep_first_first _ _ _ Hr) as [l1 [l2 [Hsplit Hl1]]].
      fold offered in Hsplit. rewrite Hsplit in Hcand, Hoff.
      apply in_app_or in Hcand. destruct Hcand as [Hcand|[Hcand|Hcand]].
      * exfalso. apply (Hl1 _ Hcand). reflexivity.
      * assert (Hl : rec_lift r = lift rule') by (rewrite Hcand; reflexivity).
        rewrite Hl. apply Qle_refl.
      * change (l1 ++ r :: l2) with (l1 ++ [r] ++ l2) in Hoff.
        rewrite app_assoc in Hoff.
        assert (Hr2 : In r (l1 ++ [r])) by (apply in_or_app; right; left; reflexivity).
        exact (RecommenderProperties.StronglySorted_app_inv _ _ _ _ _ Hoff Hr2 Hcand).
  - intros Hlen rule c Hrule Hp Hc Hne.
    rewrite length_firstn in Hlen.
    rewrite firstn_all2 by lia.
    destruct (keep_first_complete [] offered _ (Hmem rule c Hrule Hp Hc Hne))
      as [[]|H].
    exact H.
Qed.

(** X13: [get_frequently_bought_together] returns the [n] pairs of
    largest lift (all of them when there are fewer) among the rules from one
    product to one product, in descending order of lift, each with the
    confidence, lift and support of its rule; no pair left out has a larger
    lift than one returned. *)
Theorem get_frequently_bought_together_ranking (e : MBAEngine) (n : nat) :
  let pairs := get_frequently_bought_together e n in
  let all_pairs := flat_map pair_of (rules_of_engine e) in
  length pairs = Nat.min n (length all_pairs) /\
  StronglySorted (fun a b => (pair_lift b <= pair_lift a)%Q) pairs /\
  (exists rest, Permutation (pairs ++ rest) all_pairs /\
     forall x y, In x pairs -> In y rest -> (pair_lift y <= pair_lift x)%Q) /\
  (forall pr, In pr all_pairs <->
     exists rule, In rule (rules_of_engine e) /\
                  antecedents rule = [product_a pr] /\
                  consequents rule = [product_b pr] /\
                  pair_confidence pr = confidence rule /\
                  pair_lift pr = lift rule /\
                  pair_support pr = support rule).
Proof.
  cbv zeta.
  assert (E : get_frequently_bought_together e n =
              firstn n (sorted_by Qle_bool pair_lift true
                          (flat_map pair_of (rules_of_engine e)))).
  { unfold get_frequently_bought_together, rules_of_engine.
    destruct (rules e) as [rs|]; [|simpl; rewrite firstn_nil; reflexivity].
    destruct (length rs =? 0) eqn:Ers; [|reflexivity].
    apply Nat.eqb_eq in Ers. apply length_zero_iff_nil in Ers. subst rs.
    simpl. rewrite firstn_nil. reflexivity. }
  rewrite E.
  destruct (sorted_by_top pair_lift true n (flat_map pair_of (rules_of_engine e)))
    as [Hlen [Hs Hrest]].
  split; [exact Hlen|]. split; [exact Hs|]. split; [exact Hrest|].
  intros pr. rewrite in_flat_map. split.
  - intros [rule [Hrule Hpr]]. exists rule. split; [exact Hrule|].
    unfold pair_of in Hpr.
    destruct (antecedents rule) as [|a [|a' l]]; try destruct Hpr.
    destruct (consequents rule) as [|b [|b' l]]; try destruct Hpr.
    + subst pr. simpl. repeat split; reflexivity.
    + contradiction.
  - intros [rule [Hrule [Ha [Hb [Hc [Hl Hsup]]]]]]. exists rule.
    split; [exact Hrule|]. unfold pair_of. rewrite Ha, Hb. left.
    destruct pr. simpl in *. subst. reflexivity.
Qed.



(** X15: asked for one of the numeric columns that [Rule] records
    (antecedent support, consequent support, support, confidence, lift),
    [get_top_rules] returns [n] rules of the table, or all when there are
    fewer, in descending order of that column, ascending when [ascending]
    is set; no rule left out comes before one returned in that order. *)
Theorem get_top_rules_ranking (e : MBAEngine) (n : nat) (metric : string)
  (ascending : bool) :
  In metric recorded_metrics ->
  numeric_column "antecedent support" = Some antecedent_support /\
  numeric_column "consequent support" = Some consequent_support /\
  numeric_column "support" = Some support /\
  numeric_column "confidence" = Some confidence /\
  numeric_column "lift" = Some lift /\
  exists key top rest,
    numeric_column metric = Some key /\
    get_top_rules e n metric ascending = Ok top /\
    length top = Nat.min n (length (rules_of_engine e)) /\
    StronglySorted (ordered key (negb ascending)) top /\
    Permutation (top ++ rest) (rules_of_engine e) /\
    (forall x y, In x top -> In y rest -> ordered key (negb ascending) x y).
Proof.
  intros Hmetric.
  repeat (split; [reflexivity|]).
  assert (Hcol : existsb (String.eqb metric) rule_columns = true).
  { unfold recorded_metrics in Hmetric. simpl in Hmetric.
    destruct Hmetric as [H|[H|[H|[H|[H|[]]]]]]; subst metric; reflexivity. }
  assert (Hkey : exists key, numeric_column metric = Some key).
  { unfold recorded_metrics in Hmetric. simpl in Hmetric.
    destruct Hmetric as [H|[H|[H|[H|[H|[]]]]]]; subst metric; eexists; reflexivity. }
  destruct Hkey as [key Hkey]. exists key.
  unfold get_top_rules, rules_of_engine. rewrite Hcol, Hkey.
  destruct (rules e) as [rs|].
  - destruct (sorted_by_top key (negb ascending) n rs) as [Hlen [Hs [rest [Hperm Hrest]]]].
    destruct (length rs =? 0) eqn:Ers.
    + apply Nat.eqb_eq in Ers. apply length_zero_iff_nil in Ers. subst rs.
      exists [], []. simpl. rewrite Nat.min_0_r.
      repeat split; try constructor. intros x y [].
    + exists (firstn n (sorted_by Qle_bool key (negb ascending) rs)), rest.
      repeat split; assumption.
  - exists [], []. simpl. rewrite Nat.min_0_r.
    repeat split; try constructor. intros x y [].
Qed.

Lemma get_top_rules_ranking_witness :
  numeric_column "antecedent support" = Some antecedent_support /\
  numeric_column "consequent support" = Some consequent_support /\
  numeric_column "support" = Some support /\
  numeric_column "confidence" = Some confidence /\
  numeric_column "lift" = Some lift /\
  exists key top rest,
    numeric_column "confidence" = Some key /\
    get_top_rules (engine_with [rule_A_B; rule_B_A]) 1 "confidence" false = Ok top /\
    length top = Nat.min 1 (length (rules_of_engine (engine_with [rule_A_B; rule_B_A]))) /\
    StronglySorted (ordered key (negb false)) top /\
    Permutation (top ++ rest) (rules_of_engine (engine_with [rule_A_B; rule_B_A])) /\
    (forall x y, In x top -> In y rest -> ordered key (negb false) x y).
Proof.
  apply (get_top_rules_ranking (engine_with [rule_A_B; rule_B_A]) 1 "confidence" false).
  simpl. tauto.
Defined.

(** X16: on a table that has rules [get_rules_summary] returns the six
    fields; [total_rules] is the number of rules; the confidence of every
    rule lies between [min_confidence] and [max_confidence] and its lift is
    at most [max_lift]; and each of these three bounds is attained by a rule
    of the table. *)
Theorem get_rules_summary_bounds (e : MBAEngine) (rs : list Rule) :
  rules e = Some rs -> rs <> [] ->
  exists avg_confidence avg_lift max_lift min_confidence max_confidence,
    get_rules_summary e =
      [("total_rules", inject_Z (Z.of_nat (length rs)));
       ("avg_confidence", avg_confidence); ("avg_lift", avg_lift);
       ("max_lift", max_lift); ("min_confidence", min_confidence);
       ("max_confidence", max_confidence)] /\
    (forall r, In r rs -> (min_confidence <= confidence r)%Q /\
                          (confidence r <= max_confidence)%Q /\
                          (lift r <= max_lift)%Q) /\
    (exists r, In r rs /\ confidence r = min_confidence) /\
    (exists r, In r rs /\ confidence r = max_confidence) /\
    (exists r, In r rs /\ lift r = max_lift).
Proof.
  intros Hrules Hne.
  assert (Hc : map confidence rs <> []) by (destruct rs; [congruence | discriminate]).
  assert (Hl : map lift rs <> []) by (destruct rs; [congruence | discriminate]).
  destruct (maximum_bound _ Hc) as [HmaxcIn Hmaxc].
  destruct (minimum_bound _ Hc) as [HmincIn Hminc].
  destruct (maximum_bound _ Hl) as [HmaxlIn Hmaxl].
  exists (mean (map confidence rs)), (mean (map lift rs)), (maximum (map lift rs)),
         (minimum (map confidence rs)), (maximum (map confidence rs)).
  split.
  { unfold get_rules_summary. rewrite Hrules.
    destruct rs as [|r rs']; [congruence|]. reflexivity. }
  split.
  { intros r Hr. split; [|split].
    - apply Hminc. apply in_map. exact Hr.
    - apply Hmaxc. apply in_map. exact Hr.
    - apply Hmaxl. apply in_map. exact Hr. }
  split; [|split].
  - apply in_map_iff in HmincIn. destruct HmincIn as [r [Hr Hin]]. exists r. auto.
  - apply in_map_iff in HmaxcIn. destruct HmaxcIn as [r [Hr Hin]]. exists r. auto.
  - apply in_map_iff in HmaxlIn. destruct HmaxlIn as [r [Hr Hin]]. exists r. auto.
Qed.

Lemma get_rules_summary_bounds_witness :
  exists avg_confidence avg_lift max_lift min_confidence max_confidence,
    get_rules_summary (engine_with [rule_A_B; rule_B_A]) =
      [("total_rules", inject_Z (Z.of_nat 2));
       ("avg_confidence", avg_confidence); ("avg_lift", avg_lift);
       ("max_lift", max_lift); ("min_confidence", min_confidence);
       ("max_confidence", max_confidence)] /\
    (forall r, In r [rule_A_B; rule_B_A] ->
       (min_confidence <= confidence r)%Q /\
       (confidence r <= max_confidence)%Q /\
       (lift r <= max_lift)%Q) /\
    (exists r, In r [rule_A_B; rule_B_A] /\ confidence r = min_confidence) /\
    (exists r, In r [rule_A_B; rule_B_A] /\ confidence r = max_confidence) /\
    (exists r, In r [rule_A_B; rule_B_A] /\ lift r = max_lift).
Proof.
  apply (get_rules_summary_bounds (engine_with [rule_A_B; rule_B_A])
           [rule_A_B; rule_B_A]).
  - reflexivity.
  - discriminate.
Defined.

End RuleQueries.

(* ================================================================= *)
(** ** [src/recommender.py]: the order of the recommendations and of the
       neighbours *)

Module RecommenderQueries.
Import Py.
Import Preprocessing (DataFrame, index, columns, values).
Import Recommender.


(** The content-based score array of a customer row, the purchased
    products masked. *)
Definition content_scores (M : DataFrame) (item_sim : list (list Q))
  (user_idx : nat) : list score_t :=
  let user_vector := nth user_idx (values M) [] in
  let purchased := purchased_indices user_vector in
  mask_at purchased
    (map Fin (accumulate_item_scores item_sim user_vector purchased
                                     (length (columns M)))).

(** [top] holds the positions of the [m] largest entries of a score array
    (all positions when there are fewer), from the largest down. *)
Definition best_positions (m : nat) (scores : list score_t) (top : list nat) : Prop :=
  NoDup top /\
  length top = Nat.min m (length scores) /\
  (forall i, In i top -> i < length scores) /\
  StronglySorted (fun i j => score_leb (nth j scores NegInf) (nth i scores NegInf) = true)
                 top /\
  (forall i j, In i top -> j < length scores -> ~ In j top ->
               score_leb (nth j scores NegInf) (nth i scores NegInf) = true).

(** [recs] is what one tier makes of the positions [top]: a recommendation
    for each position whose score is finite and strictly positive, with the
    product of the column, that score and the tag of the tier, in order of
    descending score. *)
Definition tier_of (tag : string) (ids : list string) (scores : list score_t)
  (top : list nat) (recs : list Recommendation) : Prop :=
  (forall r, In r recs <->
     exists i, In i top /\ nth i scores NegInf = Fin (score r) /\ (0 < score r)%Q /\
               product r = nth i ids "" /\ reasoning r = tag) /\
  StronglySorted (fun a b => (score b <= score a)%Q) recs /\
  NoDup (map product recs).

(** The score the content-based tier gives to the product in column [j]:
    the sum over the purchased products of the similarity to [j] times the
    purchased quantity. *)
Definition content_score (item_sim : list (list Q)) (user_vector : list Z)
  (j : nat) : Q :=
  sumQ (map (fun p => nth j (nth p item_sim []) 0 * inject_Z (nth p user_vector 0%Z))%Q
            (purchased_indices user_vector)).

(* ----------------------------------------------------------------- *)
(** *** Rankings *)

Lemma StronglySorted_rev {A} (R : A -> A -> Prop) l :
  StronglySorted R l -> StronglySorted (fun a b => R b a) (rev l).
Proof.
  induction 1 as [|x l Hs IH Hall]; simpl; [constructor|].
  apply RuleQueries.StronglySorted_app.
  - exact IH.
  - constructor; [constructor | constructor].
  - rewrite Forall_forall in Hall. intros a b Ha [<-|[]].
    apply Hall. apply in_rev. exact Ha.
Qed.

Lemma ranking_descending {sorter : ArgSort} {A} (leb : A -> A -> bool) (d : A)
  (scores : list A) :
  total_preorder leb ->
  StronglySorted (fun i j => leb (nth j scores d) (nth i scores d) = true)
                 (rev (argsort leb scores)).
Proof.
  intros Hto.
  apply (StronglySorted_rev (fun i j => leb (nth i scores d) (nth j scores d) = true)).
  apply RecommenderProperties.StronglySorted_map_inv
    with (R := fun x y => leb x y = true) (f := fun i => nth i scores d).
  apply argsort_sorted. exact Hto.
Qed.

Lemma ranking_NoDup {sorter : ArgSort} {A} (leb : A -> A -> bool) (scores : list A) :
  NoDup (rev (argsort leb scores)).
Proof.
  apply (Permutation_NoDup (Permutation_rev _)). apply argsort_NoDup.
Qed.

Lemma ranking_In {sorter : ArgSort} {A} (leb : A -> A -> bool) (scores : list A) i :
  In i (rev (argsort leb scores)) <-> i < length scores.
Proof. rewrite <- in_rev. apply argsort_In. Qed.

(* ----------------------------------------------------------------- *)
(** *** The recommendations collected from a ranking *)

Lemma collect_cons tag ids scores i top :
  collect tag ids scores (i :: top) =
  collect tag ids scores [i] ++ collect tag ids scores top.
Proof. unfold collect. simpl. rewrite app_nil_r. reflexivity. Qed.

Lemma collect_one tag ids scores i :
  collect tag ids scores [i] = [] \/
  exists q, nth i scores NegInf = Fin q /\
            collect tag ids scores [i] =
            [ {| product := nth i ids ""; score := q; reasoning := tag |} ].
Proof.
  unfold collect. simpl. destruct (nth i scores NegInf) as [|q]; [left; reflexivity|].
  destruct (Qlt_bool 0 q); [|left; reflexivity].
  right. exists q. split; reflexivity.
Qed.

Lemma collect_length tag ids scores top :
  length (collect tag ids scores top) <= length top.
Proof.
  induction top as [|i top IH]; [simpl; lia|].
  rewrite collect_cons, length_app. cbn [length].
  destruct (collect_one tag ids scores i) as [-> | [q [_ ->]]]; cbn [length]; lia.
Qed.

Lemma collect_sorted tag ids scores top :
  StronglySorted (fun i j => score_leb (nth j scores NegInf) (nth i scores NegInf) = true)
                 top ->
  StronglySorted (fun a b => (score b <= score a)%Q) (collect tag ids scores top).
Proof.
  intros H. unfold collect. apply RuleQueries.StronglySorted_flat_map.
  - intros i _. destruct (nth i scores NegInf) as [|q]; [constructor|].
    destruct (Qlt_bool 0 q); constructor; constructor.
  - eapply RecommenderProperties.StronglySorted_weaken; [|exact H].
    intros i j _ _ Hij a b Ha Hb. cbv beta in Hij. revert Hij.
    destruct (nth i scores NegInf) as [|qi]; [destruct Ha|].
    destruct (nth j scores NegInf) as [|qj]; [destruct Hb|].
    destruct (Qlt_bool 0 qi); [|destruct Ha].
    destruct (Qlt_bool 0 qj); [|destruct Hb].
    destruct Ha as [<-|[]]. destruct Hb as [<-|[]]. simpl. intros Hij.
    apply Qle_bool_iff. exact Hij.
Qed.

Lemma collect_NoDup tag ids scores top :
  NoDup ids -> NoDup top -> (forall i, In i top -> i < length ids) ->
  NoDup (map product (collect tag ids scores top)).
Proof.
  intros Hids Htop. induction Htop as [|i top Hnot Htop IH]; intros Hlt;
    [constructor|].
  rewrite collect_cons.
  assert (IH' : NoDup (map product (collect tag ids scores top))).
  { apply IH. intros j Hj. apply Hlt. right. exact Hj. }
  destruct (collect_one tag ids scores i) as [-> | [q [_ ->]]]; [exact IH'|].
  simpl. constructor; [|exact IH'].
  intros Hin. apply in_map_iff in Hin. destruct Hin as [r [Hr Hin]].
  apply collect_In in Hin. destruct Hin as [j [Hj [_ [_ [Hprod _]]]]].
  assert (E : j = i).
  { apply (proj1 (NoDup_nth ids "") Hids).
    - apply Hlt. right. exact Hj.
    - apply Hlt. left. reflexivity.
    - rewrite <- Hprod. exact Hr. }
  subst j. contradiction.
Qed.

Lemma Qlt_bool_iff x y : Qlt_bool x y = true <-> (x < y)%Q.
Proof.
  unfold Qlt_bool. rewrite negb_true_iff. split.
  - intros H. destruct (Qlt_le_dec x y) as [Hlt|Hle]; [exact Hlt|].
    apply Qle_bool_iff in Hle. congruence.
  - intros H. destruct (Qle_bool y x) eqn:E; [|reflexivity].
    apply Qle_bool_iff in E. exfalso. exact (Qlt_not_le _ _ H E).
Qed.

Lemma collect_In_iff tag ids scores top r :
  In r (collect tag ids scores top) <->
  exists idx, In idx top /\ nth idx scores NegInf = Fin (score r) /\
              (0 < score r)%Q /\ product r = nth idx ids "" /\ reasoning r = tag.
Proof.
  split; [apply collect_In|].
  intros [idx [Hidx [Hnth [Hpos [Hprod Htag]]]]].
  unfold collect. apply in_flat_map. exists idx. split; [exact Hidx|].
  rewrite Hnth. apply Qlt_bool_iff in Hpos. rewrite Hpos. left.
  destruct r as [pr sc tg]. cbn [product score reasoning] in *. subst. reflexivity.
Qed.

Lemma ranking_best {sorter : ArgSort} (m : nat) (scores : list score_t) :
  best_positions m scores (firstn m (rev (argsort score_leb scores))).
Proof.
  pose proof (ranking_descending score_leb NegInf scores
                RecommenderFitted.score_leb_total_preorder) as Hs.
  unfold best_positions.
  split; [apply RecommenderProperties.NoDup_firstn, ranking_NoDup|].
  split; [rewrite length_firstn, length_rev, argsort_length; reflexivity|].
  split; [intros i Hi; apply In_firstn in Hi; apply ranking_In in Hi; exact Hi|].
  split; [apply RecommenderProperties.StronglySorted_firstn; exact Hs|].
  intros i j Hi Hj Hout.
  assert (Hjr : In j (rev (argsort score_leb scores))) by (apply ranking_In; exact Hj).
  rewrite <- (firstn_skipn m (rev (argsort score_leb scores))) in Hjr, Hs.
  apply in_app_or in Hjr. destruct Hjr as [Hjr|Hjr]; [contradiction|].
  exact (RecommenderProperties.StronglySorted_app_inv _ _ _ i j Hs Hi Hjr).
Qed.

Lemma collect_tier tag ids scores top m :
  NoDup ids -> best_positions m scores top -> length scores = length ids ->
  tier_of tag ids scores top (collect tag ids scores top).
Proof.
  intros Hids [Hnd [_ [Hlt [Hs _]]]] Hlen. unfold tier_of.
  split; [intros r; apply collect_In_iff|].
  split; [apply collect_sorted; exact Hs|].
  apply collect_NoDup; [exact Hids | exact Hnd|].
  intros i Hi. rewrite <- Hlen. apply Hlt. exact Hi.
Qed.

(** One tier: at most [k] recommendations, all tagged and of positive
    score, in descending order of score, of distinct products. *)
Lemma tier_ordered {sorter : ArgSort} tag ids scores k m :
  length scores = length ids -> NoDup ids ->
  let tier := firstn m (collect tag ids scores
                          (firstn k (rev (argsort score_leb scores)))) in
  length tier <= k /\
  (forall r, In r tier -> reasoning r = tag /\ (0 < score r)%Q) /\
  StronglySorted (fun a b => (score b <= score a)%Q) tier /\
  NoDup (map product tier).
Proof.
  intros Hlen Hids. cbv zeta.
  set (top := firstn k (rev (argsort score_leb scores))).
  split; [|split; [|split]].
  - rewrite length_firstn.
    pose proof (collect_length tag ids scores top) as H.
    assert (length top <= k) by (unfold top; rewrite length_firstn; lia).
    lia.
  - intros r Hr. apply In_firstn in Hr. apply collect_In in Hr.
    destruct Hr as [idx [_ [_ [Hpos [_ Htag]]]]]. auto.
  - apply RecommenderProperties.StronglySorted_firstn, collect_sorted.
    apply RecommenderProperties.StronglySorted_firstn.
    apply (ranking_descending score_leb NegInf scores).
    exact RecommenderFitted.score_leb_total_preorder.
  - rewrite <- firstn_map. apply RecommenderProperties.NoDup_firstn.
    apply collect_NoDup; [exact Hids | |].
    + apply RecommenderProperties.NoDup_firstn, ranking_NoDup.
    + intros i Hi. apply In_firstn in Hi. apply ranking_In in Hi. lia.
Qed.

(* ----------------------------------------------------------------- *)
(** *** The neighbours of a row of similarities *)



(* ----------------------------------------------------------------- *)
(** *** The accumulated content-based scores *)

Lemma nth_weighted_row (row : list Q) (c : Q) j :
  (nth j (map (fun s => s * c) row) 0 == nth j row 0 * c)%Q.
Proof.
  destruct (Nat.lt_ge_cases j (length row)) as [H|H].
  - rewrite (nth_map_in (fun s => (s * c)%Q) row 0%Q 0%Q) by exact H. reflexivity.
  - rewrite !nth_overflow by (try rewrite length_map; exact H). ring.
Qed.

Lemma accumulate_item_scores_nth item_sim uv purchased width j :
  j < width ->
  (nth j (accumulate_item_scores item_sim uv purchased width) 0 ==
   sumQ (map (fun p => nth j (nth p item_sim []) 0 * inject_Z (nth p uv 0%Z))
             purchased))%Q.
Proof.
  intros Hj. unfold accumulate_item_scores.
  assert (G : forall acc, j < length acc ->
    (nth j (fold_left (fun acc p =>
       vadd acc (map (fun s => s * inject_Z (nth p uv 0%Z))%Q (nth p item_sim [])))
       purchased acc) 0 ==
     nth j acc 0 +
     sumQ (map (fun p => nth j (nth p item_sim []) 0 * inject_Z (nth p uv 0%Z))
               purchased))%Q).
  { induction purchased as [|p ps IH]; intros acc Hacc.
    - simpl. ring.
    - cbn [fold_left map sumQ fold_right].
      rewrite IH by (rewrite vadd_length; exact Hacc).
      rewrite RecommenderProperties.vadd_nth by exact Hacc.
      rewrite nth_weighted_row. unfold sumQ. ring. }
  rewrite G by (rewrite repeat_length; exact Hj).
  rewrite RecommenderProperties.nth_repeat_zero. ring.
Qed.

Lemma matrix_max_None (rows : list (list Z)) :
  Cosine.matrix_max rows = None <-> Forall (fun row => row = []) rows.
Proof.
  unfold Cosine.matrix_max. split.
  - intros H. destruct (concat rows) eqn:E; [|discriminate].
    apply concat_nil_Forall. exact E.
  - intros H. apply concat_nil_Forall in H. rewrite H. reflexivity.
Qed.

Lemma prepared_matrix_max df :
  Cosine.matrix_max (values (Preprocessing.prepare_user_item_matrix df)) = None
  <-> df = [].
Proof.
  rewrite matrix_max_None, Preprocessing.prepare_user_item_matrix_table. simpl.
  split.
  - intros H. destruct df as [|t df]; [reflexivity|]. exfalso.
    assert (Hrows : Preprocessing.row_labels Preprocessing.customer_id (t :: df) <> []).
    { intros Hc. apply Utils.row_labels_nonempty in Hc. discriminate. }
    assert (Hcols : Preprocessing.column_labels (t :: df) <> []).
    { apply RecommenderProperties.column_labels_nonempty. discriminate. }
    destruct (Preprocessing.row_labels Preprocessing.customer_id (t :: df))
      as [|c rows]; [congruence|].
    simpl in H. apply Forall_inv in H.
    apply map_eq_nil in H. contradiction.
  - intros ->. constructor.
Qed.

(* ----------------------------------------------------------------- *)
(** *** Properties *)

(** X17: for a customer who is a row of the matrix of a fitted engine,
    with [n] the requested number, the result is the collaborative tier
    followed by the content-based tier.  The collaborative tier is made of
    the positions of the [n] largest final scores, purchased products
    masked: one recommendation for each of them whose score is strictly
    positive.  When it has fewer than [n] recommendations the content-based
    tier is made, in the same way, of the positions of the [n - len] largest
    content-based scores; otherwise it is empty.  Each tier is in descending
    order of score and names distinct products. *)
Theorem known_customer_recommendations_ordered {sorter : ArgSort}
  (e : RecommenderEngine) (M : DataFrame) (user_sim item_sim : list (list Q))
  (customer : Z) (user_idx : nat) (n : option nat) :
  user_item_matrix e = Some M ->
  user_similarity e = Some user_sim ->
  item_similarity e = Some item_sim ->
  index_of Z.eqb customer (index M) = Some user_idx ->
  Frames.well_formed M ->
  length (nth user_idx user_sim []) = length (values M) ->
  length item_sim = length (columns M) ->
  Forall (fun row => length row = length (columns M)) item_sim ->
  let k := requested e n in
  let final := masked_scores e M user_sim user_idx in
  let item_scores := content_scores M item_sim user_idx in
  exists top_cf top_cb cf cb,
    get_user_recommendations e customer n = Ok (cf ++ cb) /\
    best_positions k final top_cf /\
    tier_of collaborative (columns M) final top_cf cf /\
    best_positions (k - length cf) item_scores top_cb /\
    tier_of content_based (columns M) item_scores top_cb cb /\
    length (cf ++ cb) <= k.
Proof.
  intros HM Hus His Hu [_ [Hnd _]] _ _ _ k final item_scores.
  unfold get_user_recommendations. rewrite HM, Hu, Hus. cbv zeta.
  fold k. fold final.
  set (top_cf := firstn k (rev (argsort score_leb final))).
  set (cf := collect collaborative (columns M) final top_cf).
  assert (Hfinal : length final = length (columns M)) by apply masked_scores_length.
  assert (Hitem : length item_scores = length (columns M)).
  { unfold item_scores, content_scores. cbv zeta.
    rewrite mask_at_length, length_map. apply accumulate_item_scores_length. }
  assert (Hbest : forall m scores,
            best_positions m scores (firstn m (rev (argsort score_leb scores))))
    by (intros; apply ranking_best).
  assert (Htier : forall tag m scores, length scores = length (columns M) ->
            tier_of tag (columns M) scores (firstn m (rev (argsort score_leb scores)))
              (collect tag (columns M) scores
                 (firstn m (rev (argsort score_leb scores))))).
  { intros tag m scores Hlen.
    apply (collect_tier tag (columns M) scores _ m); [exact Hnd | apply Hbest | exact Hlen]. }
  assert (Hcf_len : length cf <= k).
  { pose proof (collect_length collaborative (columns M) final top_cf) as H.
    assert (length top_cf <= k) by (unfold top_cf; rewrite length_firstn; lia).
    fold cf in H. lia. }
  set (top_cb := firstn (k - length cf) (rev (argsort score_leb item_scores))).
  set (cb := collect content_based (columns M) item_scores top_cb).
  assert (Hcb_len : length cb <= k - length cf).
  { pose proof (collect_length content_based (columns M) item_scores top_cb) as H.
    assert (length top_cb <= k - length cf)
      by (unfold top_cb; rewrite length_firstn; lia).
    fold cb in H. lia. }
  exists top_cf, top_cb, cf, cb.
  split.
  - destruct (length cf <? k) eqn:Ek.
    + unfold _get_content_based_recommendations. rewrite HM, Hu. cbv zeta.
      destruct (length (purchased_indices (nth user_idx (values M) [])) =? 0) eqn:Ep.
      * assert (Hcb : cb = []).
        { destruct cb as [|r cb'] eqn:Ecb; [reflexivity|]. exfalso.
          assert (Hr : In r cb) by (rewrite Ecb; left; reflexivity).
          unfold cb in Hr. apply collect_In in Hr.
          destruct Hr as [i [Hi [Hnth [Hpos _]]]].
          apply In_firstn in Hi. apply ranking_In in Hi.
          unfold item_scores, content_scores in Hnth, Hi. cbv zeta in Hnth, Hi.
          apply Nat.eqb_eq in Ep. apply length_zero_iff_nil in Ep.
          rewrite Ep in Hnth, Hi.
          rewrite mask_at_length, length_map in Hi.
          rewrite mask_at_nth in Hnth by (rewrite length_map; exact Hi).
          cbn [existsb] in Hnth.
          rewrite (nth_map_in Fin _ NegInf 0%Q) in Hnth by exact Hi.
          unfold accumulate_item_scores in Hnth. cbn [fold_left] in Hnth.
          rewrite RecommenderProperties.nth_repeat_zero in Hnth.
          injection Hnth as Hz. rewrite <- Hz in Hpos.
          exact (Qlt_irrefl 0 Hpos). }
        rewrite Hcb, !app_nil_r, firstn_all2 by exact Hcf_len. reflexivity.
      * rewrite His. fold item_scores. unfold content_scores in item_scores.
        fold top_cb. fold cb.
        rewrite firstn_app, (firstn_all2 cf) by exact Hcf_len.
        rewrite (firstn_all2 cb) by exact Hcb_len. reflexivity.
    + apply Nat.ltb_ge in Ek.
      assert (Hcb : cb = []).
      { assert (L : length cb = 0) by lia.
        apply length_zero_iff_nil. exact L. }
      rewrite Hcb, app_nil_r, firstn_all2 by exact Hcf_len. reflexivity.
  - split; [apply Hbest|]. split; [apply Htier; exact Hfinal|].
    split; [apply Hbest|]. split; [apply Htier; exact Hitem|].
    rewrite length_app. lia.
Qed.

Lemma known_customer_recommendations_ordered_witness :
  exists top_cf top_cb cf cb,
    get_user_recommendations (sorter := stable_argsort)
      RecommenderProperties.paired_engine 1 (Some 2) = Ok (cf ++ cb) /\
    best_positions 2
      (masked_scores RecommenderProperties.paired_engine
         RecommenderProperties.paired_matrix [[1; 3 # 5]; [3 # 5; 1]]%Q 0) top_cf /\
    tier_of collaborative (columns RecommenderProperties.paired_matrix)
      (masked_scores RecommenderProperties.paired_engine
         RecommenderProperties.paired_matrix [[1; 3 # 5]; [3 # 5; 1]]%Q 0) top_cf cf /\
    best_positions (2 - length cf)
      (content_scores RecommenderProperties.paired_matrix
         [[1; 3 # 5]; [3 # 5; 1]]%Q 0) top_cb /\
    tier_of content_based (columns RecommenderProperties.paired_matrix)
      (content_scores RecommenderProperties.paired_matrix
         [[1; 3 # 5]; [3 # 5; 1]]%Q 0) top_cb cb /\
    length (cf ++ cb) <= 2.
Proof.
  apply (known_customer_recommendations_ordered (sorter := stable_argsort)
           RecommenderProperties.paired_engine RecommenderProperties.paired_matrix
           [[1; 3 # 5]; [3 # 5; 1]]%Q [[1; 3 # 5]; [3 # 5; 1]]%Q 1%Z 0 (Some 2)).
  - reflexivity.
  - reflexivity.
  - reflexivity.
  - vm_compute. reflexivity.
  - apply (Frames.quantity_matrix_well_formed RecommenderProperties.paired_df).
  - vm_compute. reflexivity.
  - vm_compute. reflexivity.
  - rewrite RecommenderProperties.paired_matrix_eq. repeat constructor.
Defined.





(** X20: the content-based score of a recommended product is the sum,
    over the products the customer has bought, of the similarity of the
    bought product to the recommended one times the bought quantity; every
    content-based recommendation carries that score, which is strictly
    positive, for a column of the matrix. *)
Theorem content_based_scores {sorter : ArgSort}
  (e : RecommenderEngine) (M : DataFrame) (item_sim : list (list Q))
  (customer : Z) (user_idx n : nat) (recs : list Recommendation) :
  user_item_matrix e = Some M ->
  item_similarity e = Some item_sim ->
  index_of Z.eqb customer (index M) = Some user_idx ->
  Forall (fun row => length row = length (columns M)) item_sim ->
  _get_content_based_recommendations e customer n = Ok recs ->
  Forall (fun r =>
    exists j, j < length (columns M) /\
              product r = nth j (columns M) "" /\
              reasoning r = content_based /\
              (0 < score r)%Q /\
              (score r == content_score item_sim (nth user_idx (values M) []) j)%Q)
    recs.
Proof.
  intros HM His Hidx Hshape. unfold _get_content_based_recommendations.
  rewrite HM, Hidx. cbv zeta.
  set (uv := nth user_idx (values M) []).
  destruct (length (purchased_indices uv) =? 0).
  { intros H. injection H as <-. constructor. }
  rewrite His.
  set (acc := accumulate_item_scores item_sim uv (purchased_indices uv)
                                     (length (columns M))).
  intros H. injection H as <-.
  apply Forall_forall. intros r Hr.
  apply collect_In in Hr. destruct Hr as [j [Hj [Hnth [Hpos [Hprod Htag]]]]].
  apply In_firstn in Hj. apply ranking_In in Hj.
  rewrite mask_at_length, length_map in Hj.
  assert (Hacc : length acc = length (columns M))
    by apply accumulate_item_scores_length.
  exists j. split; [lia|]. split; [exact Hprod|]. split; [exact Htag|].
  split; [exact Hpos|].
  rewrite mask_at_nth in Hnth by (rewrite length_map; exact Hj).
  destruct (existsb (Nat.eqb j) (purchased_indices uv)); [discriminate|].
  rewrite (nth_map_in Fin acc NegInf 0%Q) in Hnth by exact Hj.
  injection Hnth as Hs. rewrite <- Hs. unfold acc, content_score.
  apply accumulate_item_scores_nth. lia.
Qed.

Lemma content_based_scores_witness :
  Forall (fun r =>
    exists j, j < 2 /\
              product r = nth j ["A"; "B"] "" /\
              reasoning r = content_based /\
              (0 < score r)%Q /\
              (score r == content_score [[1; 3 # 5]; [3 # 5; 1]]%Q [4%Z; 0%Z] j)%Q)
    [ {| product := "B"; score := 12 # 5; reasoning := content_based |} ].
Proof.
  apply (content_based_scores (sorter := stable_argsort)
           RecommenderProperties.paired_engine RecommenderProperties.paired_matrix
           [[1; 3 # 5]; [3 # 5; 1]]%Q 1%Z 0 1).
  - reflexivity.
  - reflexivity.
  - reflexivity.
  - repeat constructor.
  - reflexivity.
Defined.

(** X21: on the quantity matrix of a transaction table the similarity
    step of [fit] fails, at [matrix.max()], exactly when the table is
    empty, and [fit] then leaves the similarity matrices and the model as
    they were; on a table with at least one record it yields a
    customer-by-customer and a product-by-product similarity matrix. *)
Theorem fit_on_transactions (df : list Preprocessing.Transaction) :
  let M := Preprocessing.prepare_user_item_matrix df in
  (RecommenderFit.fit_similarity M = None <-> df = []) /\
  (df = [] -> forall e e', RecommenderFit.fit e M e' ->
     user_similarity e' = user_similarity e /\
     item_similarity e' = item_similarity e /\
     model e' = model e) /\
  (df <> [] ->
     exists user_sim item_sim,
       RecommenderFit.fit_similarity M = Some (user_sim, item_sim) /\
       length user_sim = length (index M) /\
       Forall (fun row => length row = length (index M)) user_sim /\
       length item_sim = length (columns M) /\
       Forall (fun row => length row = length (columns M)) item_sim).
Proof.
  intros M.
  assert (Hnone : RecommenderFit.fit_similarity M = None <-> df = []).
  { unfold RecommenderFit.fit_similarity.
    rewrite <- (prepared_matrix_max df). fold M.
    destruct (Cosine.matrix_max (values M)); split; congruence. }
  split; [exact Hnone|]. split.
  - intros Hdf e e' [_ [_ [_ Hfit]]]. apply Hnone in Hdf. fold M in Hfit.
    rewrite Hdf in Hfit. tauto.
  - intros Hdf.
    destruct (RecommenderFit.fit_similarity M) as [[usim isim]|] eqn:E;
      [|exfalso; apply Hdf, Hnone; reflexivity].
    exists usim, isim. split; [reflexivity|].
    apply RecommenderFit.fit_similarity_Some in E. destruct E as [mx [Hus His]].
    rewrite RecommenderFit.user_similarity_rows in Hus.
    rewrite RecommenderFit.item_similarity_rows in His.
    assert (Hrows : length (values M) = length (index M)).
    { unfold M. rewrite Preprocessing.prepare_user_item_matrix_table. simpl.
      apply length_map. }
    subst usim isim.
    split; [rewrite length_map; exact Hrows|].
    split.
    + apply Forall_forall. intros row Hrow. apply in_map_iff in Hrow.
      destruct Hrow as [a [<- _]]. rewrite length_map. exact Hrows.
    + split; [rewrite length_map; apply length_seq|].
      apply Forall_forall. intros row Hrow. apply in_map_iff in Hrow.
      destruct Hrow as [a [<- _]]. rewrite length_map. apply length_seq.
Qed.

End RecommenderQueries.

(* ================================================================= *)
(** ** [src/preprocessing.py]: [normalize_ratings] *)

Module Normalize.
Import Py.
Import Preprocessing (DataFrame, index, columns, values).
Import Reals Lra.

(** [series.dropna()]: the values that are not NaN. *)
Definition dropna {A} (l : list (option A)) : list A :=
  flat_map (fun o => match o with Some x => [x] | None => [] end) l.

(** [series.min()] and [series.max()] of integer cells: NaN ([None]) on no
    cells. *)
Definition series_fold (op : Z -> Z -> Z) (l : list Z) : option Z :=
  match l with
  | [] => None
  | x :: t => Some (fold_left op t x)
  end.

(** [frame.min().min()] and [frame.max().max()]: column by column, then
    over the columns, NaN skipped. *)
Definition frame_fold (op : Z -> Z -> Z) (frame : DataFrame) : option Z :=
  series_fold op
    (dropna (map (fun j => series_fold op (Frames.column frame j))
                 (seq 0 (length (columns frame))))).

Definition sumR (l : list R) : R := fold_right Rplus 0%R l.

(** [series.mean()]. *)
Definition series_mean (l : list R) : option R :=
  match l with
  | [] => None
  | _ => Some (sumR l / INR (length l))%R
  end.

(** [series.std()]: the sample standard deviation (one degree of freedom
    taken off), NaN on fewer than two values. *)
Definition series_std (l : list R) : option R :=
  match l with
  | [] | [_] => None
  | _ =>
      match series_mean l with
      | Some m =>
          Some (sqrt (sumR (map (fun x => (x - m) * (x - m)) l)
                      / (INR (length l) - 1)))%R
      | None => None
      end
  end.

(** [frame.mean().mean()] and [frame.std().std()]. *)
Definition frame_stat (stat : list R -> option R) (frame : DataFrame) : option R :=
  stat (dropna (map (fun j => stat (map IZR (Frames.column frame j)))
                    (seq 0 (length (columns frame))))).

(** The cells of the frame as floats: the frame returned as it is. *)
Definition unchanged (frame : DataFrame) : list (list R) :=
  map (map IZR) (values frame).

(** [normalize_ratings]: the cells of the result; its labels are those of
    the frame.  The mean and the deviation of the z-score are the exact
    ones, before any rounding to [float64]. *)
Definition normalize_ratings (user_item_df : DataFrame) (method : string)
  : list (list R) :=
  if (method =? "min_max")%string then
    match frame_fold Z.min user_item_df, frame_fold Z.max user_item_df with
    | Some min_val, Some max_val =>
        if (min_val <? max_val)%Z
        then map (map (fun x => (IZR x - IZR min_val) / (IZR max_val - IZR min_val))%R)
                 (values user_item_df)
        else unchanged user_item_df
    | _, _ => unchanged user_item_df
    end
  else if (method =? "z_score")%string then
    match frame_stat series_std user_item_df with
    | Some std_val =>
        if Rlt_dec 0 std_val then
          match frame_stat series_mean user_item_df with
          | Some mean_val =>
              map (map (fun x => (IZR x - mean_val) / std_val)%R) (values user_item_df)
          | None => unchanged user_item_df
          end
        else unchanged user_item_df
    | None => unchanged user_item_df
    end
  else unchanged user_item_df.

(** All cells of a frame. *)
Definition cells (frame : DataFrame) : list Z := concat (values frame).


(* ----------------------------------------------------------------- *)
(** *** Smallest and largest cell *)

Lemma dropna_In {A} (l : list (option A)) x : In x (dropna l) <-> In (Some x) l.
Proof.
  unfold dropna. rewrite in_flat_map. split.
  - intros [[y|] [Hy Hx]]; [|destruct Hx]. destruct Hx as [<-|[]]. exact Hy.
  - intros H. exists (Some x). split; [exact H | left; reflexivity].
Qed.

Lemma dropna_length {A} (l : list (option A)) : length (dropna l) <= length l.
Proof.
  induction l as [|[x|] l IH]; simpl; lia.
Qed.

Section Extremum.
Variable op : Z -> Z -> Z.
Variable before : Z -> Z -> Prop.
Hypothesis op_choice : forall a b, op a b = a \/ op a b = b.
Hypothesis op_l : forall a b, before (op a b) a.
Hypothesis op_r : forall a b, before (op a b) b.
Hypothesis before_refl : forall a, before a a.
Hypothesis before_trans : forall a b c, before a b -> before b c -> before a c.






End Extremum.



(* ----------------------------------------------------------------- *)
(** *** Mean and deviation *)

Lemma series_std_two (l : list R) s :
  series_std l = Some s -> 2 <= length l.
Proof.
  destruct l as [|x [|y t]]; simpl; try discriminate. intros _. lia.
Qed.

Lemma series_std_short (l : list R) : length l < 2 -> series_std l = None.
Proof.
  destruct l as [|x [|y t]]; simpl; try reflexivity. lia.
Qed.

Lemma series_mean_defined (l : list R) : l <> [] -> exists m, series_mean l = Some m.
Proof.
  destruct l as [|x t]; [congruence|]. intros _. eexists. reflexivity.
Qed.

(** A deviation over the columns needs two columns of two cells, and then
    the mean over the columns is a number too. *)
Lemma frame_std_mean (frame : DataFrame) s :
  frame_stat series_std frame = Some s ->
  2 <= length (values frame) /\ 2 <= length (columns frame) /\
  exists m, frame_stat series_mean frame = Some m.
Proof.
  unfold frame_stat. intros H.
  pose proof (series_std_two _ _ H) as Hlen.
  set (stds := dropna (map (fun j => series_std (map IZR (Frames.column frame j)))
                           (seq 0 (length (columns frame))))) in *.
  assert (Hcols : 2 <= length (columns frame)).
  { pose proof (dropna_length (map (fun j => series_std (map IZR (Frames.column frame j)))
                                   (seq 0 (length (columns frame))))) as Hd.
    rewrite length_map, length_seq in Hd. fold stds in Hd. lia. }
  destruct stds as [|s0 rest] eqn:E; [simpl in Hlen; lia|].
  assert (Hs0 : In s0 stds) by (rewrite E; left; reflexivity).
  unfold stds in Hs0. apply dropna_In in Hs0. apply in_map_iff in Hs0.
  destruct Hs0 as [j [Hj Hin]]. apply in_seq in Hin.
  apply series_std_two in Hj. rewrite length_map in Hj.
  unfold Frames.column in Hj. rewrite length_map in Hj.
  split; [exact Hj|]. split; [exact Hcols|].
  apply series_mean_defined.
  assert (Hcol : map IZR (Frames.column frame j) <> []).
  { unfold Frames.column. destruct (values frame); [simpl in Hj; lia | discriminate]. }
  destruct (series_mean_defined _ Hcol) as [m Hm].
  intros Hnil.
  assert (Hin' : In m (dropna (map (fun j => series_mean (map IZR (Frames.column frame j)))
                                   (seq 0 (length (columns frame)))))).
  { apply dropna_In. apply in_map_iff. exists j. split; [exact Hm | apply in_seq; lia]. }
  rewrite Hnil in Hin'. destruct Hin'.
Qed.

(* ----------------------------------------------------------------- *)
(** *** Properties *)



(** X23: with the method ["z_score"], [normalize_ratings] returns a frame
    with fewer than two rows or fewer than two columns as it is: the
    deviation it divides by is the deviation of the column deviations,
    which is NaN on such a frame. *)
Theorem normalize_ratings_unchanged (frame : DataFrame) :
  (length (values frame) < 2 -> normalize_ratings frame "z_score" = unchanged frame) /\
  (length (columns frame) < 2 -> normalize_ratings frame "z_score" = unchanged frame).
Proof.
  assert (H : length (values frame) < 2 \/ length (columns frame) < 2 ->
              normalize_ratings frame "z_score" = unchanged frame).
  { intros Hsmall. unfold normalize_ratings.
    change ("z_score" =? "min_max")%string with false.
    change ("z_score" =? "z_score")%string with true. cbv iota.
    destruct (frame_stat series_std frame) as [s|] eqn:E; [|reflexivity].
    apply frame_std_mean in E. lia. }
  split; intros Hs; apply H; [left | right]; exact Hs.
Qed.

End Normalize.
